(** * OpenSpace terminal session bridge

    A shallow embedding of the terminal bridge of the OpenSpace renderer:

    - [Tauri]: the [tauriAPI.terminal] module (per-session listener
      registries, output backlog capped at 1024 * 1024 characters, delayed
      exit records kept for 30 seconds);
    - [OpenspaceBridge] and [Bridge]: the [rendererBridge] module of
      [bridge/openspaceBridge.ts] and its variant with the terminal calls
      (alias fallback dispatch [invokeWithFallbacks], rolling
      8000-character output log, [writeTerminal], [resizeTerminal],
      [killTerminal]);
    - [App]: the pane runtime controller of [App.tsx]
      ([ensurePaneSession], [resizePaneTerminal], [disposePaneRuntime],
      [createPaneRuntime] and the exit handler).

    Conventions.  A JavaScript string is a [string] (one character per
    UTF-16 code unit); a [Map] keyed by strings is a [gmap string _]; a
    [Set] of callbacks is a list in insertion order, the order [forEach]
    follows.  Callbacks are opaque: a listener is an identifier and
    calling it is recorded in a log; a listener that throws is caught by
    the source and changes nothing.  A backend call is recorded in a log
    of issued calls.  Numbers are integers ([Z]); [NaN] and fractions are
    not represented.

    Asynchrony.  Handlers run to completion on one event loop.  In
    [Tauri] and [App] every piece of code between two suspension points
    is a function on the state and the event loop is a list of events:
    a timer that fires, a promise that settles, a call from the UI.  In
    [Bridge] the backend answers a command at once, so an [async]
    function is given by the state in which its promise settles. *)

From Stdlib Require Import ZArith String Ascii List Bool Lia.
From stdpp Require Import base option list gmap strings fin_maps.

Local Open Scope string_scope.
Local Open Scope list_scope.
Local Open Scope Z_scope.

(** ** JavaScript primitives used by the bridge *)

Module Js.

(** Values that reach the untyped entry points of [tauriAPI]. *)
Inductive value :=
| Undefined
| Null
| Boolean (b : bool)
| Number (n : Z)
| Str (s : string)
| Object.

(** [s.length] *)
Definition length (s : string) : Z := Z.of_nat (String.length s).

Fixpoint drop (n : nat) (s : string) : string :=
  match n, s with
  | O, _ => s
  | S _, EmptyString => EmptyString
  | S n', String _ s' => drop n' s'
  end.

(** [s.slice(start)]: a negative [start] counts from the end, and the
    start position is clamped to [0 .. s.length]. *)
Definition slice (s : string) (start : Z) : string :=
  let len := length s in
  let from := if start <? 0 then Z.max (len + start) 0 else Z.min start len in
  drop (Z.to_nat from) s.

(** [typeof value === "string" && value.length > 0] *)
Definition isNonEmptyString (v : value) : bool :=
  match v with
  | Str s => 0 <? length s
  | _ => false
  end.

(** [Set.prototype.add]: insertion order is kept, a member is not added
    twice. *)
Definition set_add {A} `{EqDecision A} (x : A) (s : list A) : list A :=
  if decide (x ∈ s) then s else s ++ [x].

(** [Set.prototype.delete] *)
Definition set_delete {A} `{EqDecision A} (x : A) (s : list A) : list A :=
  filter (λ y, y ≠ x) s.

(** [set.size] *)
Definition size {A} (s : list A) : Z := Z.of_nat (List.length s).

Fixpoint take (n : nat) (s : string) : string :=
  match n, s with
  | O, _ => EmptyString
  | S _, EmptyString => EmptyString
  | S n', String c s' => String c (take n' s')
  end.

(** The most recent [cap] characters of [s]: the characters before
    them, the oldest, are the ones left out. *)
Definition lastChars (cap : nat) (s : string) : string :=
  drop (String.length s - cap) s.

Definition dropped (cap : nat) (s : string) : string :=
  take (String.length s - cap) s.

End Js.

(** ** The [tauriAPI.terminal] module *)

Module Tauri.

Definition listener := nat.

(** One call of a listener, with the argument it received. *)
Inductive delivery :=
| DataEvent (fn : listener) (id data : string)   (* global: fn({ id, data }) *)
| DataChunk (fn : listener) (data : string)      (* per session: fn(data) *)
| ExitEvent (fn : listener) (id : string) (code : Z)
| ExitCode (fn : listener) (code : Z).

(** One [invoke(command, { request })] issued to the backend, under the
    commands [terminal_write], [terminal_resize] and [terminal_kill]. *)
Inductive invocation :=
| TerminalWrite (sessionId data : string)
| TerminalResize (sessionId : string) (cols rows : Z)
| TerminalKill (sessionId : string).

Definition TERMINAL_BUFFER_LIMIT : Z := 1024 * 1024.

(** Retention of a delayed exit record, in milliseconds. *)
Definition EXIT_RETENTION : Z := 30000.

(** The module-level registries, the pending [setTimeout] callbacks
    (due time and captured session id) with the clock they are
    measured against, and the two logs. *)
Record state := State {
  terminalDataListeners : list listener;
  terminalExitListeners : list listener;
  terminalDataBySession : gmap string string;
  terminalExitBySession : gmap string Z;
  terminalSessionDataListeners : gmap string (list listener);
  terminalSessionExitListeners : gmap string (list listener);
  terminalSessionCwd : gmap string string;
  timers : list (Z * string);
  clock : Z;
  delivered : list delivery;
  invoked : list invocation
}.

Definition init : state :=
  State [] [] ∅ ∅ ∅ ∅ ∅ [] 0 [] [].

Definition with_dataListeners (f : list listener → list listener) (st : state) : state :=
  State (f (terminalDataListeners st)) (terminalExitListeners st)
    (terminalDataBySession st) (terminalExitBySession st)
    (terminalSessionDataListeners st) (terminalSessionExitListeners st)
    (terminalSessionCwd st) (timers st) (clock st) (delivered st) (invoked st).

Definition with_exitListeners (f : list listener → list listener) (st : state) : state :=
  State (terminalDataListeners st) (f (terminalExitListeners st))
    (terminalDataBySession st) (terminalExitBySession st)
    (terminalSessionDataListeners st) (terminalSessionExitListeners st)
    (terminalSessionCwd st) (timers st) (clock st) (delivered st) (invoked st).

Definition with_dataBySession (f : gmap string string → gmap string string) (st : state) : state :=
  State (terminalDataListeners st) (terminalExitListeners st)
    (f (terminalDataBySession st)) (terminalExitBySession st)
    (terminalSessionDataListeners st) (terminalSessionExitListeners st)
    (terminalSessionCwd st) (timers st) (clock st) (delivered st) (invoked st).

Definition with_exitBySession (f : gmap string Z → gmap string Z) (st : state) : state :=
  State (terminalDataListeners st) (terminalExitListeners st)
    (terminalDataBySession st) (f (terminalExitBySession st))
    (terminalSessionDataListeners st) (terminalSessionExitListeners st)
    (terminalSessionCwd st) (timers st) (clock st) (delivered st) (invoked st).

Definition with_sessionDataListeners
    (f : gmap string (list listener) → gmap string (list listener)) (st : state) : state :=
  State (terminalDataListeners st) (terminalExitListeners st)
    (terminalDataBySession st) (terminalExitBySession st)
    (f (terminalSessionDataListeners st)) (terminalSessionExitListeners st)
    (terminalSessionCwd st) (timers st) (clock st) (delivered st) (invoked st).

Definition with_sessionExitListeners
    (f : gmap string (list listener) → gmap string (list listener)) (st : state) : state :=
  State (terminalDataListeners st) (terminalExitListeners st)
    (terminalDataBySession st) (terminalExitBySession st)
    (terminalSessionDataListeners st) (f (terminalSessionExitListeners st))
    (terminalSessionCwd st) (timers st) (clock st) (delivered st) (invoked st).

Definition with_sessionCwd (f : gmap string string → gmap string string) (st : state) : state :=
  State (terminalDataListeners st) (terminalExitListeners st)
    (terminalDataBySession st) (terminalExitBySession st)
    (terminalSessionDataListeners st) (terminalSessionExitListeners st)
    (f (terminalSessionCwd st)) (timers st) (clock st) (delivered st) (invoked st).

Definition with_timers (f : list (Z * string) → list (Z * string)) (st : state) : state :=
  State (terminalDataListeners st) (terminalExitListeners st)
    (terminalDataBySession st) (terminalExitBySession st)
    (terminalSessionDataListeners st) (terminalSessionExitListeners st)
    (terminalSessionCwd st) (f (timers st)) (clock st) (delivered st) (invoked st).

Definition with_clock (f : Z → Z) (st : state) : state :=
  State (terminalDataListeners st) (terminalExitListeners st)
    (terminalDataBySession st) (terminalExitBySession st)
    (terminalSessionDataListeners st) (terminalSessionExitListeners st)
    (terminalSessionCwd st) (timers st) (f (clock st)) (delivered st) (invoked st).

(** [set.forEach(fn => { try { fn(arg) } catch {} })]: every member is
    called, in order; what a listener throws is swallowed. *)
Definition forEach (calls : list delivery) (st : state) : state :=
  State (terminalDataListeners st) (terminalExitListeners st)
    (terminalDataBySession st) (terminalExitBySession st)
    (terminalSessionDataListeners st) (terminalSessionExitListeners st)
    (terminalSessionCwd st) (timers st) (clock st) (delivered st ++ calls) (invoked st).

(** [invoke(command, { request }).catch(() => {})] *)
Definition invoke (i : invocation) (st : state) : state :=
  State (terminalDataListeners st) (terminalExitListeners st)
    (terminalDataBySession st) (terminalExitBySession st)
    (terminalSessionDataListeners st) (terminalSessionExitListeners st)
    (terminalSessionCwd st) (timers st) (clock st) (delivered st) (invoked st ++ [i]).

(** [sessionListeners && sessionListeners.size > 0] *)
Definition has_listeners (set : option (list listener)) : bool :=
  match set with
  | Some s => 0 <? Js.size s
  | None => false
  end.

Definition addPerSessionListener (sessionId : string) (fn : listener)
    (store : gmap string (list listener)) : gmap string (list listener) :=
  match store !! sessionId with
  | Some set => <[sessionId := Js.set_add fn set]> store
  | None => <[sessionId := Js.set_add fn []]> store
  end.

(** The closure returned by [addPerSessionListener]. *)
Definition removePerSessionListener (sessionId : string) (fn : listener)
    (store : gmap string (list listener)) : gmap string (list listener) :=
  match store !! sessionId with
  | None => store
  | Some current =>
      let current' := Js.set_delete fn current in
      if Js.size current' =? 0 then delete sessionId store
      else <[sessionId := current']> store
  end.

Definition emitTerminalData (sessionId data : string) (st : state) : state :=
  let st := forEach (map (λ fn, DataEvent fn sessionId data) (terminalDataListeners st)) st in
  let sessionListeners := terminalSessionDataListeners st !! sessionId in
  if has_listeners sessionListeners then
    forEach (map (λ fn, DataChunk fn data) (default [] sessionListeners)) st
  else
    let previous := default "" (terminalDataBySession st !! sessionId) in
    let next := previous +:+ data in
    with_dataBySession
      (insert sessionId
         (if TERMINAL_BUFFER_LIMIT <? Js.length next
          then Js.slice next (Js.length next - TERMINAL_BUFFER_LIMIT)
          else next)) st.

Definition emitTerminalExit (sessionId : string) (code : Z) (st : state) : state :=
  let st := forEach (map (λ fn, ExitEvent fn sessionId code) (terminalExitListeners st)) st in
  let sessionListeners := terminalSessionExitListeners st !! sessionId in
  let st :=
    if has_listeners sessionListeners then
      forEach (map (λ fn, ExitCode fn code) (default [] sessionListeners)) st
    else
      with_timers (λ ts, ts ++ [(clock st + EXIT_RETENTION, sessionId)])
        (with_exitBySession (insert sessionId code) st) in
  with_sessionCwd (delete sessionId)
    (with_sessionExitListeners (delete sessionId)
       (with_sessionDataListeners (delete sessionId)
          (with_dataBySession (delete sessionId) st))).

(** The callback armed by [emitTerminalExit]. *)
Definition expire (sessionId : string) (st : state) : state :=
  with_exitBySession (delete sessionId) st.

(** The event loop lets [dt] milliseconds pass: the timers that are due
    run in the order they were armed. *)
Definition advance (dt : Z) (st : state) : state :=
  let now := clock st + dt in
  let due := filter (λ t, t.1 ≤ now) (timers st) in
  let st := with_clock (λ _, now) (with_timers (filter (λ t, ¬ t.1 ≤ now)) st) in
  foldl (λ st t, expire t.2 st) st due.

(** [normalizePath(value)] *)
Definition normalizePath (value : Js.value) : string :=
  match value with
  | Js.Str s => if Js.isNonEmptyString value then s else "~"
  | _ => "~"
  end.

(** [terminal.create(cwd)] from the point where the backend has answered
    with a session id: the working directory is remembered, unless the id
    is not a non-empty string and the call throws. *)
Definition created (cwd id : Js.value) (st : state) : state :=
  match id with
  | Js.Str s =>
      if Js.isNonEmptyString id then with_sessionCwd (insert s (normalizePath cwd)) st
      else st
  | _ => st
  end.

(** [terminal.getCwd(id)]; an empty remembered path reads as [null]. *)
Definition getCwd (id : Js.value) (st : state) : option string :=
  match id with
  | Js.Str s =>
      if Js.isNonEmptyString id then
        match terminalSessionCwd st !! s with
        | Some cwd => if 0 <? Js.length cwd then Some cwd else None
        | None => None
        end
      else None
  | _ => None
  end.

(** [terminal.write(id, data)] *)
Definition write (id : Js.value) (data : string) (st : state) : state :=
  match id with
  | Js.Str s => if Js.isNonEmptyString id then invoke (TerminalWrite s data) st else st
  | _ => st
  end.

(** [terminal.resize(id, cols, rows)]; [cols || 1] replaces 0 by 1. *)
Definition resize (id : Js.value) (cols rows : Z) (st : state) : state :=
  match id with
  | Js.Str s =>
      if Js.isNonEmptyString id then
        invoke (TerminalResize s (if cols =? 0 then 1 else cols)
                                 (if rows =? 0 then 1 else rows)) st
      else st
  | _ => st
  end.

(** [terminal.destroy(id)] *)
Definition destroy (id : Js.value) (st : state) : state :=
  match id with
  | Js.Str s =>
      if Js.isNonEmptyString id then
        invoke (TerminalKill s)
          (with_sessionCwd (delete s)
             (with_exitBySession (delete s)
                (with_dataBySession (delete s) st)))
      else st
  | _ => st
  end.

(** [terminal.onData(listener)] and [terminal.onExit(listener)] *)
Definition onData (fn : listener) (st : state) : state :=
  with_dataListeners (Js.set_add fn) st.

Definition onExit (fn : listener) (st : state) : state :=
  with_exitListeners (Js.set_add fn) st.

(** [terminal.onDataForSession(sessionId, listener)]: the state when the
    unsubscribe handle is returned. A non-empty string is truthy. *)
Definition onDataForSession (sessionId : string) (fn : listener) (st : state) : state :=
  let st := with_sessionDataListeners (addPerSessionListener sessionId fn) st in
  match terminalDataBySession st !! sessionId with
  | Some buffered =>
      if 0 <? Js.length buffered then
        forEach [DataChunk fn buffered] (with_dataBySession (delete sessionId) st)
      else st
  | None => st
  end.

(** [terminal.onExitForSession(sessionId, listener)] *)
Definition onExitForSession (sessionId : string) (fn : listener) (st : state) : state :=
  let st := with_sessionExitListeners (addPerSessionListener sessionId fn) st in
  match terminalExitBySession st !! sessionId with
  | Some code =>
      forEach [ExitCode fn code] (with_exitBySession (delete sessionId) st)
  | None => st
  end.

(** The unsubscribe handles of the two per-session subscriptions. *)
Definition unsubDataForSession (sessionId : string) (fn : listener) (st : state) : state :=
  with_sessionDataListeners (removePerSessionListener sessionId fn) st.

Definition unsubExitForSession (sessionId : string) (fn : listener) (st : state) : state :=
  with_sessionExitListeners (removePerSessionListener sessionId fn) st.

(** The exit codes a listener received, in order. *)
Definition codes_for (fn : listener) (log : list delivery) : list Z :=
  omap (λ d, match d with
             | ExitCode fn' code => if decide (fn' = fn) then Some code else None
             | _ => None
             end) log.

(** The output events of a run, as the backend emits them. *)
Definition emitAll (events : list (string * string)) (st : state) : state :=
  foldl (λ st e, emitTerminalData e.1 e.2 st) st events.

(** The data of the events addressed to [sessionId], concatenated. *)
Fixpoint received (sessionId : string) (events : list (string * string)) : string :=
  match events with
  | [] => ""
  | (id, data) :: rest =>
      if decide (id = sessionId) then data +:+ received sessionId rest
      else received sessionId rest
  end.

(** What the event loop of the module can run next. *)
Inductive event :=
| Output (sessionId data : string)
| Exit (sessionId : string) (code : Z)
| Advance (ms : N)
| Write (id : Js.value) (data : string)
| Resize (id : Js.value) (cols rows : Z)
| Destroy (id : Js.value)
| OnData (fn : listener)
| OnExit (fn : listener)
| OnDataForSession (sessionId : string) (fn : listener)
| OnExitForSession (sessionId : string) (fn : listener)
| UnsubDataForSession (sessionId : string) (fn : listener)
| UnsubExitForSession (sessionId : string) (fn : listener)
| Created (cwd id : Js.value).

Definition step (st : state) (e : event) : state :=
  match e with
  | Output sessionId data => emitTerminalData sessionId data st
  | Exit sessionId code => emitTerminalExit sessionId code st
  | Advance ms => advance (Z.of_N ms) st
  | Write id data => write id data st
  | Resize id cols rows => resize id cols rows st
  | Destroy id => destroy id st
  | OnData fn => onData fn st
  | OnExit fn => onExit fn st
  | OnDataForSession sessionId fn => onDataForSession sessionId fn st
  | OnExitForSession sessionId fn => onExitForSession sessionId fn st
  | UnsubDataForSession sessionId fn => unsubDataForSession sessionId fn st
  | UnsubExitForSession sessionId fn => unsubExitForSession sessionId fn st
  | Created cwd id => created cwd id st
  end.

Definition run (events : list event) (st : state) : state := foldl step st events.



End Tauri.

(** ** The output log of [openspaceBridge.ts] *)

Module OpenspaceBridge.

Definition OUTPUT_LIMIT : Z := 8000.

(** [appendTerminalOutput(payload)] on [terminalOutputBySession];
    [get(...) ?? ""] and [combined.slice(-8000)]. *)
Definition appendTerminalOutput (sessionId data : string)
    (terminalOutputBySession : gmap string string) : gmap string string :=
  let current := default "" (terminalOutputBySession !! sessionId) in
  let combined := current +:+ data in
  <[sessionId := Js.slice combined (- OUTPUT_LIMIT)]> terminalOutputBySession.

Definition handleTerminalExit (sessionId : string)
    (terminalOutputBySession : gmap string string) : gmap string string :=
  delete sessionId terminalOutputBySession.

Definition appendAll (events : list (string * string))
    (log : gmap string string) : gmap string string :=
  foldl (λ log e, appendTerminalOutput e.1 e.2 log) log events.

End OpenspaceBridge.

(** ** The [rendererBridge] module *)

Module Bridge.

Definition listener := nat.

(** What a rejected call carries: [Nullish] stands for a rejection with
    [undefined] or [null], which [??] replaces. *)
Inductive error :=
| Nullish
| Error (message : string).

Inductive request :=
| CreateRequest (cwd : option string) (cols rows : Z)
| WriteRequest (sessionId data : string)
| ResizeRequest (sessionId : string) (cols rows : Z)
| KillRequest (sessionId : string) (signal : option string).

(** [InvokeArgs]: the two envelope shapes of a request, or none. *)
Inductive args :=
| NoArgs                      (* undefined *)
| Wrapped (r : request)       (* { request } *)
| Flat (r : request).         (* toRecord(request) *)

Inductive response :=
| Void
| Created (sessionId : string) (pid : Z)
| Sessions (ids : list string).

Inductive delivery :=
| OutputEvent (fn : listener) (sessionId data : string)
| ExitEvent (fn : listener) (sessionId : string) (exitCode : Z).

(** One call of [invokeCommand], with how it ended. *)
Record attempt := Attempt {
  command : string;
  payload : args;
  answer : error + response
}.

Definition failed (a : attempt) : Prop :=
  match answer a with inl _ => True | inr _ => False end.

Definition combination (a : attempt) : string * args := (command a, payload a).

Definition TAURI_COMMANDS_terminalWrite : list string :=
  ["terminal_write"; "terminal:write"].
Definition TAURI_COMMANDS_terminalResize : list string :=
  ["terminal_resize"; "terminal:resize"].
Definition TAURI_COMMANDS_terminalKill : list string :=
  ["terminal_kill"; "terminal:kill"].
Definition TAURI_COMMANDS_terminalCreate : list string :=
  ["terminal_create"; "terminal:create"].

Section WithBackend.

(** The backend behind [invoke]: a world [W] and its answer to a
    command, which may depend on everything it was sent before. *)
Context {W : Type}.
Variable tauriInvoke : string → args → W → (error + response) * W.

Record state := State {
  hasTauriRuntime : bool;
  backend : W;
  terminalOutputBySession : gmap string string;
  terminalOutputListeners : list listener;
  terminalExitListeners : list listener;
  attempts : list attempt;
  delivered : list delivery
}.

Definition with_output (f : gmap string string → gmap string string) (st : state) : state :=
  State (hasTauriRuntime st) (backend st) (f (terminalOutputBySession st))
    (terminalOutputListeners st) (terminalExitListeners st)
    (attempts st) (delivered st).

Definition call_listeners (calls : list delivery) (st : state) : state :=
  State (hasTauriRuntime st) (backend st) (terminalOutputBySession st)
    (terminalOutputListeners st) (terminalExitListeners st)
    (attempts st) (delivered st ++ calls).

(** [invokeCommand(command, args)] *)
Definition invokeCommand (cmd : string) (a : args) (st : state)
    : (error + response) * state :=
  if hasTauriRuntime st then
    let r := tauriInvoke cmd a (backend st) in
    (r.1, State (hasTauriRuntime st) r.2 (terminalOutputBySession st)
            (terminalOutputListeners st) (terminalExitListeners st)
            (attempts st ++ [Attempt cmd a r.1]) (delivered st))
  else
    let unavailable := inl (Error "Tauri invoke unavailable") in
    (unavailable,
     State (hasTauriRuntime st) (backend st) (terminalOutputBySession st)
       (terminalOutputListeners st) (terminalExitListeners st)
       (attempts st ++ [Attempt cmd a unavailable]) (delivered st)).

(** The inner loop of [invokeWithFallbacks]: [inr] is the [return]
    out of both loops, [inl] the [lastError] the loop ends with. *)
Fixpoint tryVariants (cmd : string) (argsVariants : list args)
    (lastError : error) (st : state) : (error + response) * state :=
  match argsVariants with
  | [] => (inl lastError, st)
  | a :: rest =>
      match invokeCommand cmd a st with
      | (inr v, st') => (inr v, st')
      | (inl e, st') => tryVariants cmd rest e st'
      end
  end.

Fixpoint tryCommands (commands : list string) (argsVariants : list args)
    (lastError : error) (st : state) : (error + response) * state :=
  match commands with
  | [] => (inl lastError, st)
  | cmd :: rest =>
      match tryVariants cmd argsVariants lastError st with
      | (inr v, st') => (inr v, st')
      | (inl e, st') => tryCommands rest argsVariants e st'
      end
  end.

(** [lastError ?? new Error(`${action} failed`)] *)
Definition orFailed (action : string) (lastError : error) : error :=
  match lastError with
  | Nullish => Error (action +:+ " failed")
  | e => e
  end.

Definition invokeWithFallbacks (action : string) (commands : list string)
    (argsVariants : list args) (st : state) : (error + response) * state :=
  match tryCommands commands argsVariants Nullish st with
  | (inr v, st') => (inr v, st')
  | (inl lastError, st') => (inl (orFailed action lastError), st')
  end.

(** The (name, shape) combinations in priority order: every shape of
    the first name, then every shape of the next one. *)
Definition combinations (commands : list string) (argsVariants : list args)
    : list (string * args) :=
  flat_map (λ cmd, map (pair cmd) argsVariants) commands.

(** The dispatch as the specification words it: one priority list,
    tried in order until an attempt succeeds. *)
Fixpoint firstSuccess (combos : list (string * args)) (lastError : error)
    (st : state) : (error + response) * state :=
  match combos with
  | [] => (inl lastError, st)
  | (cmd, a) :: rest =>
      match invokeCommand cmd a st with
      | (inr v, st') => (inr v, st')
      | (inl e, st') => firstSuccess rest e st'
      end
  end.

(** [appendTerminalOutput(payload)] *)
Definition appendTerminalOutput (sessionId data : string) (st : state) : state :=
  let st := with_output (OpenspaceBridge.appendTerminalOutput sessionId data) st in
  call_listeners (map (λ fn, OutputEvent fn sessionId data) (terminalOutputListeners st)) st.

(** [handleTerminalExit(payload)] *)
Definition handleTerminalExit (sessionId : string) (exitCode : Z) (st : state) : state :=
  let st := with_output (OpenspaceBridge.handleTerminalExit sessionId) st in
  call_listeners (map (λ fn, ExitEvent fn sessionId exitCode) (terminalExitListeners st)) st.

(** The three session calls below are [async]; the state given is the
    one in which the returned promise settles, [inr tt] when it is
    fulfilled and [inl e] when it is rejected with [e]. *)
Definition settled (r : (error + response) * state) : (error + unit) * state :=
  match r with
  | (inr _, st) => (inr tt, st)
  | (inl e, st) => (inl e, st)
  end.

(** [!sessionId] on a string *)
Definition falsy (s : string) : bool := Js.length s =? 0.

Definition writeTerminal (sessionId data : string) (st : state) : (error + unit) * state :=
  if falsy sessionId then (inr tt, st)
  else if negb (hasTauriRuntime st) then (inr tt, appendTerminalOutput sessionId data st)
  else
    let request := WriteRequest sessionId data in
    settled (invokeWithFallbacks "terminal.write" TAURI_COMMANDS_terminalWrite
               [Wrapped request; Flat request] st).

Definition resizeTerminal (sessionId : string) (cols rows : Z) (st : state)
    : (error + unit) * state :=
  if falsy sessionId then (inr tt, st)
  else
    let request := ResizeRequest sessionId cols rows in
    if negb (hasTauriRuntime st) then (inr tt, st)
    else
      settled (invokeWithFallbacks "terminal.resize" TAURI_COMMANDS_terminalResize
                 [Wrapped request; Flat request] st).

Definition killTerminal (sessionId : string) (signal : option string) (st : state)
    : (error + unit) * state :=
  if falsy sessionId then (inr tt, st)
  else
    let request := KillRequest sessionId signal in
    if negb (hasTauriRuntime st) then
      (inr tt, with_output (delete sessionId) st)
    else
      match invokeWithFallbacks "terminal.kill" TAURI_COMMANDS_terminalKill
              [Wrapped request; Flat request] st with
      | (inr _, st') => (inr tt, with_output (delete sessionId) st')
      | (inl e, st') => (inl e, st')
      end.

End WithBackend.

Arguments state : clear implicits.

(** A backend that rejects every command with the same message. *)
Definition rejecting (message : string) (cmd : string) (a : args) (w : unit)
    : (error + response) * unit :=
  (inl (Error message), w).

(** A backend that knows only the alias names (those with a colon) and
    only the wrapped envelope. *)
Definition aliasOnly (cmd : string) (a : args) (w : unit)
    : (error + response) * unit :=
  match a with
  | Wrapped (CreateRequest _ _ _) =>
      if String.eqb cmd "terminal:create" then (inr (Created "s1" 42), w)
      else (inl (Error "unknown command"), w)
  | Wrapped _ =>
      if String.eqb cmd "terminal:kill" then (inr Void, w)
      else (inl (Error "unknown command"), w)
  | _ => (inl (Error "invalid args"), w)
  end.

End Bridge.

(** ** The pane runtime controller of [App] *)

Module App.

Inductive TerminalStatus := idle | running | success | error.

(** The texts [updatePane] stores in [outputPreview]. *)
Inductive preview :=
| WaitingForSession            (* "Waiting for terminal session." *)
| SessionReady (sessionId : string)
| CreateFailed                 (* "Failed to create terminal session." *)
| InputWriteFailed             (* "Terminal input write failed." *)
| ProcessExited (exitCode : Z)
| Text (s : string).

Record TerminalPane := Pane {
  id : string;
  sessionId : option string;
  status : TerminalStatus;
  outputPreview : preview
}.

(** The part of a [TerminalRuntime] the session logic reads: the size
    of its terminal, and the size [fitAddon.fit()] gives it for the
    present geometry of its host element ([None]: nothing to measure,
    [fit] leaves the terminal as it is). *)
Record TerminalRuntime := Runtime {
  hostElement : nat;
  cols : Z;
  rows : Z;
  proposed : option (Z * Z)
}.

Definition fit (rt : TerminalRuntime) : TerminalRuntime :=
  match proposed rt with
  | Some (c, r) => Runtime (hostElement rt) c r (proposed rt)
  | None => rt
  end.

(** The calls the controller makes on [rendererBridge]. A
    [createTerminal] call is tagged with the pane it is made for and
    the promise it returned. *)
Inductive call :=
| CreateTerminal (paneId : string) (creation : nat) (cwd : option string) (cols rows : Z)
| ResizeTerminal (sessionId : string) (cols rows : Z)
| KillTerminal (sessionId : string)
| WriteTerminal (sessionId data : string).

(** How the promise returned by one [ensurePaneSession] call is
    determined when the call returns or is resumed. *)
Inductive ensured :=
| Existing (sessionId : string)     (* [return existing] *)
| InFlight (creation : nat)         (* settles as that creation promise does *)
| Suspended (caller : nat)          (* parked at [await waitFor(50)] *)
| RuntimeMissing (paneId : string). (* [throw new Error(...)] *)

(** The refs of the component, the promises that are pending with the
    pane id their handlers captured, the calls parked in the wait loop
    with their pane id and attempt counter, and the logs. *)
Record state := State {
  terminalPanes : list TerminalPane;
  terminalCwd : option string;
  terminalRuntimes : gmap string TerminalRuntime;
  paneSessionMap : gmap string string;
  sessionPaneMap : gmap string string;
  creatingSession : gmap string nat;
  pending : gmap nat string;
  waiting : gmap nat (string * Z);
  fresh : nat;
  settledCreations : gmap nat (Bridge.error + string);
  resumed : gmap nat ensured;
  returned : list (string * ensured);
  calls : list call
}.

Definition init (panes : list TerminalPane) (cwd : option string) : state :=
  State panes cwd ∅ ∅ ∅ ∅ ∅ ∅ 0 ∅ ∅ [] [].

Definition with_panes (f : list TerminalPane → list TerminalPane) (st : state) : state :=
  State (f (terminalPanes st)) (terminalCwd st) (terminalRuntimes st) (paneSessionMap st)
    (sessionPaneMap st) (creatingSession st) (pending st) (waiting st) (fresh st)
    (settledCreations st) (resumed st) (returned st) (calls st).

Definition with_runtimes
    (f : gmap string TerminalRuntime → gmap string TerminalRuntime) (st : state) : state :=
  State (terminalPanes st) (terminalCwd st) (f (terminalRuntimes st)) (paneSessionMap st)
    (sessionPaneMap st) (creatingSession st) (pending st) (waiting st) (fresh st)
    (settledCreations st) (resumed st) (returned st) (calls st).

Definition with_paneSession (f : gmap string string → gmap string string) (st : state) : state :=
  State (terminalPanes st) (terminalCwd st) (terminalRuntimes st) (f (paneSessionMap st))
    (sessionPaneMap st) (creatingSession st) (pending st) (waiting st) (fresh st)
    (settledCreations st) (resumed st) (returned st) (calls st).

Definition with_sessionPane (f : gmap string string → gmap string string) (st : state) : state :=
  State (terminalPanes st) (terminalCwd st) (terminalRuntimes st) (paneSessionMap st)
    (f (sessionPaneMap st)) (creatingSession st) (pending st) (waiting st) (fresh st)
    (settledCreations st) (resumed st) (returned st) (calls st).

Definition with_creating (f : gmap string nat → gmap string nat) (st : state) : state :=
  State (terminalPanes st) (terminalCwd st) (terminalRuntimes st) (paneSessionMap st)
    (sessionPaneMap st) (f (creatingSession st)) (pending st) (waiting st) (fresh st)
    (settledCreations st) (resumed st) (returned st) (calls st).

Definition with_pending (f : gmap nat string → gmap nat string) (st : state) : state :=
  State (terminalPanes st) (terminalCwd st) (terminalRuntimes st) (paneSessionMap st)
    (sessionPaneMap st) (creatingSession st) (f (pending st)) (waiting st) (fresh st)
    (settledCreations st) (resumed st) (returned st) (calls st).

Definition with_waiting (f : gmap nat (string * Z) → gmap nat (string * Z)) (st : state) : state :=
  State (terminalPanes st) (terminalCwd st) (terminalRuntimes st) (paneSessionMap st)
    (sessionPaneMap st) (creatingSession st) (pending st) (f (waiting st)) (fresh st)
    (settledCreations st) (resumed st) (returned st) (calls st).

Definition with_settled
    (f : gmap nat (Bridge.error + string) → gmap nat (Bridge.error + string)) (st : state) : state :=
  State (terminalPanes st) (terminalCwd st) (terminalRuntimes st) (paneSessionMap st)
    (sessionPaneMap st) (creatingSession st) (pending st) (waiting st) (fresh st)
    (f (settledCreations st)) (resumed st) (returned st) (calls st).

Definition with_resumed (f : gmap nat ensured → gmap nat ensured) (st : state) : state :=
  State (terminalPanes st) (terminalCwd st) (terminalRuntimes st) (paneSessionMap st)
    (sessionPaneMap st) (creatingSession st) (pending st) (waiting st) (fresh st)
    (settledCreations st) (f (resumed st)) (returned st) (calls st).

(** A fresh identifier for a promise or a parked call. *)
Definition tick (st : state) : state :=
  State (terminalPanes st) (terminalCwd st) (terminalRuntimes st) (paneSessionMap st)
    (sessionPaneMap st) (creatingSession st) (pending st) (waiting st) (S (fresh st))
    (settledCreations st) (resumed st) (returned st) (calls st).

Definition returns (paneId : string) (r : ensured) (st : state) : state :=
  State (terminalPanes st) (terminalCwd st) (terminalRuntimes st) (paneSessionMap st)
    (sessionPaneMap st) (creatingSession st) (pending st) (waiting st) (fresh st)
    (settledCreations st) (resumed st) (returned st ++ [(paneId, r)]) (calls st).

Definition issue (c : call) (st : state) : state :=
  State (terminalPanes st) (terminalCwd st) (terminalRuntimes st) (paneSessionMap st)
    (sessionPaneMap st) (creatingSession st) (pending st) (waiting st) (fresh st)
    (settledCreations st) (resumed st) (returned st) (calls st ++ [c]).

(** A string used as a condition: [""] is falsy. *)
Definition truthy (s : string) : bool := 0 <? Js.length s.

(** [map.get(key)] used as a condition or after one. *)
Definition get (m : gmap string string) (key : string) : option string :=
  match m !! key with
  | Some v => if truthy v then Some v else None
  | None => None
  end.

Definition updatePane (paneId : string) (mutator : TerminalPane → TerminalPane)
    (st : state) : state :=
  with_panes (map (λ pane, if decide (id pane = paneId) then mutator pane else pane)) st.

Definition resizePaneTerminal (paneId : string) (st : state) : state :=
  match terminalRuntimes st !! paneId with
  | None => st
  | Some runtime =>
      let runtime := fit runtime in
      let st := with_runtimes (insert paneId runtime) st in
      match get (paneSessionMap st) paneId with
      | None => st
      | Some sessionId =>
          issue (ResizeTerminal sessionId (Z.max 2 (cols runtime)) (Z.max 2 (rows runtime))) st
      end
  end.

(** The tail of [ensurePaneSession]: the [createTerminal] call with its
    handlers attached, registered as the creation in flight. *)
Definition createSession (paneId : string) (runtime : TerminalRuntime) (st : state)
    : nat * state :=
  let creation := fresh st in
  let st := issue (CreateTerminal paneId creation (terminalCwd st)
                     (Z.max 2 (cols runtime)) (Z.max 2 (rows runtime))) (tick st) in
  let st := with_pending (insert creation paneId) st in
  (creation, with_creating (insert paneId creation) st).

Definition MAX_ATTEMPTS : Z := 24.

(** [ensurePaneSession(paneId)] up to its return or its first [await]. *)
Definition ensurePaneSession (paneId : string) (st : state) : ensured * state :=
  match get (paneSessionMap st) paneId with
  | Some existing => (Existing existing, returns paneId (Existing existing) st)
  | None =>
      match creatingSession st !! paneId with
      | Some inFlight => (InFlight inFlight, returns paneId (InFlight inFlight) st)
      | None =>
          match terminalRuntimes st !! paneId with
          | Some runtime =>
              let '(creation, st) := createSession paneId runtime st in
              (InFlight creation, returns paneId (InFlight creation) st)
          | None =>
              let caller := fresh st in
              let st := with_waiting (insert caller (paneId, 0)) (tick st) in
              (Suspended caller, returns paneId (Suspended caller) st)
          end
      end
  end.

(** A parked call is resumed after its [waitFor(50)]. *)
Definition waitElapsed (caller : nat) (st : state) : state :=
  match waiting st !! caller with
  | None => st
  | Some (paneId, attempt) =>
      let st := with_waiting (delete caller) st in
      match terminalRuntimes st !! paneId with
      | Some runtime =>
          let '(creation, st) := createSession paneId runtime st in
          with_resumed (insert caller (InFlight creation)) st
      | None =>
          if attempt + 1 <? MAX_ATTEMPTS
          then with_waiting (insert caller (paneId, attempt + 1)) st
          else with_resumed (insert caller (RuntimeMissing paneId)) st
      end
  end.

(** The [then], [catch] and [finally] handlers of a creation, run when
    the [createTerminal] promise settles. *)
Definition createSettled (creation : nat) (outcome : Bridge.error + string) (st : state)
    : state :=
  match pending st !! creation with
  | None => st
  | Some paneId =>
      let st := with_settled (insert creation outcome) (with_pending (delete creation) st) in
      let st :=
        match outcome with
        | inr sessionId =>
            let st := with_paneSession (insert paneId sessionId) st in
            let st := with_sessionPane (insert sessionId paneId) st in
            let st := updatePane paneId
                        (λ pane, Pane (id pane) (Some sessionId) idle (SessionReady sessionId)) st in
            resizePaneTerminal paneId st
        | inl _ =>
            updatePane paneId (λ pane, Pane (id pane) None error CreateFailed) st
        end in
      with_creating (delete paneId) st
  end.

Definition disposePaneRuntime (paneId : string) (killSession resetPaneState : bool)
    (st : state) : state :=
  let st := with_runtimes (delete paneId) st in
  let sessionId := get (paneSessionMap st) paneId in
  let st := with_creating (delete paneId) (with_paneSession (delete paneId) st) in
  let st :=
    match sessionId with
    | Some sessionId =>
        let st := with_sessionPane (delete sessionId) st in
        if killSession then issue (KillTerminal sessionId) st else st
    | None => st
    end in
  if resetPaneState
  then updatePane paneId (λ pane, Pane (id pane) None idle WaitingForSession) st
  else st.

(** The [terminal.onData] callback of a pane. *)
Definition terminalInput (paneId data : string) (st : state) : state :=
  match get (paneSessionMap st) paneId with
  | None => st
  | Some sessionId => issue (WriteTerminal sessionId data) st
  end.

(** The rejection handler of that [writeTerminal] call. *)
Definition writeRejected (paneId : string) (st : state) : state :=
  updatePane paneId (λ pane, Pane (id pane) (sessionId pane) error InputWriteFailed) st.

(** [createPaneRuntime(paneId, hostElement)] with the runtime it built. *)
Definition createPaneRuntime (paneId : string) (runtime : TerminalRuntime) (st : state)
    : state :=
  let st := with_runtimes (insert paneId runtime) st in
  let st := resizePaneTerminal paneId st in
  (ensurePaneSession paneId st).2.

(** The listener given to [rendererBridge.onTerminalExit]. *)
Definition onTerminalExit (sessionId : string) (exitCode : Z) (st : state) : state :=
  match get (sessionPaneMap st) sessionId with
  | None => st
  | Some paneId =>
      let st := with_sessionPane (delete sessionId) st in
      let st := with_paneSession (delete paneId) st in
      let st := updatePane paneId
                  (λ pane, Pane (id pane) None
                             (if exitCode =? 0 then success else error)
                             (ProcessExited exitCode)) st in
      match terminalRuntimes st !! paneId with
      | Some _ => (ensurePaneSession paneId st).2
      | None => st
      end
  end.

(** What the event loop can run next. *)
Inductive event :=
| EnsurePaneSession (paneId : string)
| WaitElapsed (caller : nat)
| CreateSettled (creation : nat) (outcome : Bridge.error + string)
| ResizePane (paneId : string)
| TerminalInput (paneId data : string)
| WriteRejected (paneId : string)
| CreatePaneRuntime (paneId : string) (runtime : TerminalRuntime)
| DisposePaneRuntime (paneId : string) (killSession resetPaneState : bool)
| TerminalExit (sessionId : string) (exitCode : Z).

Definition step (st : state) (e : event) : state :=
  match e with
  | EnsurePaneSession paneId => (ensurePaneSession paneId st).2
  | WaitElapsed caller => waitElapsed caller st
  | CreateSettled creation outcome => createSettled creation outcome st
  | ResizePane paneId => resizePaneTerminal paneId st
  | TerminalInput paneId data => terminalInput paneId data st
  | WriteRejected paneId => writeRejected paneId st
  | CreatePaneRuntime paneId runtime => createPaneRuntime paneId runtime st
  | DisposePaneRuntime paneId k r => disposePaneRuntime paneId k r st
  | TerminalExit sessionId exitCode => onTerminalExit sessionId exitCode st
  end.

Definition run (events : list event) (st : state) : state := foldl step st events.

(** The value or error a call's promise settles with, once known. *)
Definition outcome_of (st : state) (r : ensured) : option (Bridge.error + string) :=
  let missing paneId :=
    inl (Bridge.Error ("terminal runtime missing for " +:+ paneId)) in
  match r with
  | Existing sessionId => Some (inr sessionId)
  | InFlight creation => settledCreations st !! creation
  | RuntimeMissing paneId => Some (missing paneId)
  | Suspended caller =>
      match resumed st !! caller with
      | Some (InFlight creation) => settledCreations st !! creation
      | Some (RuntimeMissing paneId) => Some (missing paneId)
      | _ => None
      end
  end.

(** The promises of the [createTerminal] calls issued for a pane. *)
Definition createCallsFor (paneId : string) (log : list call) : list nat :=
  omap (λ c, match c with
             | CreateTerminal p creation _ _ _ =>
                 if decide (p = paneId) then Some creation else None
             | _ => None
             end) log.

(** What the calls of [ensurePaneSession] for a pane returned, oldest
    first. *)
Definition returnedFor (paneId : string) (log : list (string * ensured)) : list ensured :=
  omap (λ e, if decide (e.1 = paneId) then Some e.2 else None) log.

(** The events that end the creation [creation] of pane [paneId]: its
    promise settles, or the pane is disposed. *)
Definition ends (paneId : string) (creation : nat) (e : event) : bool :=
  match e with
  | CreateSettled n _ => bool_decide (n = creation)
  | DisposePaneRuntime p _ _ => bool_decide (p = paneId)
  | _ => false
  end.

(** The sessions addressed by the [writeTerminal] and [resizeTerminal]
    calls of a log. *)
Definition addressed (log : list call) : list string :=
  omap (λ c, match c with
             | ResizeTerminal s _ _ | WriteTerminal s _ => Some s
             | _ => None
             end) log.

End App.

(** ** The path helpers of [tauriAPI] *)

Module Path.

Definition slash : ascii := ascii_of_nat 47.
Definition backslash : ascii := ascii_of_nat 92.

(** The character class of [/[\\/]+$/]. *)
Definition is_separator (c : ascii) : bool :=
  Ascii.eqb c slash || Ascii.eqb c backslash.

(** [s.includes(c)] for a one-character [c]. *)
Fixpoint includes (c : ascii) (s : string) : bool :=
  match s with
  | EmptyString => false
  | String d rest => Ascii.eqb d c || includes c rest
  end.

(** [s.lastIndexOf(c)] for a one-character [c]: [-1] when absent. *)
Fixpoint lastIndexOf (c : ascii) (s : string) : Z :=
  match s with
  | EmptyString => -1
  | String d rest =>
      let i := lastIndexOf c rest in
      if 0 <=? i then i + 1 else if Ascii.eqb d c then 0 else -1
  end.

(** [path.replace(/[\\/]+$/, "")]: the trailing run of separators is
    removed. *)
Fixpoint stripTrailing (s : string) : string :=
  match s with
  | EmptyString => EmptyString
  | String c rest =>
      match stripTrailing rest with
      | EmptyString => if is_separator c then EmptyString else String c EmptyString
      | kept => String c kept
      end
  end.

(** [s.slice(start, end)] with both positions given: negative positions
    count from the end and both are clamped to [0 .. s.length]. *)
Definition slice2 (s : string) (start stop : Z) : string :=
  let len := Js.length s in
  let clamp i := if i <? 0 then Z.max (len + i) 0 else Z.min i len in
  let from := clamp start in
  let to := clamp stop in
  Js.take (Z.to_nat (to - from)) (Js.drop (Z.to_nat from) s).

(** [Math.max(cleaned.lastIndexOf("/"), cleaned.lastIndexOf("\\"))] *)
Definition lastSeparator (cleaned : string) : Z :=
  Z.max (lastIndexOf slash cleaned) (lastIndexOf backslash cleaned).

Definition dirname (path : Js.value) : string :=
  match path with
  | Js.Str s =>
      if Js.isNonEmptyString path then
        let cleaned := stripTrailing s in
        let idx := lastSeparator cleaned in
        if idx <=? 0 then
          if includes backslash cleaned then slice2 cleaned 0 3 else String slash EmptyString
        else slice2 cleaned 0 idx
      else EmptyString
  | _ => EmptyString
  end.

Definition basename (path : Js.value) : string :=
  match path with
  | Js.Str s =>
      if Js.isNonEmptyString path then
        let cleaned := stripTrailing s in
        let idx := lastSeparator cleaned in
        if 0 <=? idx then Js.slice cleaned (idx + 1) else cleaned
      else EmptyString
  | _ => EmptyString
  end.

(** [parts.filter((p) => isNonEmptyString(p))], kept as strings. *)
Definition nonEmptyStrings (parts : list Js.value) : list string :=
  omap (λ v, match v with
             | Js.Str s => if Js.isNonEmptyString v then Some s else None
             | _ => None
             end) parts.

(** [filtered.join("/")] *)
Fixpoint join (parts : list string) : string :=
  match parts with
  | [] => EmptyString
  | [p] => p
  | p :: rest => p +:+ String slash (join rest)
  end.

(** [s.replace(/\/{2,}/g, "/")]: every run of slashes becomes one. *)
Fixpoint collapseSlashes (s : string) : string :=
  match s with
  | EmptyString => EmptyString
  | String c rest =>
      if Ascii.eqb c slash then
        match rest with
        | String d _ =>
            if Ascii.eqb d slash then collapseSlashes rest
            else String c (collapseSlashes rest)
        | EmptyString => String c EmptyString
        end
      else String c (collapseSlashes rest)
  end.

(** [joinPath(parts)], [parts] being an array. *)
Definition joinPath (parts : list Js.value) : string :=
  match parts with
  | [] => EmptyString
  | _ =>
      match nonEmptyStrings parts with
      | [] => EmptyString
      | filtered => collapseSlashes (join filtered)
      end
  end.

(** Two slashes in a row somewhere in [s]. *)
Fixpoint doubleSlash (s : string) : bool :=
  match s with
  | EmptyString => false
  | String c rest =>
      match rest with
      | String d _ => (Ascii.eqb c slash && Ascii.eqb d slash) || doubleSlash rest
      | EmptyString => false
      end
  end.

(** A separator somewhere in [s]. *)
Definition hasSeparator (s : string) : bool :=
  includes slash s || includes backslash s.

End Path.

(** ** Task records of [rendererBridge] *)

Module Tasks.

(** A task as the backend sends it: any value may sit in any field,
    [tags] may be something else than an array ([None]), and the task
    itself may be no object at all. *)
Inductive TaskRecord :=
| NotAnObject
| Task (id title owner lane priority : Js.value) (tags : option (list Js.value)).

Record KanbanCard := Card {
  id : string;
  title : string;
  owner : string;
  lane : string;
  tags : list string;
  priority : string
}.

(** [typeof value === "string"] *)
Definition isString (v : Js.value) : bool :=
  match v with Js.Str _ => true | _ => false end.

(** [lane === "todo" || lane === "in-progress" || ...] *)
Definition isLane (v : Js.value) : bool :=
  match v with
  | Js.Str s =>
      String.eqb s "todo" || String.eqb s "in-progress" || String.eqb s "in-review"
      || String.eqb s "complete"
  | _ => false
  end.

Definition isPriority (v : Js.value) : bool :=
  match v with
  | Js.Str s => String.eqb s "p1" || String.eqb s "p2" || String.eqb s "p3"
  | _ => false
  end.

Definition isCardShape (value : TaskRecord) : bool :=
  match value with
  | NotAnObject => false
  | Task id title owner lane priority tags =>
      isString id && isString title && isString owner && isLane lane && isPriority priority
      && match tags with
         | Some tags => forallb isString tags
         | None => false
         end
  end.

Definition toTaskRecord (card : KanbanCard) : TaskRecord :=
  Task (Js.Str (id card)) (Js.Str (title card)) (Js.Str (owner card)) (Js.Str (lane card))
    (Js.Str (priority card)) (Some (map Js.Str (tags card))).

(** The string in a field that [isCardShape] found to hold one. *)
Definition text (v : Js.value) : string :=
  match v with Js.Str s => s | _ => "" end.

(** One task through [filter(isCardShape)] and the [map] after it. *)
Definition readTask (task : TaskRecord) : option KanbanCard :=
  if isCardShape task then
    match task with
    | Task id title owner lane priority (Some tags) =>
        Some (Card (text id) (text title) (text owner) (text lane)
                (map text tags) (text priority))
    | _ => None
    end
  else None.

(** [state.tasks.filter(isCardShape).map((task) => ({ ... }))] *)
Definition readTasksFromState (tasks : list TaskRecord) : list KanbanCard :=
  omap readTask tasks.

(** A card whose lane and priority are among those the bridge reads. *)
Definition readable (card : KanbanCard) : bool :=
  isLane (Js.Str (lane card)) && isPriority (Js.Str (priority card)).

End Tasks.

(** ** Helpers of the [App] component *)

Module Workbench.

Definition MAX_TERMINAL_PANES : Z := 16.

Definition terminalColumnsFor (count : Z) : Z :=
  if count <=? 1 then 1
  else if count <=? 4 then 2
  else if count <=? 9 then 3
  else 4.

(** The pane count that [handleTerminalCountChange(value)] sets. *)
Definition handleTerminalCountChange (value : Z) : Z :=
  Z.max 1 (Z.min MAX_TERMINAL_PANES value).

(** [nextRecent] of [saveWorkspaceRoot(rootPath)]; [null] and the empty
    string are falsy. *)
Definition nextRecent (rootPath : option string) (recentPaths : list string) : list string :=
  match rootPath with
  | Some root =>
      if App.truthy root
      then take 6 (root :: filter (λ item, item ≠ root) recentPaths)
      else recentPaths
  | None => recentPaths
  end.

(** A node of the file tree; a node without a [children] array is one
    with no children, which [findNodeById] treats alike. *)
#[warnings="-register-all"] Inductive FileNode := Node {
  id : string;
  name : string;
  children : list FileNode
}.

(** The [for] loop of [findNodeById], [visit] being its body. *)
Fixpoint firstFound {A B} (visit : A → option B) (nodes : list A) : option B :=
  match nodes with
  | [] => None
  | node :: rest =>
      match visit node with
      | Some found => Some found
      | None => firstFound visit rest
      end
  end.

Fixpoint visitNode (targetId : string) (node : FileNode) : option FileNode :=
  if decide (id node = targetId) then Some node
  else firstFound (visitNode targetId) (children node).

Definition findNodeById (nodes : list FileNode) (targetId : string) : option FileNode :=
  firstFound (visitNode targetId) nodes.

(** The nodes of a tree in document order: a node before its children,
    the children from first to last. *)
Fixpoint preorder (node : FileNode) : list FileNode :=
  node :: flat_map preorder (children node).

End Workbench.

(** ** The mount and unmount effects of [App] *)

Module Effects.

(** One turn of the first loop of the mount effect, for a visible pane:
    [hosts] is [terminalHostsRef], and [opened host] is the size of the
    terminal that [createPaneRuntime] opens in [host] with what
    [fitAddon.fit()] would give it. *)
Definition mountPane (hosts : gmap string nat) (opened : nat → Z * Z * option (Z * Z))
    (st : App.state) (paneId : string) : App.state :=
  match hosts !! paneId with
  | None => st
  | Some hostElement =>
      let st :=
        match App.terminalRuntimes st !! paneId with
        | Some existing =>
            if decide (App.hostElement existing = hostElement) then st
            else App.disposePaneRuntime paneId true true st
        | None => st
        end in
      match App.terminalRuntimes st !! paneId with
      | None =>
          let '(cols, rows, proposed) := opened hostElement in
          App.createPaneRuntime paneId (App.Runtime hostElement cols rows proposed) st
      | Some _ => (App.ensurePaneSession paneId (App.resizePaneTerminal paneId st)).2
      end
  end.

Definition mountVisible (hosts : gmap string nat) (opened : nat → Z * Z * option (Z * Z))
    (visible : list string) (st : App.state) : App.state :=
  foldl (mountPane hosts opened) st visible.

(** The second loop of the mount effect over [keys], the pane ids of
    [terminalRuntimesRef] in the order the map yields them. *)
Definition disposeHidden (visible keys : list string) (st : App.state) : App.state :=
  foldl (λ st paneId,
           if decide (paneId ∈ visible) then st
           else App.disposePaneRuntime paneId true true st) st keys.

(** The cleanup of the unmount effect, over the same [keys]. *)
Definition disposeAll (keys : list string) (st : App.state) : App.state :=
  foldl (λ st paneId, App.disposePaneRuntime paneId true false st) st keys.

End Effects.

(** ** Vocabulary of the statements *)



(** Two bridge states that differ at most in the backend's world and in
    the record of the attempts made on it. *)
Definition same_registries {W} (st st' : Bridge.state W) : Prop :=
  Bridge.hasTauriRuntime st' = Bridge.hasTauriRuntime st
  ∧ Bridge.terminalOutputBySession st' = Bridge.terminalOutputBySession st
  ∧ Bridge.terminalOutputListeners st' = Bridge.terminalOutputListeners st
  ∧ Bridge.terminalExitListeners st' = Bridge.terminalExitListeners st
  ∧ Bridge.delivered st' = Bridge.delivered st.

(** A [resizeTerminal] call with at least two columns and two rows. *)
Definition floored (c : App.call) : Prop :=
  match c with
  | App.ResizeTerminal _ cols rows => 2 ≤ cols ∧ 2 ≤ rows
  | _ => True
  end.

(** A pane with a mounted terminal and a bound session, as the run
    [CreatePaneRuntime "terminal-1"], [CreateSettled 0 (inr "s1")] leaves
    the maps. *)
Definition boundPane : App.state :=
  App.State [App.Pane "terminal-1" (Some "s1") App.idle (App.SessionReady "s1")] None
    {["terminal-1" := App.Runtime 0 80 24 None]}
    {["terminal-1" := "s1"]} {["s1" := "terminal-1"]} ∅ ∅ ∅ 1
    {[0%nat := inr "s1"]} ∅ [("terminal-1", App.InFlight 0)]
    [App.CreateTerminal "terminal-1" 0 None 80 24; App.ResizeTerminal "s1" 80 24].

(** Creation [n] is the registered creation in flight of pane [p]: the
    pane has no session, [n] is its marker and its only pending creation,
    and no call for the pane is parked in the wait loop. *)
Definition in_flight (p : string) (n : nat) (st : App.state) : Prop :=
  App.get (App.paneSessionMap st) p = None
  ∧ App.creatingSession st !! p = Some n
  ∧ App.pending st !! n = Some p
  ∧ (n < App.fresh st)%nat
  ∧ (∀ m, App.pending st !! m = Some p → m = n)
  ∧ (∀ c a, App.waiting st !! c ≠ Some (p, a)).

(** From [st] to [st'] no [createTerminal] call was made for pane [p],
    and every [ensurePaneSession] call for it returned creation [n]. *)
Definition deduplicated (p : string) (n : nat) (st st' : App.state) : Prop :=
  App.createCallsFor p (App.calls st') = App.createCallsFor p (App.calls st)
  ∧ ∃ k, App.returnedFor p (App.returned st')
         = App.returnedFor p (App.returned st) ++ replicate k (App.InFlight n).

(** A pane that is shown but whose terminal is not mounted yet. *)
Definition unmounted : App.state :=
  App.init [App.Pane "terminal-1" None App.idle App.WaitingForSession] None.

(** The two pane maps agree: a session bound to a pane is registered
    under that pane. *)
Definition inverse_maps (st : App.state) : Prop :=
  ∀ q s, App.paneSessionMap st !! q = Some s → App.sessionPaneMap st !! s = Some q.

(** The backend hands out session ids that are bound to no pane at the
    time a creation settles. *)
Fixpoint fresh_sessions (events : list App.event) (st : App.state) : Prop :=
  match events with
  | [] => True
  | e :: rest =>
      match e with
      | App.CreateSettled _ (inr s) => ∀ q, App.paneSessionMap st !! q ≠ Some s
      | _ => True
      end
      ∧ fresh_sessions rest (App.step st e)
  end.

(** ** Vocabulary of the further properties *)

(** Every set of a per-session store has a member and holds no listener
    twice. *)
Definition well_kept (store : gmap string (list Tauri.listener)) : Prop :=
  ∀ s set, store !! s = Some set → set ≠ [] ∧ NoDup set.

Definition tidy (st : Tauri.state) : Prop :=
  well_kept (Tauri.terminalSessionDataListeners st)
  ∧ well_kept (Tauri.terminalSessionExitListeners st)
  ∧ NoDup (Tauri.terminalDataListeners st)
  ∧ NoDup (Tauri.terminalExitListeners st).

(** The data a per-session listener was called with, in order. *)
Definition chunks_for (fn : Tauri.listener) (log : list Tauri.delivery) : list string :=
  omap (λ d, match d with
             | Tauri.DataChunk fn' data => if decide (fn' = fn) then Some data else None
             | _ => None
             end) log.

(** The output events a global listener was called with, in order. *)
Definition events_for (fn : Tauri.listener) (log : list Tauri.delivery)
    : list (string * string) :=
  omap (λ d, match d with
             | Tauri.DataEvent fn' id data =>
                 if decide (fn' = fn) then Some (id, data) else None
             | _ => None
             end) log.

(** The data of the events addressed to [sessionId], one item an event. *)
Definition data_for (sessionId : string) (events : list (string * string)) : list string :=
  omap (λ e, if decide (e.1 = sessionId) then Some e.2 else None) events.

(** The backlog as [onDataForSession] hands it over: an empty backlog
    is falsy and gives no call. *)
Definition flushed (backlog : string) : list string :=
  if decide (backlog = "") then [] else [backlog].

(** The events that set or clear the remembered working directory of
    [sessionId]: an answered [create], an exit and [destroy]. *)
Definition touches_cwd (sessionId : string) (e : Tauri.event) : bool :=
  match e with
  | Tauri.Created _ (Js.Str s) => bool_decide (s = sessionId)
  | Tauri.Exit s _ => bool_decide (s = sessionId)
  | Tauri.Destroy (Js.Str s) => bool_decide (s = sessionId)
  | _ => false
  end.

(** The session a call is made on. *)
Definition session_of (c : App.call) : option string :=
  match c with
  | App.ResizeTerminal s _ _ | App.WriteTerminal s _ | App.KillTerminal s => Some s
  | App.CreateTerminal _ _ _ _ _ => None
  end.

(** The session ids the bridge handed to the controller: the values
    the [createTerminal] promises of a run were fulfilled with. *)
Definition handed_out (events : list App.event) : list string :=
  omap (λ e, match e with
             | App.CreateSettled _ (inr s) => Some s
             | _ => None
             end) events.




(** Every session bound to a pane, and every session a call was made
    on, is among [ids]. *)
Definition knows_only (ids : list string) (st : App.state) : Prop :=
  (∀ p s, App.paneSessionMap st !! p = Some s → s ∈ ids)
  ∧ ∀ s, s ∈ omap session_of (App.calls st) → s ∈ ids.

(** What the exit handler makes of a pane. *)
Definition exited (code : Z) (pane : App.TerminalPane) : App.TerminalPane :=
  App.Pane (App.id pane) None (if code =? 0 then App.success else App.error)
    (App.ProcessExited code).

(** What happens to [rendererBridge] between two turns of the event
    loop: a terminal event arrives from the backend, or one of the three
    session calls is made and runs until its promise settles. *)
Inductive bridge_event :=
| OutputArrives (sessionId data : string)
| ExitArrives (sessionId : string) (exitCode : Z)
| WriteCalled (sessionId data : string)
| ResizeCalled (sessionId : string) (cols rows : Z)
| KillCalled (sessionId : string) (signal : option string).

Definition bridge_step {W}
    (tauriInvoke : string → Bridge.args → W → (Bridge.error + Bridge.response) * W)
    (st : Bridge.state W) (e : bridge_event) : Bridge.state W :=
  match e with
  | OutputArrives s d => Bridge.appendTerminalOutput s d st
  | ExitArrives s code => Bridge.handleTerminalExit s code st
  | WriteCalled s d => (Bridge.writeTerminal tauriInvoke s d st).2
  | ResizeCalled s cols rows => (Bridge.resizeTerminal tauriInvoke s cols rows st).2
  | KillCalled s signal => (Bridge.killTerminal tauriInvoke s signal st).2
  end.

Definition bridge_run {W}
    (tauriInvoke : string → Bridge.args → W → (Bridge.error + Bridge.response) * W)
    (events : list bridge_event) (st : Bridge.state W) : Bridge.state W :=
  foldl (bridge_step tauriInvoke) st events.

(** No stored log is longer than the limit. *)
Definition logs_bounded (log : gmap string string) : Prop :=
  ∀ s text, log !! s = Some text → Js.length text ≤ OpenspaceBridge.OUTPUT_LIMIT.

(** [keys] holds the pane id of every runtime of [st]. *)
Definition lists_runtimes (keys : list string) (st : App.state) : Prop :=
  ∀ p, is_Some (App.terminalRuntimes st !! p) → p ∈ keys.

(** A state in which two panes are mounted and bound to sessions. *)
Definition twoPanes : App.state :=
  App.run [App.CreatePaneRuntime "terminal-1" (App.Runtime 1 80 24 None);
           App.CreatePaneRuntime "terminal-2" (App.Runtime 2 80 24 None);
           App.CreateSettled 0 (inr "s1"); App.CreateSettled 1 (inr "s2")]
    (App.init [App.Pane "terminal-1" None App.idle App.WaitingForSession;
               App.Pane "terminal-2" None App.idle App.WaitingForSession] None).

(** Both disposal loops at once: the panes of [keys] that [keep] does
    not hold back are disposed of, in order, with a kill. *)
Definition disposeWhere (keep : string → bool) (resetPaneState : bool)
    (keys : list string) (st : App.state) : App.state :=
  foldl (λ st paneId,
           if keep paneId then st
           else App.disposePaneRuntime paneId true resetPaneState st) st keys.

(** The panes of [keys] that a disposal loop disposes of. *)
Definition disposed (keep : string → bool) (keys : list string) (p : string) : bool :=
  bool_decide (p ∈ keys) && negb (keep p).

(** * Properties *)

(** ** Strings *)

Lemma str_app_nil_l (s : string) : "" +:+ s = s.
Proof. reflexivity. Qed.

Lemma str_app_cons (c : ascii) (s t : string) : String c s +:+ t = String c (s +:+ t).
Proof. reflexivity. Qed.

Lemma str_app_nil_r (s : string) : s +:+ "" = s.
Proof. induction s as [|c s IH]; [done|]. by rewrite str_app_cons, IH. Qed.

Lemma str_app_assoc (s t u : string) : (s +:+ t) +:+ u = s +:+ (t +:+ u).
Proof. induction s as [|c s IH]; [done|]. by rewrite !str_app_cons, IH. Qed.

Lemma str_length_app (s t : string) :
  String.length (s +:+ t) = (String.length s + String.length t)%nat.
Proof. induction s as [|c s IH]; [done|]. rewrite str_app_cons. simpl. by rewrite IH. Qed.

Lemma str_drop_nil (n : nat) : Js.drop n "" = "".
Proof. by destruct n. Qed.

Lemma str_drop_all (n : nat) (s : string) : (String.length s ≤ n)%nat → Js.drop n s = "".
Proof.
  revert n. induction s as [|c s IH]; intros n Hn; [apply str_drop_nil|].
  destruct n as [|n]; simpl in *; [lia|]. apply IH. lia.
Qed.

Lemma str_drop_app (n : nat) (s t : string) :
  Js.drop n (s +:+ t) = Js.drop n s +:+ Js.drop (n - String.length s) t.
Proof.
  revert n. induction s as [|c s IH]; intros n.
  - rewrite str_drop_nil, !str_app_nil_l. simpl. by rewrite Nat.sub_0_r.
  - destruct n as [|n]; [done|]. rewrite str_app_cons. simpl. apply IH.
Qed.

Lemma str_drop_drop (n m : nat) (s : string) : Js.drop n (Js.drop m s) = Js.drop (m + n) s.
Proof.
  revert m. induction s as [|c s IH]; intros m; [by rewrite !str_drop_nil|].
  destruct m as [|m]; [done|]. simpl. apply IH.
Qed.

Lemma str_length_drop (n : nat) (s : string) :
  String.length (Js.drop n s) = (String.length s - n)%nat.
Proof.
  revert n. induction s as [|c s IH]; intros n; [by rewrite str_drop_nil|].
  destruct n as [|n]; [done|]. simpl. apply IH.
Qed.

Lemma str_take_drop (n : nat) (s : string) : Js.take n s +:+ Js.drop n s = s.
Proof.
  revert n. induction s as [|c s IH]; intros [|n]; try done.
  simpl. by rewrite str_app_cons, IH.
Qed.

Lemma length_lastChars (cap : nat) (s : string) :
  String.length (Js.lastChars cap s) = (String.length s `min` cap)%nat.
Proof. unfold Js.lastChars. rewrite str_length_drop. lia. Qed.

Lemma lastChars_all (cap : nat) (s : string) :
  (String.length s ≤ cap)%nat → Js.lastChars cap s = s.
Proof. intros H. unfold Js.lastChars. by replace (String.length s - cap)%nat with 0%nat by lia. Qed.

(** Trimming after every chunk keeps what trimming once at the end keeps. *)
Lemma lastChars_app (cap : nat) (s t : string) :
  Js.lastChars cap (Js.lastChars cap s +:+ t) = Js.lastChars cap (s +:+ t).
Proof.
  unfold Js.lastChars at 1 3. rewrite !str_length_app, length_lastChars, !str_drop_app.
  rewrite length_lastChars. unfold Js.lastChars. rewrite str_drop_drop.
  destruct (decide (String.length s ≤ cap)%nat) as [Hle|Hgt].
  - do 2 f_equal; lia.
  - destruct (decide (String.length t ≤ cap)%nat) as [Ht|Ht].
    + do 2 f_equal; lia.
    + rewrite !(str_drop_all _ s) by lia. do 2 f_equal; lia.
Qed.

Lemma lastChars_split (cap : nat) (s : string) :
  Js.dropped cap s +:+ Js.lastChars cap s = s.
Proof. apply str_take_drop. Qed.

(** The two trimming idioms of the source are [lastChars]. *)
Lemma slice_over_limit (limit : Z) (s : string) :
  0 ≤ limit →
  (if limit <? Js.length s then Js.slice s (Js.length s - limit) else s)
  = Js.lastChars (Z.to_nat limit) s.
Proof.
  intros Hl. unfold Js.slice, Js.length, Js.lastChars.
  destruct (Z.ltb_spec limit (Z.of_nat (String.length s))) as [Hlt|Hge].
  - destruct (Z.ltb_spec (Z.of_nat (String.length s) - limit) 0) as [?|_]; [lia|].
    f_equal. lia.
  - by replace (String.length s - Z.to_nat limit)%nat with 0%nat by lia.
Qed.

Lemma slice_negative (limit : Z) (s : string) :
  0 < limit → Js.slice s (- limit) = Js.lastChars (Z.to_nat limit) s.
Proof.
  intros Hl. unfold Js.slice, Js.length, Js.lastChars.
  destruct (Z.ltb_spec (- limit) 0) as [_|?]; [|lia]. f_equal. lia.
Qed.

Example slice_keeps_tail : Js.slice "abcdef" (-4) = "cdef" ∧ Js.slice "ab" (-4) = "ab".
Proof. split; reflexivity. Qed.

(** ** The output backlog of [tauriAPI] *)

Lemma buffer_limit_pos : 0 < Tauri.TERMINAL_BUFFER_LIMIT.
Proof. reflexivity. Qed.

Lemma emitTerminalData_listeners (s d : string) (st : Tauri.state) :
  Tauri.terminalSessionDataListeners (Tauri.emitTerminalData s d st)
  = Tauri.terminalSessionDataListeners st.
Proof. unfold Tauri.emitTerminalData. simpl. by destruct (Tauri.has_listeners _). Qed.

Lemma emitTerminalData_buffers (s d : string) (st : Tauri.state) :
  Tauri.has_listeners (Tauri.terminalSessionDataListeners st !! s) = false →
  Tauri.terminalDataBySession (Tauri.emitTerminalData s d st) !! s
  = Some (Js.lastChars (Z.to_nat Tauri.TERMINAL_BUFFER_LIMIT)
            (default "" (Tauri.terminalDataBySession st !! s) +:+ d)).
Proof.
  intros Hno. unfold Tauri.emitTerminalData. simpl. rewrite Hno. simpl.
  rewrite lookup_insert_eq. f_equal. apply slice_over_limit.
  pose proof buffer_limit_pos. lia.
Qed.

Lemma emitTerminalData_other (s s' d : string) (st : Tauri.state) :
  s' ≠ s →
  Tauri.terminalDataBySession (Tauri.emitTerminalData s' d st) !! s
  = Tauri.terminalDataBySession st !! s.
Proof.
  intros Hne. unfold Tauri.emitTerminalData. simpl.
  destruct (Tauri.has_listeners _); simpl; [done|]. by rewrite lookup_insert_ne.
Qed.

Lemma emitAll_backlog (s : string) (events : list (string * string)) (st : Tauri.state) :
  Tauri.has_listeners (Tauri.terminalSessionDataListeners st !! s) = false →
  (String.length (default "" (Tauri.terminalDataBySession st !! s))
   ≤ Z.to_nat Tauri.TERMINAL_BUFFER_LIMIT)%nat →
  default "" (Tauri.terminalDataBySession (Tauri.emitAll events st) !! s)
  = Js.lastChars (Z.to_nat Tauri.TERMINAL_BUFFER_LIMIT)
      (default "" (Tauri.terminalDataBySession st !! s) +:+ Tauri.received s events).
Proof.
  revert st. induction events as [|[s' d] events IH]; intros st Hno Hlen.
  - simpl. by rewrite str_app_nil_r, lastChars_all.
  - change (Tauri.emitAll ((s', d) :: events) st)
      with (Tauri.emitAll events (Tauri.emitTerminalData s' d st)).
    rewrite IH.
    + simpl. destruct (decide (s' = s)) as [->|Hne].
      * rewrite emitTerminalData_buffers by done. simpl.
        by rewrite lastChars_app, str_app_assoc.
      * by rewrite emitTerminalData_other.
    + by rewrite emitTerminalData_listeners.
    + destruct (decide (s' = s)) as [->|Hne].
      * rewrite emitTerminalData_buffers by done. simpl.
        rewrite length_lastChars. lia.
      * by rewrite emitTerminalData_other.
Qed.

(** ** The rolling output log of [rendererBridge] *)

Lemma appendTerminalOutput_same (s d : string) (log : gmap string string) :
  OpenspaceBridge.appendTerminalOutput s d log !! s
  = Some (Js.lastChars (Z.to_nat OpenspaceBridge.OUTPUT_LIMIT) (default "" (log !! s) +:+ d)).
Proof.
  unfold OpenspaceBridge.appendTerminalOutput. rewrite lookup_insert_eq.
  f_equal. by apply slice_negative.
Qed.

Lemma appendTerminalOutput_other (s s' d : string) (log : gmap string string) :
  s' ≠ s → OpenspaceBridge.appendTerminalOutput s' d log !! s = log !! s.
Proof. intros Hne. unfold OpenspaceBridge.appendTerminalOutput. by rewrite lookup_insert_ne. Qed.

Lemma appendAll_log (s : string) (events : list (string * string)) (log : gmap string string) :
  (String.length (default "" (log !! s)) ≤ Z.to_nat OpenspaceBridge.OUTPUT_LIMIT)%nat →
  default "" (OpenspaceBridge.appendAll events log !! s)
  = Js.lastChars (Z.to_nat OpenspaceBridge.OUTPUT_LIMIT)
      (default "" (log !! s) +:+ Tauri.received s events).
Proof.
  revert log. induction events as [|[s' d] events IH]; intros log Hlen.
  - simpl. by rewrite str_app_nil_r, lastChars_all.
  - change (OpenspaceBridge.appendAll ((s', d) :: events) log)
      with (OpenspaceBridge.appendAll events (OpenspaceBridge.appendTerminalOutput s' d log)).
    rewrite IH.
    + simpl. destruct (decide (s' = s)) as [->|Hne].
      * rewrite appendTerminalOutput_same. simpl. by rewrite lastChars_app, str_app_assoc.
      * by rewrite appendTerminalOutput_other.
    + destruct (decide (s' = s)) as [->|Hne].
      * rewrite appendTerminalOutput_same. simpl. rewrite length_lastChars. lia.
      * by rewrite appendTerminalOutput_other.
Qed.

(** The log of [rendererBridge.appendTerminalOutput] is the one above,
    whatever listeners are registered. *)
Lemma bridge_appendTerminalOutput_log {W} (s d : string) (st : Bridge.state W) :
  Bridge.terminalOutputBySession (Bridge.appendTerminalOutput s d st)
  = OpenspaceBridge.appendTerminalOutput s d (Bridge.terminalOutputBySession st).
Proof. reflexivity. Qed.

(** C2. With no per-session output listener attached to a session and
    nothing buffered for it yet, after any sequence of output events the
    stored backlog is the concatenation of the data received for the
    session cut to its most recent characters: 1048576 of them in
    [tauriAPI], 8000 in [rendererBridge].  What is left out is a prefix of
    the received data (the oldest characters), and the stored length does
    not exceed the cap. *)
Theorem backlog_keeps_most_recent
    (s : string) (events : list (string * string))
    (st : Tauri.state) (log : gmap string string) :
  Tauri.has_listeners (Tauri.terminalSessionDataListeners st !! s) = false →
  default "" (Tauri.terminalDataBySession st !! s) = "" →
  default "" (log !! s) = "" →
  let all := Tauri.received s events in
  let backlog := default "" (Tauri.terminalDataBySession (Tauri.emitAll events st) !! s) in
  let rolling := default "" (OpenspaceBridge.appendAll events log !! s) in
  (backlog = Js.lastChars (Z.to_nat Tauri.TERMINAL_BUFFER_LIMIT) all
   ∧ Js.dropped (Z.to_nat Tauri.TERMINAL_BUFFER_LIMIT) all +:+ backlog = all
   ∧ Js.length backlog = Z.min (Js.length all) 1048576)
  ∧ (rolling = Js.lastChars (Z.to_nat OpenspaceBridge.OUTPUT_LIMIT) all
     ∧ Js.dropped (Z.to_nat OpenspaceBridge.OUTPUT_LIMIT) all +:+ rolling = all
     ∧ Js.length rolling = Z.min (Js.length all) 8000).
Proof.
  intros Hno Hempty Hlog all backlog rolling.
  assert (Hb : backlog = Js.lastChars (Z.to_nat Tauri.TERMINAL_BUFFER_LIMIT) all).
  { unfold backlog. rewrite emitAll_backlog; [|done|rewrite Hempty; simpl; lia].
    by rewrite Hempty. }
  assert (Hr : rolling = Js.lastChars (Z.to_nat OpenspaceBridge.OUTPUT_LIMIT) all).
  { unfold rolling. rewrite appendAll_log; [|rewrite Hlog; simpl; lia].
    by rewrite Hlog. }
  split; (split; [done|split]).
  - rewrite Hb. apply lastChars_split.
  - rewrite Hb. unfold Js.length. rewrite length_lastChars.
    change 1048576 with Tauri.TERMINAL_BUFFER_LIMIT. pose proof buffer_limit_pos. lia.
  - rewrite Hr. apply lastChars_split.
  - rewrite Hr. unfold Js.length. rewrite length_lastChars.
    change 8000 with OpenspaceBridge.OUTPUT_LIMIT.
    assert (0 < OpenspaceBridge.OUTPUT_LIMIT) by reflexivity. lia.
Qed.

(** C2 on a run: two chunks for one session around a chunk for another. *)
Lemma backlog_keeps_most_recent_witness :
  default "" (Tauri.terminalDataBySession
                (Tauri.emitAll [("s1", "ab"); ("s2", "x"); ("s1", "cd")] Tauri.init) !! "s1")
  = Js.lastChars (Z.to_nat Tauri.TERMINAL_BUFFER_LIMIT)
      (Tauri.received "s1" [("s1", "ab"); ("s2", "x"); ("s1", "cd")]).
Proof.
  exact (proj1 (proj1 (backlog_keeps_most_recent "s1"
                         [("s1", "ab"); ("s2", "x"); ("s1", "cd")] Tauri.init ∅
                         eq_refl eq_refl eq_refl))).
Defined.

Example backlog_small_run :
  Tauri.terminalDataBySession
    (Tauri.emitAll [("s1", "ab"); ("s2", "x"); ("s1", "cd")] Tauri.init) !! "s1"
  = Some "abcd".
Proof. vm_compute. reflexivity. Qed.

(** ** Live delivery and late attachment *)



(** In [rendererBridge] there is no per-session set: every output event
    is appended to the rolling log and handed to every global listener. *)
Lemma bridge_output_logged_and_delivered {W} (s d : string) (st : Bridge.state W) :
  let st' := Bridge.appendTerminalOutput s d st in
  Bridge.terminalOutputBySession st' !! s
  = Some (Js.lastChars (Z.to_nat OpenspaceBridge.OUTPUT_LIMIT)
            (default "" (Bridge.terminalOutputBySession st !! s) +:+ d))
  ∧ Bridge.delivered st'
    = Bridge.delivered st
      ++ map (λ fn, Bridge.OutputEvent fn s d) (Bridge.terminalOutputListeners st).
Proof. split; [apply appendTerminalOutput_same|reflexivity]. Qed.

Lemma addPerSessionListener_first (s : string) (fn : Tauri.listener)
    (store : gmap string (list Tauri.listener)) :
  Tauri.has_listeners (store !! s) = false →
  Tauri.addPerSessionListener s fn store = <[s := [fn]]> store.
Proof.
  unfold Tauri.addPerSessionListener, Tauri.has_listeners.
  destruct (store !! s) as [[|fn' set]|]; try done.
Qed.

Lemma nonempty_length (s : string) : s ≠ "" → (0 <? Js.length s) = true.
Proof. destruct s; [done|]. intros _. apply Z.ltb_lt. unfold Js.length. simpl. lia. Qed.

(** C3. When a session has a non-empty backlog and no per-session output
    listener, [onDataForSession] calls the new listener once with the
    whole backlog before it returns and deletes the backlog entry, so a
    listener attached afterwards receives nothing; an output event that
    arrives while the listener is attached is handed to it and leaves no
    backlog entry; and once the listener has unsubscribed, a new event
    starts a backlog that holds the new data only. *)
Theorem late_listener_gets_backlog_once
    (s : string) (fn : Tauri.listener) (buffered : string) (st : Tauri.state) :
  Tauri.terminalDataBySession st !! s = Some buffered →
  buffered ≠ "" →
  Tauri.has_listeners (Tauri.terminalSessionDataListeners st !! s) = false →
  let st1 := Tauri.onDataForSession s fn st in
  Tauri.delivered st1 = Tauri.delivered st ++ [Tauri.DataChunk fn buffered]
  ∧ Tauri.terminalDataBySession st1 !! s = None
  ∧ (∀ fn', Tauri.delivered (Tauri.onDataForSession s fn' st1) = Tauri.delivered st1)
  ∧ (∀ d, let st2 := Tauri.emitTerminalData s d st1 in
          Tauri.delivered st2
          = Tauri.delivered st1
            ++ map (λ g, Tauri.DataEvent g s d) (Tauri.terminalDataListeners st)
            ++ [Tauri.DataChunk fn d]
          ∧ Tauri.terminalDataBySession st2 !! s = None)
  ∧ (∀ d, Tauri.terminalDataBySession
            (Tauri.emitTerminalData s d (Tauri.unsubDataForSession s fn st1)) !! s
          = Some (Js.lastChars (Z.to_nat Tauri.TERMINAL_BUFFER_LIMIT) d)).
Proof.
  intros Hbuf Hne Hfirst st1.
  assert (Hst1 : st1 = Tauri.forEach [Tauri.DataChunk fn buffered]
                         (Tauri.with_dataBySession (delete s)
                            (Tauri.with_sessionDataListeners (insert s [fn]) st))).
  { unfold st1, Tauri.onDataForSession. simpl. rewrite Hbuf, nonempty_length by done.
    unfold Tauri.with_sessionDataListeners. by rewrite addPerSessionListener_first. }
  rewrite Hst1. simpl. repeat split.
  - apply lookup_delete_eq.
  - intros fn'. unfold Tauri.onDataForSession. simpl. by rewrite lookup_delete_eq.
  - unfold Tauri.emitTerminalData. simpl. rewrite lookup_insert_eq. simpl.
    by rewrite <- app_assoc.
  - unfold Tauri.emitTerminalData. simpl. rewrite lookup_insert_eq. simpl.
    apply lookup_delete_eq.
  - intros d. rewrite emitTerminalData_buffers.
    + simpl. by rewrite lookup_delete_eq.
    + simpl. unfold Tauri.removePerSessionListener. rewrite lookup_insert_eq.
      unfold Js.set_delete. rewrite filter_cons, decide_False by (intros H; by apply H).
      simpl. by rewrite lookup_delete_eq.
Qed.

(** C3 on a run: two chunks are buffered, then a listener attaches. *)
Lemma late_listener_gets_backlog_once_witness :
  Tauri.delivered
    (Tauri.onDataForSession "s1" 7%nat
       (Tauri.emitAll [("s1", "file"); ("s1", ".txt")] Tauri.init))
  = [Tauri.DataChunk 7%nat "file.txt"].
Proof.
  refine (proj1 (late_listener_gets_backlog_once "s1" 7%nat "file.txt"
                   (Tauri.emitAll [("s1", "file"); ("s1", ".txt")] Tauri.init) _ _ _)).
  - reflexivity.
  - discriminate.
  - reflexivity.
Defined.

(** ** The delayed exit record *)













Example exit_record_consumed_in_time :
  Tauri.codes_for 5%nat
    (Tauri.delivered
       (Tauri.run [Tauri.Exit "s1" 3; Tauri.Advance 29999; Tauri.OnExitForSession "s1" 5%nat;
                   Tauri.OnExitForSession "s1" 6%nat; Tauri.Advance 1] Tauri.init))
  = [3].
Proof. vm_compute. reflexivity. Qed.

Example exit_record_expired :
  Tauri.delivered
    (Tauri.run [Tauri.Exit "s1" 3; Tauri.Advance 30000; Tauri.OnExitForSession "s1" 5%nat]
       Tauri.init)
  = [].
Proof. vm_compute. reflexivity. Qed.

(** ** Calls that name no session *)

(** C10. [write], [resize] and [destroy] of [tauriAPI.terminal] called
    with an id that is not a non-empty string, and [writeTerminal],
    [resizeTerminal] and [killTerminal] of [rendererBridge] called with
    the empty string, return with the state as it was: no backend call
    is issued and no registry changes, and the promise of the bridge
    calls is fulfilled. *)
Theorem missing_session_id_is_ignored {W}
    (tauriInvoke : string → Bridge.args → W → (Bridge.error + Bridge.response) * W)
    (id : Js.value) (data : string) (cols rows : Z) (signal : option string)
    (st : Tauri.state) (bst : Bridge.state W) :
  Js.isNonEmptyString id = false →
  (Tauri.write id data st = st
   ∧ Tauri.resize id cols rows st = st
   ∧ Tauri.destroy id st = st)
  ∧ (Bridge.writeTerminal tauriInvoke "" data bst = (inr tt, bst)
     ∧ Bridge.resizeTerminal tauriInvoke "" cols rows bst = (inr tt, bst)
     ∧ Bridge.killTerminal tauriInvoke "" signal bst = (inr tt, bst)).
Proof.
  intros Hid. split; [|done].
  unfold Tauri.write, Tauri.resize, Tauri.destroy.
  destruct id; try done. by rewrite Hid.
Qed.

Lemma missing_session_id_is_ignored_witness :
  Tauri.destroy (Js.Str "") (Tauri.emitTerminalData "" "x" Tauri.init)
  = Tauri.emitTerminalData "" "x" Tauri.init.
Proof.
  refine (proj2 (proj2 (proj1
    (missing_session_id_is_ignored (Bridge.rejecting "down") (Js.Str "") "ls" 80 24 None
       (Tauri.emitTerminalData "" "x" Tauri.init)
       (Bridge.State true tt ∅ [] [] [] []) _)))).
  reflexivity.
Defined.

Example undefined_id_is_ignored :
  Tauri.write Js.Undefined "ls" Tauri.init = Tauri.init
  ∧ Tauri.resize (Js.Number 3) 80 24 Tauri.init = Tauri.init.
Proof. split; reflexivity. Qed.

(** ** Alias fallback dispatch *)

Section Fallbacks.

Context {W : Type}.
Variable tauriInvoke : string → Bridge.args → W → (Bridge.error + Bridge.response) * W.

Abbreviation invokeCommand := (Bridge.invokeCommand tauriInvoke).
Abbreviation firstSuccess := (Bridge.firstSuccess tauriInvoke).
Abbreviation tryVariants := (Bridge.tryVariants tauriInvoke).
Abbreviation tryCommands := (Bridge.tryCommands tauriInvoke).
Abbreviation invokeWithFallbacks := (Bridge.invokeWithFallbacks tauriInvoke).

Lemma same_registries_refl (st : Bridge.state W) : same_registries st st.
Proof. by repeat split. Qed.

Lemma same_registries_trans (st1 st2 st3 : Bridge.state W) :
  same_registries st1 st2 → same_registries st2 st3 → same_registries st1 st3.
Proof.
  unfold same_registries. intros (?&?&?&?&?) (?&?&?&?&?). repeat split; congruence.
Qed.

Lemma invokeCommand_attempt (cmd : string) (a : Bridge.args) (st : Bridge.state W) :
  let r := invokeCommand cmd a st in
  Bridge.attempts r.2 = Bridge.attempts st ++ [Bridge.Attempt cmd a r.1]
  ∧ same_registries st r.2.
Proof.
  intros r. unfold r, Bridge.invokeCommand, same_registries.
  destruct (Bridge.hasTauriRuntime st); simpl; by repeat split.
Qed.

Lemma firstSuccess_app (l1 l2 : list (string * Bridge.args)) (e : Bridge.error)
    (st : Bridge.state W) :
  firstSuccess (l1 ++ l2) e st
  = match firstSuccess l1 e st with
    | (inr v, st') => (inr v, st')
    | (inl e', st') => firstSuccess l2 e' st'
    end.
Proof.
  revert e st. induction l1 as [|[cmd a] l1 IH]; intros e st; [done|].
  simpl. destruct (invokeCommand cmd a st) as [[e'|v] st']; [apply IH|done].
Qed.

Lemma tryVariants_firstSuccess (cmd : string) (argsVariants : list Bridge.args)
    (e : Bridge.error) (st : Bridge.state W) :
  tryVariants cmd argsVariants e st = firstSuccess (map (pair cmd) argsVariants) e st.
Proof.
  revert e st. induction argsVariants as [|a rest IH]; intros e st; [done|].
  simpl. destruct (invokeCommand cmd a st) as [[e'|v] st']; [apply IH|done].
Qed.

(** The nested loops of the source visit the combinations in the order
    of the flat priority list. *)
Lemma tryCommands_firstSuccess (commands : list string) (argsVariants : list Bridge.args)
    (e : Bridge.error) (st : Bridge.state W) :
  tryCommands commands argsVariants e st
  = firstSuccess (Bridge.combinations commands argsVariants) e st.
Proof.
  revert e st. induction commands as [|cmd rest IH]; intros e st; [done|].
  simpl. rewrite firstSuccess_app, tryVariants_firstSuccess.
  destruct (firstSuccess (map (pair cmd) argsVariants) e st) as [[e'|v] st']; [apply IH|done].
Qed.

Lemma firstSuccess_spec (combos : list (string * Bridge.args)) (e : Bridge.error)
    (st : Bridge.state W) :
  let r := firstSuccess combos e st in
  ∃ tried,
    Bridge.attempts r.2 = Bridge.attempts st ++ tried
    ∧ same_registries st r.2
    ∧ match r.1 with
      | inr v =>
          ∃ pre hit, tried = pre ++ [hit]
            ∧ map Bridge.combination tried `prefix_of` combos
            ∧ Forall Bridge.failed pre
            ∧ Bridge.answer hit = inr v
      | inl e' =>
          map Bridge.combination tried = combos
          ∧ Forall Bridge.failed tried
          ∧ (tried = [] ∧ e' = e
             ∨ ∃ pre last, tried = pre ++ [last] ∧ Bridge.answer last = inl e')
      end.
Proof.
  revert e st. induction combos as [|[cmd a] combos IH]; intros e st.
  - exists []. simpl. rewrite app_nil_r. repeat split; auto using same_registries_refl.
  - simpl. destruct (invokeCommand_attempt cmd a st) as [Hlog Hsame].
    destruct (invokeCommand cmd a st) as [[e1|v] st1] eqn:Hcall; simpl in *.
    + destruct (IH e1 st1) as (tried & Hlog' & Hsame' & Hres).
      exists (Bridge.Attempt cmd a (inl e1) :: tried).
      split; [by rewrite Hlog', Hlog, <- app_assoc|].
      split; [by eapply same_registries_trans|].
      destruct (firstSuccess combos e1 st1) as [[e'|v] st'] eqn:Hrest; simpl in *.
      * destruct Hres as (Hkeys & Hfailed & Hlast). split; [by rewrite <- Hkeys|].
        split; [by constructor|]. right.
        destruct Hlast as [[-> ->]|(pre & last & -> & Hans)].
        -- by exists [], (Bridge.Attempt cmd a (inl e1)).
        -- by exists (Bridge.Attempt cmd a (inl e1) :: pre), last.
      * destruct Hres as (pre & hit & -> & Hprefix & Hfailed & Hans).
        exists (Bridge.Attempt cmd a (inl e1) :: pre), hit.
        split; [done|]. split; [by apply prefix_cons|]. split; [by constructor|done].
    + exists [Bridge.Attempt cmd a (inr v)]. split; [done|]. split; [done|].
      exists [], (Bridge.Attempt cmd a (inr v)). split; [done|].
      split; [|by split]. by apply prefix_cons, prefix_nil.
Qed.

(** C6. [invokeWithFallbacks] tries the (name, shape) combinations in
    the order of the priority list: every shape of the first name, then
    every shape of the next.  When it returns a value, the attempts made
    are an initial part of that list, all failed but the last, and the
    value is the answer to the last: nothing after the first success is
    tried.  When it throws, every combination was tried and failed, and
    what is thrown is the error of the last attempt (or, passed through
    [??], the generic error when that one is nullish or when there is no
    combination at all).  In particular, when every shape fails under the
    canonical name and the first shape succeeds under the alias, the
    call returns the alias's answer. *)
Theorem fallbacks_first_success_or_last_error
    (action : string) (commands : list string) (argsVariants : list Bridge.args)
    (st : Bridge.state W) :
  let r := invokeWithFallbacks action commands argsVariants st in
  let combos := Bridge.combinations commands argsVariants in
  (∃ tried,
     Bridge.attempts r.2 = Bridge.attempts st ++ tried
     ∧ same_registries st r.2
     ∧ match r.1 with
       | inr v =>
           ∃ pre hit, tried = pre ++ [hit]
             ∧ map Bridge.combination tried `prefix_of` combos
             ∧ Forall Bridge.failed pre
             ∧ Bridge.answer hit = inr v
       | inl e =>
           map Bridge.combination tried = combos
           ∧ Forall Bridge.failed tried
           ∧ (tried = [] ∧ e = Bridge.Error (action +:+ " failed")
              ∨ ∃ pre last e', tried = pre ++ [last]
                  ∧ Bridge.answer last = inl e'
                  ∧ e = match e' with
                        | Bridge.Nullish => Bridge.Error (action +:+ " failed")
                        | Bridge.Error _ => e'
                        end)
       end)
  ∧ (∀ canonical alias shape shapes e1 st1 v st2,
       commands = [canonical; alias] →
       argsVariants = shape :: shapes →
       tryVariants canonical argsVariants Bridge.Nullish st = (inl e1, st1) →
       invokeCommand alias shape st1 = (inr v, st2) →
       r = (inr v, st2)).
Proof.
  intros r combos. split.
  - unfold r, Bridge.invokeWithFallbacks. rewrite tryCommands_firstSuccess.
    fold combos.
    destruct (firstSuccess_spec combos Bridge.Nullish st) as (tried & Hlog & Hsame & Hres).
    destruct (firstSuccess combos Bridge.Nullish st) as [[e|v] st'] eqn:Hrun; simpl in *.
    + exists tried. split; [done|]. split; [done|].
      destruct Hres as (Hkeys & Hfailed & Hlast). split; [done|]. split; [done|].
      destruct Hlast as [[-> ->]|(pre & last & -> & Hans)]; [by left|].
      right. exists pre, last, e. split; [done|]. split; [done|]. by destruct e.
    + by exists tried.
  - intros canonical alias shape shapes e1 st1 v st2 -> -> Hcanonical Halias.
    unfold r, Bridge.invokeWithFallbacks. cbn [Bridge.tryCommands].
    rewrite Hcanonical. cbn [Bridge.tryVariants]. by rewrite Halias.
Qed.

End Fallbacks.

(** C6 on a backend that knows the alias names only: the create call
    fails twice under [terminal_create] and succeeds under
    [terminal:create]. *)
Lemma fallbacks_first_success_or_last_error_witness :
  Bridge.invokeWithFallbacks Bridge.aliasOnly "terminal.create"
    Bridge.TAURI_COMMANDS_terminalCreate
    [Bridge.Wrapped (Bridge.CreateRequest None 120 34);
     Bridge.Flat (Bridge.CreateRequest None 120 34)]
    (Bridge.State true tt ∅ [] [] [] [])
  = (inr (Bridge.Created "s1" 42),
     Bridge.State true tt ∅ [] []
       [Bridge.Attempt "terminal_create" (Bridge.Wrapped (Bridge.CreateRequest None 120 34))
          (inl (Bridge.Error "unknown command"));
        Bridge.Attempt "terminal_create" (Bridge.Flat (Bridge.CreateRequest None 120 34))
          (inl (Bridge.Error "invalid args"));
        Bridge.Attempt "terminal:create" (Bridge.Wrapped (Bridge.CreateRequest None 120 34))
          (inr (Bridge.Created "s1" 42))] []).
Proof.
  refine (proj2 (fallbacks_first_success_or_last_error Bridge.aliasOnly "terminal.create"
                   Bridge.TAURI_COMMANDS_terminalCreate
                   [Bridge.Wrapped (Bridge.CreateRequest None 120 34);
                    Bridge.Flat (Bridge.CreateRequest None 120 34)]
                   (Bridge.State true tt ∅ [] [] [] []))
            "terminal_create" "terminal:create" _ _ (Bridge.Error "invalid args") _ _ _
            eq_refl eq_refl _ _); reflexivity.
Defined.

Example fallbacks_all_fail :
  (Bridge.invokeWithFallbacks (Bridge.rejecting "down") "terminal.kill"
     Bridge.TAURI_COMMANDS_terminalKill
     [Bridge.Wrapped (Bridge.KillRequest "s1" None); Bridge.Flat (Bridge.KillRequest "s1" None)]
     (Bridge.State true tt ∅ [] [] [] [])).1
  = inl (Bridge.Error "down")
  ∧ (Bridge.invokeWithFallbacks (Bridge.rejecting "down") "terminal.kill" [] []
       (Bridge.State true tt ∅ [] [] [] [])).1
    = inl (Bridge.Error "terminal.kill failed").
Proof. split; reflexivity. Qed.

(** ** The pane controller: what its operations leave alone *)

Lemma ensurePaneSession_frame (p : string) (st : App.state) :
  let st' := (App.ensurePaneSession p st).2 in
  App.paneSessionMap st' = App.paneSessionMap st
  ∧ App.sessionPaneMap st' = App.sessionPaneMap st
  ∧ App.terminalRuntimes st' = App.terminalRuntimes st
  ∧ ∃ new, App.calls st' = App.calls st ++ new ∧ App.addressed new = [].
Proof.
  unfold App.ensurePaneSession, App.createSession.
  destruct (App.get _ p); simpl; [by repeat split; exists []; rewrite app_nil_r|].
  destruct (App.creatingSession st !! p); simpl; [by repeat split; exists []; rewrite app_nil_r|].
  destruct (App.terminalRuntimes st !! p); simpl.
  - repeat split. by eexists [_].
  - by repeat split; exists []; rewrite app_nil_r.
Qed.

Lemma resizePaneTerminal_calls (p : string) (st : App.state) :
  App.calls (App.resizePaneTerminal p st)
  = match App.terminalRuntimes st !! p, App.get (App.paneSessionMap st) p with
    | Some runtime, Some sessionId =>
        App.calls st
        ++ [App.ResizeTerminal sessionId (Z.max 2 (App.cols (App.fit runtime)))
              (Z.max 2 (App.rows (App.fit runtime)))]
    | _, _ => App.calls st
    end.
Proof.
  unfold App.resizePaneTerminal. destruct (App.terminalRuntimes st !! p); [|done].
  simpl. by destruct (App.get _ p).
Qed.

Lemma resizePaneTerminal_frame (p : string) (st : App.state) :
  let st' := App.resizePaneTerminal p st in
  App.paneSessionMap st' = App.paneSessionMap st
  ∧ App.sessionPaneMap st' = App.sessionPaneMap st
  ∧ App.creatingSession st' = App.creatingSession st
  ∧ App.pending st' = App.pending st
  ∧ App.waiting st' = App.waiting st
  ∧ App.fresh st' = App.fresh st
  ∧ App.returned st' = App.returned st
  ∧ App.settledCreations st' = App.settledCreations st.
Proof.
  unfold App.resizePaneTerminal. destruct (App.terminalRuntimes st !! p); [|done].
  simpl. by destruct (App.get _ p).
Qed.

Lemma resizePaneTerminal_floored (p : string) (st : App.state) :
  Forall floored (App.calls st) → Forall floored (App.calls (App.resizePaneTerminal p st)).
Proof.
  intros H. rewrite resizePaneTerminal_calls.
  destruct (App.terminalRuntimes st !! p); [|done]. destruct (App.get _ p); [|done].
  apply Forall_app. split; [done|]. constructor; [|done]. simpl. lia.
Qed.

Lemma ensurePaneSession_floored (p : string) (st : App.state) :
  Forall floored (App.calls st) → Forall floored (App.calls (App.ensurePaneSession p st).2).
Proof.
  intros H. unfold App.ensurePaneSession, App.createSession.
  destruct (App.get _ p); simpl; [done|].
  destruct (App.creatingSession st !! p); simpl; [done|].
  destruct (App.terminalRuntimes st !! p); simpl; [|done].
  apply Forall_app. split; [done|]. by repeat constructor.
Qed.

Lemma step_floored (e : App.event) (st : App.state) :
  Forall floored (App.calls st) → Forall floored (App.calls (App.step st e)).
Proof.
  intros H. destruct e as [p|c|n out|p|p d|p|p rt|p k r|s code]; simpl.
  - by apply ensurePaneSession_floored.
  - unfold App.waitElapsed, App.createSession.
    destruct (App.waiting st !! c) as [[p a]|]; [|done]. simpl.
    destruct (App.terminalRuntimes st !! p); simpl.
    + apply Forall_app. split; [done|]. by repeat constructor.
    + by destruct (a + 1 <? App.MAX_ATTEMPTS).
  - unfold App.createSettled. destruct (App.pending st !! n) as [p|]; [|done].
    destruct out as [e|s]; simpl; [done|]. by apply resizePaneTerminal_floored.
  - by apply resizePaneTerminal_floored.
  - unfold App.terminalInput. destruct (App.get _ p); simpl; [|done].
    apply Forall_app. split; [done|]. by repeat constructor.
  - done.
  - unfold App.createPaneRuntime. by apply ensurePaneSession_floored, resizePaneTerminal_floored.
  - unfold App.disposePaneRuntime. simpl.
    destruct (App.get _ p); simpl; destruct k, r; simpl; try done;
      apply Forall_app; split; try done; by repeat constructor.
  - unfold App.onTerminalExit. destruct (App.get _ s) as [p|]; [|done]. simpl.
    destruct (App.terminalRuntimes st !! p); [|done].
    by apply ensurePaneSession_floored.
Qed.

Lemma run_floored (events : list App.event) (st : App.state) :
  Forall floored (App.calls st) → Forall floored (App.calls (App.run events st)).
Proof.
  revert st. induction events as [|e events IH]; intros st H; [done|].
  apply IH. by apply step_floored.
Qed.

(** ** Resize requests *)

(** C9, as amended.  Every [resizeTerminal] call the pane controller makes,
    in any run from its initial state, carries at least 2 columns and 2
    rows: [resizePaneTerminal] sends the larger of 2 and the size of the
    fitted terminal.  [tauriAPI.terminal.resize] itself only replaces a
    zero by 1 and otherwise forwards the columns and rows it is given. *)
Theorem resize_is_floored_by_the_controller
    (events : list App.event) (panes : list App.TerminalPane) (cwd : option string)
    (p : string) (ast : App.state) (s : string) (cols rows : Z) (st : Tauri.state) :
  Forall floored (App.calls (App.run events (App.init panes cwd)))
  ∧ App.calls (App.resizePaneTerminal p ast)
    = match App.terminalRuntimes ast !! p, App.get (App.paneSessionMap ast) p with
      | Some runtime, Some sessionId =>
          App.calls ast
          ++ [App.ResizeTerminal sessionId (Z.max 2 (App.cols (App.fit runtime)))
                (Z.max 2 (App.rows (App.fit runtime)))]
      | _, _ => App.calls ast
      end
  ∧ Tauri.invoked (Tauri.resize (Js.Str s) cols rows st)
    = if 0 <? Js.length s
      then Tauri.invoked st
           ++ [Tauri.TerminalResize s (if cols =? 0 then 1 else cols)
                 (if rows =? 0 then 1 else rows)]
      else Tauri.invoked st.
Proof.
  split; [by apply run_floored|]. split; [apply resizePaneTerminal_calls|].
  unfold Tauri.resize. simpl. by destruct (0 <? Js.length s).
Qed.

(** C9 as stated fails on [tauriAPI.terminal.resize]: asked for one
    column and no row, it sends one column and one row. *)
Lemma resize_sends_less_than_two :
  ∃ cols rows,
    Tauri.invoked (Tauri.resize (Js.Str "s1") 1 0 Tauri.init)
    = [Tauri.TerminalResize "s1" cols rows]
    ∧ cols < 2 ∧ rows < 2.
Proof. exists 1, 1. repeat split; reflexivity. Qed.

(** ** Teardown on exit *)

Lemma get_Some (m : gmap string string) (k v : string) :
  App.get m k = Some v → m !! k = Some v.
Proof.
  unfold App.get. destruct (m !! k) as [w|]; [|done].
  destruct (App.truthy w); [|done]. by intros [= ->].
Qed.

Lemma get_nonempty (m : gmap string string) (k v : string) :
  m !! k = Some v → v ≠ "" → App.get m k = Some v.
Proof.
  intros H Hne. unfold App.get, App.truthy. by rewrite H, nonempty_length.
Qed.

Lemma onTerminalExit_maps (s : string) (code : Z) (st : App.state) :
  let st' := App.onTerminalExit s code st in
  match App.get (App.sessionPaneMap st) s with
  | Some p =>
      App.sessionPaneMap st' = delete s (App.sessionPaneMap st)
      ∧ App.paneSessionMap st' = delete p (App.paneSessionMap st)
  | None => st' = st
  end.
Proof.
  unfold App.onTerminalExit. destruct (App.get _ s) as [p|]; [|done]. simpl.
  destruct (App.terminalRuntimes st !! p); [|done].
  by destruct (ensurePaneSession_frame p
                 (App.updatePane p
                    (λ pane, App.Pane (App.id pane) None
                               (if code =? 0 then App.success else App.error)
                               (App.ProcessExited code))
                    (App.with_paneSession (delete p)
                       (App.with_sessionPane (delete s) st)))) as (-> & -> & _).
Qed.

(** The two ways a handler adds to the call log in the lemma below. *)
Ltac no_call := exists []; rewrite app_nil_r; split; [done|apply not_elem_of_nil].
Ltac one_call_to_other Hget Hunbound :=
  eexists [_]; split; [done|]; simpl;
  apply not_elem_of_cons; split; [|apply not_elem_of_nil];
  intros ->; by apply get_Some, Hunbound in Hget.

Lemma unbound_session_not_addressed (s : string) (st : App.state) :
  (∀ q, App.paneSessionMap st !! q ≠ Some s) →
  (∀ q data, ∃ new,
      App.calls (App.terminalInput q data st) = App.calls st ++ new
      ∧ s ∉ App.addressed new)
  ∧ (∀ q, ∃ new,
      App.calls (App.resizePaneTerminal q st) = App.calls st ++ new
      ∧ s ∉ App.addressed new).
Proof.
  intros Hunbound. split.
  - intros q data. unfold App.terminalInput.
    destruct (App.get _ q) as [s'|] eqn:Hget; simpl;
      [one_call_to_other Hget Hunbound|no_call].
  - intros q. rewrite resizePaneTerminal_calls.
    destruct (App.terminalRuntimes st !! q); [|no_call].
    destruct (App.get _ q) as [s'|] eqn:Hget;
      [one_call_to_other Hget Hunbound|no_call].
Qed.

Lemma step_inverse_maps (e : App.event) (st : App.state) :
  inverse_maps st → fresh_sessions [e] st → inverse_maps (App.step st e).
Proof.
  intros Hinv [Hfresh _].
  destruct e as [p|c|n out|p|p d|p|p rt|p k r|s code]; simpl.
  - destruct (ensurePaneSession_frame p st) as (Hp & Hs & _).
    unfold inverse_maps. by rewrite Hp, Hs.
  - unfold App.waitElapsed. destruct (App.waiting st !! c) as [[p a]|]; [|done].
    simpl. destruct (App.terminalRuntimes st !! p); [done|].
    by destruct (a + 1 <? App.MAX_ATTEMPTS).
  - unfold App.createSettled. destruct (App.pending st !! n) as [p|]; [|done].
    destruct out as [err|s]; [done|].
    set (st1 := App.updatePane p _ _).
    destruct (resizePaneTerminal_frame p st1) as (Hp & Hs & _).
    unfold inverse_maps. simpl. rewrite Hp, Hs. simpl.
    intros q s' Hq. rewrite lookup_insert in Hq. case_decide as Hpq.
    + injection Hq as <-. subst q. apply lookup_insert_eq.
    + rewrite lookup_insert_ne; [by apply Hinv|]. intros ->. by apply Hfresh in Hq.
  - destruct (resizePaneTerminal_frame p st) as (Hp & Hs & _).
    unfold inverse_maps. by rewrite Hp, Hs.
  - unfold App.terminalInput. by destruct (App.get _ p).
  - done.
  - unfold App.createPaneRuntime.
    set (st1 := App.with_runtimes (insert p rt) st).
    destruct (resizePaneTerminal_frame p st1) as (Hp & Hs & _).
    destruct (ensurePaneSession_frame p (App.resizePaneTerminal p st1)) as (Hp' & Hs' & _).
    unfold inverse_maps. by rewrite Hp', Hs', Hp, Hs.
  - unfold App.disposePaneRuntime. simpl.
    assert (Hframe : ∀ st1 st2 : App.state,
               App.paneSessionMap st2 = App.paneSessionMap st1 →
               App.sessionPaneMap st2 = App.sessionPaneMap st1 →
               inverse_maps st1 → inverse_maps st2).
    { intros st1 st2 H1 H2. unfold inverse_maps. by rewrite H1, H2. }
    destruct (App.get _ p) as [s|] eqn:Hget.
    + apply get_Some in Hget.
      assert (Hgoal : ∀ q s', delete p (App.paneSessionMap st) !! q = Some s' →
                        delete s (App.sessionPaneMap st) !! s' = Some q).
      { intros q s' Hq. rewrite lookup_delete in Hq. case_decide as Hpq; [done|].
        rewrite lookup_delete_ne; [by apply Hinv|].
        intros ->. apply Hinv in Hq. apply Hinv in Hget. congruence. }
      destruct k, r; exact Hgoal.
    + assert (Hgoal : ∀ q s', delete p (App.paneSessionMap st) !! q = Some s' →
                        App.sessionPaneMap st !! s' = Some q).
      { intros q s' Hq. rewrite lookup_delete in Hq. case_decide; [done|]. by apply Hinv. }
      destruct r; exact Hgoal.
  - pose proof (onTerminalExit_maps s code st) as Hexit.
    destruct (App.get _ s) as [p|] eqn:Hget; [|by rewrite Hexit].
    destruct Hexit as [Hs Hp]. apply get_Some in Hget.
    unfold inverse_maps. rewrite Hs, Hp.
    intros q s' Hq. rewrite lookup_delete in Hq. case_decide as Hpq; [done|].
    rewrite lookup_delete_ne; [by apply Hinv|].
    intros ->. apply Hinv in Hq. congruence.
Qed.

(** In every run from the initial state on which the backend's session
    ids are fresh, the pane maps agree: the first premise of the teardown
    theorem below holds throughout. *)
Lemma run_inverse_maps (events : list App.event)
    (panes : list App.TerminalPane) (cwd : option string) :
  fresh_sessions events (App.init panes cwd) →
  inverse_maps (App.run events (App.init panes cwd)).
Proof.
  assert (Hinit : inverse_maps (App.init panes cwd)) by (intros q s Hq; done).
  revert Hinit. generalize (App.init panes cwd).
  induction events as [|e events IH]; intros st Hinv Hfresh; [done|].
  destruct Hfresh as [He Hrest]. apply IH; [|done].
  apply step_inverse_maps; [done|]. by split.
Qed.


Lemma disposePaneRuntime_fields (p : string) (k r : bool) (st : App.state) :
  let st' := App.disposePaneRuntime p k r st in
  App.terminalRuntimes st' = delete p (App.terminalRuntimes st)
  ∧ App.paneSessionMap st' = delete p (App.paneSessionMap st)
  ∧ App.creatingSession st' = delete p (App.creatingSession st)
  ∧ App.calls st'
    = App.calls st
      ++ match App.get (App.paneSessionMap st) p with
         | Some s => if k then [App.KillTerminal s] else []
         | None => []
         end
  ∧ (r = false → App.terminalPanes st' = App.terminalPanes st).
Proof.
  destruct st as [panes cwd rts ps sp cr pe wa fr se re ret ca].
  unfold App.disposePaneRuntime. simpl.
  destruct (App.get ps p) as [s|]; destruct k, r; simpl; rewrite ?app_nil_r; done.
Qed.













Example boundPane_reached :
  App.run [App.CreatePaneRuntime "terminal-1" (App.Runtime 0 80 24 None);
           App.CreateSettled 0 (inr "s1")]
    (App.init [App.Pane "terminal-1" None App.idle App.WaitingForSession] None)
  = boundPane.
Proof. vm_compute. reflexivity. Qed.


Example exit_then_input_goes_to_new_session :
  omap session_of
    (App.calls
       (App.run [App.TerminalInput "terminal-1" "ls"; App.CreateSettled 1 (inr "s2");
                 App.TerminalInput "terminal-1" "pwd"; App.ResizePane "terminal-1"]
          (App.onTerminalExit "s1" 0 boundPane)))
  = ["s1"; "s2"; "s2"; "s2"].
Proof. vm_compute. reflexivity. Qed.


Example exit_respawns :
  App.createCallsFor "terminal-1" (App.calls (App.onTerminalExit "s1" 0 boundPane)) = [0; 1]%nat
  ∧ App.paneSessionMap (App.onTerminalExit "s1" 0 boundPane) !! "terminal-1" = None.
Proof. split; vm_compute; reflexivity. Qed.

(** ** Kill *)

Lemma invokeWithFallbacks_registries {W}
    (tauriInvoke : string → Bridge.args → W → (Bridge.error + Bridge.response) * W)
    (action : string) (commands : list string) (argsVariants : list Bridge.args)
    (st : Bridge.state W) :
  same_registries st
    (Bridge.invokeWithFallbacks tauriInvoke action commands argsVariants st).2.
Proof.
  unfold Bridge.invokeWithFallbacks. rewrite tryCommands_firstSuccess.
  destruct (firstSuccess_spec tauriInvoke (Bridge.combinations commands argsVariants)
              Bridge.Nullish st) as (tried & _ & Hsame & _).
  by destruct (Bridge.firstSuccess _ _ _ _) as [[e|v] st'].
Qed.

(** C8, as amended.  [tauriAPI.terminal.destroy] deletes the session's
    backlog, delayed exit record and working directory and
    [disposePaneRuntime] deletes the pane's session mapping and creation
    marker before the kill call is issued, and nothing the call answers
    is looked at: they are forgotten whether it succeeds or fails.
    [rendererBridge.killTerminal] deletes the session's output log only
    when the remote kill succeeds (or no backend is present); when the
    kill fails the log is left as it was and the error is rethrown. *)
Theorem kill_forgets_locally {W}
    (tauriInvoke : string → Bridge.args → W → (Bridge.error + Bridge.response) * W)
    (s : string) (signal : option string) (p : string) (killSession resetPaneState : bool)
    (st : Tauri.state) (ast : App.state) (bst : Bridge.state W) :
  s ≠ "" →
  let st' := Tauri.destroy (Js.Str s) st in
  let ast' := App.disposePaneRuntime p killSession resetPaneState ast in
  let killed := Bridge.killTerminal tauriInvoke s signal bst in
  (Tauri.terminalDataBySession st' !! s = None
   ∧ Tauri.terminalExitBySession st' !! s = None
   ∧ Tauri.terminalSessionCwd st' !! s = None
   ∧ Tauri.invoked st' = Tauri.invoked st ++ [Tauri.TerminalKill s])
  ∧ (App.paneSessionMap ast' !! p = None
     ∧ App.creatingSession ast' !! p = None
     ∧ match App.get (App.paneSessionMap ast) p with
       | Some sessionId =>
           App.sessionPaneMap ast' !! sessionId = None
           ∧ App.calls ast'
             = App.calls ast ++ (if killSession then [App.KillTerminal sessionId] else [])
       | None => App.calls ast' = App.calls ast
       end)
  ∧ match killed.1 with
    | inr _ =>
        Bridge.terminalOutputBySession killed.2
        = delete s (Bridge.terminalOutputBySession bst)
    | inl _ =>
        Bridge.terminalOutputBySession killed.2 = Bridge.terminalOutputBySession bst
    end.
Proof.
  intros Hs st' ast' killed. split; [|split].
  - unfold st', Tauri.destroy. simpl. rewrite nonempty_length by done. simpl.
    repeat split; apply lookup_delete_eq.
  - unfold ast', App.disposePaneRuntime. simpl.
    destruct (App.get _ p) as [sessionId|]; destruct killSession, resetPaneState; simpl;
      rewrite ?app_nil_r; repeat split; apply lookup_delete_eq.
  - unfold killed, Bridge.killTerminal, Bridge.falsy.
    destruct (Z.eqb_spec (Js.length s) 0) as [Hlen|_].
    { destruct s; [done|]. unfold Js.length in Hlen. simpl in Hlen. lia. }
    destruct (Bridge.hasTauriRuntime bst); simpl; [|done].
    pose proof (invokeWithFallbacks_registries tauriInvoke "terminal.kill"
                  Bridge.TAURI_COMMANDS_terminalKill
                  [Bridge.Wrapped (Bridge.KillRequest s signal);
                   Bridge.Flat (Bridge.KillRequest s signal)] bst) as (_ & Hout & _).
    destruct (Bridge.invokeWithFallbacks _ _ _ _ _) as [[e|v] bst1]; simpl in *;
      by rewrite Hout.
Qed.

Lemma kill_forgets_locally_witness :
  App.paneSessionMap (App.disposePaneRuntime "terminal-1" true true boundPane) !! "terminal-1"
  = None
  ∧ App.calls (App.disposePaneRuntime "terminal-1" true true boundPane)
    = App.calls boundPane ++ [App.KillTerminal "s1"].
Proof.
  pose proof (kill_forgets_locally (Bridge.rejecting "no such session") "s1" None
                "terminal-1" true true Tauri.init boundPane
                (Bridge.State true tt {["s1" := "abc"]} [] [] [] [])) as H.
  destruct H as (_ & (Hmap & _ & Hcalls) & _); [discriminate|].
  split; [exact Hmap|]. exact (proj2 Hcalls).
Defined.

(** C8 as stated fails on [rendererBridge.killTerminal]: when the backend
    rejects the kill under every name and shape, the session's output log
    is still there afterwards. *)
Lemma failed_kill_keeps_output_log :
  (Bridge.killTerminal (Bridge.rejecting "no such session") "s1" None
     (Bridge.State true tt {["s1" := "abc"]} [] [] [] [])).1
  = inl (Bridge.Error "no such session")
  ∧ Bridge.terminalOutputBySession
      (Bridge.killTerminal (Bridge.rejecting "no such session") "s1" None
         (Bridge.State true tt {["s1" := "abc"]} [] [] [] [])).2 !! "s1"
    = Some "abc".
Proof. split; reflexivity. Qed.

(** ** De-duplication of session creation *)

Lemma get_delete_None (m : gmap string string) (k k' : string) :
  App.get m k = None → App.get (delete k' m) k = None.
Proof.
  unfold App.get. rewrite lookup_delete. case_decide; [done|]. done.
Qed.

Lemma get_insert_ne (m : gmap string string) (k k' v : string) :
  k' ≠ k → App.get (<[k' := v]> m) k = App.get m k.
Proof. intros Hne. unfold App.get. by rewrite lookup_insert_ne. Qed.

Lemma deduplicated_refl (p : string) (n : nat) (st : App.state) : deduplicated p n st st.
Proof. split; [done|]. exists 0%nat. by rewrite app_nil_r. Qed.

Lemma deduplicated_trans (p : string) (n : nat) (st1 st2 st3 : App.state) :
  deduplicated p n st1 st2 → deduplicated p n st2 st3 → deduplicated p n st1 st3.
Proof.
  intros [Hc1 [k1 Hr1]] [Hc2 [k2 Hr2]]. split; [congruence|].
  exists (k1 + k2)%nat. by rewrite Hr2, Hr1, replicate_add, app_assoc.
Qed.

Lemma deduplicated_frame (p : string) (n : nat) (st st' : App.state) :
  App.calls st' = App.calls st → App.returned st' = App.returned st →
  deduplicated p n st st'.
Proof. intros Hc Hr. unfold deduplicated. rewrite Hc, Hr. apply deduplicated_refl. Qed.

Lemma in_flight_frame (p : string) (n : nat) (st st' : App.state) :
  App.paneSessionMap st' = App.paneSessionMap st →
  App.creatingSession st' = App.creatingSession st →
  App.pending st' = App.pending st →
  App.fresh st' = App.fresh st →
  App.waiting st' = App.waiting st →
  in_flight p n st → in_flight p n st'.
Proof. unfold in_flight. by intros -> -> -> -> ->. Qed.

Lemma createSession_other (p q : string) (n : nat) (rt : App.TerminalRuntime) (st : App.state) :
  q ≠ p → in_flight p n st →
  let st' := (App.createSession q rt st).2 in
  in_flight p n st'
  ∧ App.createCallsFor p (App.calls st') = App.createCallsFor p (App.calls st)
  ∧ App.returned st' = App.returned st.
Proof.
  intros Hne (Hget & Hmark & Hpend & Hfresh & Honly & Hwait). simpl.
  split; [|split; [|done]].
  - repeat split; simpl; try done.
    + by rewrite lookup_insert_ne.
    + rewrite lookup_insert_ne; [done|lia].
    + lia.
    + intros m Hm. rewrite lookup_insert in Hm. case_decide; [congruence|by apply Honly].
  - unfold App.createCallsFor. rewrite omap_app. simpl.
    rewrite decide_False by done. by rewrite app_nil_r.
Qed.

Lemma returnedFor_snoc (p q : string) (r : App.ensured) (log : list (string * App.ensured)) :
  App.returnedFor p (log ++ [(q, r)])
  = App.returnedFor p log ++ (if decide (q = p) then [r] else []).
Proof.
  unfold App.returnedFor. rewrite omap_app. simpl. by destruct (decide (q = p)).
Qed.

Lemma returns_deduplicated (p q : string) (n : nat) (r : App.ensured) (st : App.state) :
  (q = p → r = App.InFlight n) →
  deduplicated p n st (App.returns q r st).
Proof.
  intros Hr. split; [done|]. simpl. rewrite returnedFor_snoc.
  destruct (decide (q = p)) as [Hq|Hq].
  - exists 1%nat. by rewrite (Hr Hq).
  - exists 0%nat. done.
Qed.

Lemma ensurePaneSession_in_flight (p q : string) (n : nat) (st : App.state) :
  in_flight p n st →
  in_flight p n (App.ensurePaneSession q st).2
  ∧ deduplicated p n st (App.ensurePaneSession q st).2.
Proof.
  intros Hin. pose proof Hin as (Hget & Hmark & Hpend & Hfresh & Honly & Hwait).
  unfold App.ensurePaneSession. destruct (decide (q = p)) as [->|Hne].
  - rewrite Hget, Hmark. simpl. split; [done|]. by apply returns_deduplicated.
  - destruct (App.get _ q) as [existing|].
    { simpl. split; [done|]. by apply returns_deduplicated. }
    destruct (App.creatingSession st !! q) as [inFlight|].
    { simpl. split; [done|]. by apply returns_deduplicated. }
    destruct (App.terminalRuntimes st !! q) as [rt|].
    + destruct (createSession_other p q n rt st Hne Hin) as (Hin' & Hcalls & Hret).
      destruct (App.createSession q rt st) as [creation st'] eqn:Hcreate.
      cbn [snd] in *.
      split; [by apply (in_flight_frame p n st')|].
      apply (deduplicated_trans p n st st'); [|by apply returns_deduplicated].
      split; [done|]. exists 0%nat. by rewrite Hret, app_nil_r.
    + simpl. split.
      * repeat split; simpl; try done; [lia|].
        intros c a Hc. rewrite lookup_insert in Hc. case_decide; [congruence|].
        by apply Hwait in Hc.
      * apply (deduplicated_trans p n st
                 (App.with_waiting (insert (App.fresh st) (q, 0)) (App.tick st)));
          [by apply deduplicated_frame|by apply returns_deduplicated].
Qed.

Lemma resizePaneTerminal_in_flight (p q : string) (n : nat) (st : App.state) :
  in_flight p n st →
  in_flight p n (App.resizePaneTerminal q st)
  ∧ deduplicated p n st (App.resizePaneTerminal q st).
Proof.
  intros Hin.
  destruct (resizePaneTerminal_frame q st) as (Hps & _ & Hcr & Hpe & Hwa & Hfr & Hre & _).
  split; [by apply (in_flight_frame p n st)|].
  split; [|exists 0%nat; by rewrite Hre, app_nil_r].
  rewrite resizePaneTerminal_calls.
  destruct (App.terminalRuntimes st !! q); [|done]. destruct (App.get _ q); [|done].
  unfold App.createCallsFor. rewrite omap_app. simpl. by rewrite app_nil_r.
Qed.

Lemma step_in_flight (p : string) (n : nat) (e : App.event) (st : App.state) :
  App.ends p n e = false →
  in_flight p n st →
  in_flight p n (App.step st e) ∧ deduplicated p n st (App.step st e).
Proof.
  intros Hends Hin. pose proof Hin as (Hget & Hmark & Hpend & Hfresh & Honly & Hwait).
  destruct e as [q|c|m out|q|q d|q|q rt|q k r|s code]; simpl in *.
  - by apply ensurePaneSession_in_flight.
  - unfold App.waitElapsed. destruct (App.waiting st !! c) as [[q a]|] eqn:Hc;
      [|split; [done|apply deduplicated_refl]].
    assert (Hne : q ≠ p) by (intros ->; by apply Hwait in Hc).
    set (st1 := App.with_waiting (delete c) st).
    assert (Hin1 : in_flight p n st1).
    { repeat split; try done. simpl. intros c' a' Hc'.
      rewrite lookup_delete in Hc'. case_decide; [done|]. by apply Hwait in Hc'. }
    change (App.terminalRuntimes st1) with (App.terminalRuntimes st).
    destruct (App.terminalRuntimes st !! q) as [rt|].
    + destruct (createSession_other p q n rt st1 Hne Hin1) as (Hin' & Hcalls & Hret).
      destruct (App.createSession q rt st1) as [creation st'] eqn:Hcreate.
      cbn [snd] in *.
      split; [by apply (in_flight_frame p n st')|].
      split; [done|]. exists 0%nat. simpl. by rewrite Hret, app_nil_r.
    + destruct (a + 1 <? App.MAX_ATTEMPTS).
      * split; [|by apply deduplicated_frame].
        repeat split; try done. simpl. intros c' a' Hc'.
        rewrite lookup_insert in Hc'. case_decide; [congruence|].
        rewrite lookup_delete in Hc'. case_decide; [done|]. by apply Hwait in Hc'.
      * split; [by apply (in_flight_frame p n st1)|by apply deduplicated_frame].
  - apply bool_decide_eq_false in Hends.
    unfold App.createSettled. destruct (App.pending st !! m) as [q|] eqn:Hm;
      [|split; [done|apply deduplicated_refl]].
    assert (Hne : q ≠ p) by (intros ->; by apply Honly in Hm).
    destruct out as [err|s].
    + split; [|by apply deduplicated_frame].
      repeat split; simpl; try done.
      * by rewrite lookup_delete_ne.
      * by rewrite lookup_delete_ne.
      * intros m' Hm'. rewrite lookup_delete in Hm'. case_decide; [done|]. by apply Honly.
    + set (st1 := App.updatePane q _ _).
      assert (Hin1 : in_flight p n st1).
      { repeat split; simpl; try done.
        - by rewrite get_insert_ne.
        - by rewrite lookup_delete_ne.
        - intros m' Hm'. rewrite lookup_delete in Hm'. case_decide; [done|]. by apply Honly. }
      destruct (resizePaneTerminal_in_flight p q n st1 Hin1) as [Hin2 Hded].
      pose proof Hin2 as (Hget2 & Hmark2 & Hpend2 & Hfresh2 & Honly2 & Hwait2).
      split.
      * repeat split; simpl; try done. by rewrite lookup_delete_ne.
      * eapply deduplicated_trans; [|apply Hded]. by apply deduplicated_frame.
  - by apply resizePaneTerminal_in_flight.
  - unfold App.terminalInput. destruct (App.get _ q); [|split; [done|apply deduplicated_refl]].
    split; [done|]. split; [|exists 0%nat; by rewrite app_nil_r].
    simpl. unfold App.createCallsFor. rewrite omap_app. simpl. by rewrite app_nil_r.
  - split; [done|by apply deduplicated_frame].
  - unfold App.createPaneRuntime.
    set (st1 := App.with_runtimes (insert q rt) st).
    assert (Hin1 : in_flight p n st1) by done.
    destruct (resizePaneTerminal_in_flight p q n st1 Hin1) as [Hin2 Hded2].
    destruct (ensurePaneSession_in_flight p q n _ Hin2) as [Hin3 Hded3].
    split; [done|]. eapply deduplicated_trans; [|apply Hded3].
    eapply deduplicated_trans; [|apply Hded2]. by apply deduplicated_frame.
  - apply bool_decide_eq_false in Hends.
    unfold App.disposePaneRuntime. simpl.
    assert (Hcalls : ∀ c l, (∀ q' n' w c' r', c ≠ App.CreateTerminal q' n' w c' r') →
                       App.createCallsFor p (l ++ [c]) = App.createCallsFor p l).
    { intros c l Hc. unfold App.createCallsFor. rewrite omap_app. simpl.
      destruct c; try by rewrite app_nil_r. by edestruct Hc. }
    destruct (App.get _ q) as [s|]; destruct k, r; simpl;
      (split; [repeat split; simpl; try done;
               [by apply get_delete_None|by rewrite lookup_delete_ne]|]);
      (split; [simpl; by rewrite ?Hcalls|exists 0%nat; by rewrite app_nil_r]).
  - unfold App.onTerminalExit. destruct (App.get _ s) as [q|];
      [|split; [done|apply deduplicated_refl]].
    set (st1 := App.updatePane q _ _).
    assert (Hin1 : in_flight p n st1).
    { repeat split; simpl; try done. by apply get_delete_None. }
    change (App.terminalRuntimes st1) with (App.terminalRuntimes st).
    destruct (App.terminalRuntimes st !! q).
    + destruct (ensurePaneSession_in_flight p q n st1 Hin1) as [Hin2 Hded].
      split; [done|]. eapply deduplicated_trans; [|apply Hded]. by apply deduplicated_frame.
    + split; [done|by apply deduplicated_frame].
Qed.

Lemma run_in_flight (p : string) (n : nat) (events : list App.event) (st : App.state) :
  Forall (λ e, App.ends p n e = false) events →
  in_flight p n st →
  in_flight p n (App.run events st) ∧ deduplicated p n st (App.run events st).
Proof.
  revert st. induction events as [|e events IH]; intros st Hquiet Hin.
  - split; [done|apply deduplicated_refl].
  - apply Forall_cons in Hquiet as [He Hquiet].
    destruct (step_in_flight p n e st He Hin) as [Hin1 Hded1].
    destruct (IH (App.step st e) Hquiet Hin1) as [Hin2 Hded2].
    split; [done|]. by eapply deduplicated_trans.
Qed.

Lemma createCallsFor_snoc (p : string) (c : App.call) (log : list App.call) :
  App.createCallsFor p (log ++ [c])
  = App.createCallsFor p log
    ++ match c with
       | App.CreateTerminal q n _ _ _ => if decide (q = p) then [n] else []
       | _ => []
       end.
Proof.
  unfold App.createCallsFor. rewrite omap_app. simpl.
  destruct c; try done. by destruct (decide _).
Qed.

(** A call for a pane that has a mounted terminal, no session, no
    creation pending and no parked call starts the one creation that
    later calls share. *)
Lemma first_call_registers (p : string) (rt : App.TerminalRuntime) (st : App.state) :
  App.get (App.paneSessionMap st) p = None →
  App.creatingSession st !! p = None →
  App.terminalRuntimes st !! p = Some rt →
  (∀ m, App.pending st !! m ≠ Some p) →
  (∀ c a, App.waiting st !! c ≠ Some (p, a)) →
  (App.ensurePaneSession p st).1 = App.InFlight (App.fresh st)
  ∧ in_flight p (App.fresh st) (App.ensurePaneSession p st).2
  ∧ App.createCallsFor p (App.calls (App.ensurePaneSession p st).2)
    = App.createCallsFor p (App.calls st) ++ [App.fresh st].
Proof.
  intros Hget Hmark Hrt Hpend Hwait. unfold App.ensurePaneSession.
  rewrite Hget, Hmark, Hrt. simpl. split; [done|]. split.
  - repeat split; simpl; try done.
    + apply lookup_insert_eq.
    + apply lookup_insert_eq.
    + lia.
    + intros m Hm. rewrite lookup_insert in Hm. case_decide; [done|]. by apply Hpend in Hm.
  - rewrite createCallsFor_snoc. by rewrite decide_True.
Qed.

(** While a registered creation is in flight, whatever runs in between
    short of its settling or the pane's disposal: no further create call
    is made for the pane, every call for the pane returns that creation,
    and its result is what all of them settle with. *)
Lemma registered_creation_is_shared
    (p : string) (n : nat) (events : list App.event) (st : App.state)
    (outcome : Bridge.error + string) :
  in_flight p n st →
  Forall (λ e, App.ends p n e = false) events →
  deduplicated p n st (App.run events st)
  ∧ App.outcome_of (App.createSettled n outcome (App.run events st)) (App.InFlight n)
    = Some outcome.
Proof.
  intros Hin Hquiet. destruct (run_in_flight p n events st Hquiet Hin) as [Hin' Hded].
  split; [done|]. destruct Hin' as (_ & _ & Hpend & _).
  unfold App.createSettled. rewrite Hpend. simpl. destruct outcome as [e|s]; simpl.
  - apply lookup_insert_eq.
  - set (st1 := App.updatePane p _ _).
    destruct (resizePaneTerminal_frame p st1) as (_ & _ & _ & _ & _ & _ & _ & ->).
    apply lookup_insert_eq.
Qed.

Example overlapping_calls_share_creation :
  App.returnedFor "terminal-1"
    (App.returned
       (App.run [App.CreatePaneRuntime "terminal-1" (App.Runtime 0 80 24 None);
                 App.EnsurePaneSession "terminal-1"; App.ResizePane "terminal-1";
                 App.EnsurePaneSession "terminal-1"] unmounted))
  = [App.InFlight 0; App.InFlight 0; App.InFlight 0]
  ∧ App.createCallsFor "terminal-1"
      (App.calls
         (App.run [App.CreatePaneRuntime "terminal-1" (App.Runtime 0 80 24 None);
                   App.EnsurePaneSession "terminal-1"; App.ResizePane "terminal-1";
                   App.EnsurePaneSession "terminal-1"] unmounted))
    = [0%nat].
Proof. split; vm_compute; reflexivity. Qed.

(** C1 fails on a call that is parked in the wait loop.  A call made
    before the pane's terminal is mounted waits for the runtime; the mount
    makes its own call, which starts creation 1; a further call shares
    it; then the parked call wakes up, finds the runtime and, without
    looking at the marker again, starts creation 2, which a last call
    then shares.  Two create calls are out for the pane at once, calls
    made while a creation was in flight hold different promises, and when
    the two settle with two session ids the first session stays
    registered under the pane while the second one owns it. *)
Theorem parked_call_creates_second_session :
  let st := App.run [App.EnsurePaneSession "terminal-1";
                     App.CreatePaneRuntime "terminal-1" (App.Runtime 0 80 24 None);
                     App.EnsurePaneSession "terminal-1";
                     App.WaitElapsed 0;
                     App.EnsurePaneSession "terminal-1"] unmounted in
  let st' := App.run [App.CreateSettled 1 (inr "s1"); App.CreateSettled 2 (inr "s2")] st in
  App.returnedFor "terminal-1" (App.returned st)
  = [App.Suspended 0; App.InFlight 1; App.InFlight 1; App.InFlight 2]
  ∧ App.resumed st !! 0%nat = Some (App.InFlight 2)
  ∧ App.createCallsFor "terminal-1" (App.calls st) = [1; 2]%nat
  ∧ App.pending st = {[1%nat := "terminal-1"; 2%nat := "terminal-1"]}
  ∧ App.outcome_of st' (App.Suspended 0) = Some (inr "s2")
  ∧ App.outcome_of st' (App.InFlight 1) = Some (inr "s1")
  ∧ App.outcome_of st' (App.InFlight 2) = Some (inr "s2")
  ∧ App.paneSessionMap st' = {["terminal-1" := "s2"]}
  ∧ App.sessionPaneMap st' = {["s1" := "terminal-1"; "s2" := "terminal-1"]}.
Proof. vm_compute. repeat split; reflexivity. Qed.

(** * Further properties of the code *)

(** ** Path helpers *)

Example path_helpers_run :
  Path.dirname (Js.Str "/home/user/file.txt/") = "/home/user"
  ∧ Path.basename (Js.Str "/home/user/file.txt/") = "file.txt"
  ∧ Path.dirname (Js.Str "file.txt") = "/"
  ∧ Path.basename (Js.Str "file.txt") = "file.txt"
  ∧ Path.dirname (Js.Str "/") = "/"
  ∧ Path.basename (Js.Str "/") = ""
  ∧ Path.joinPath [Js.Str "/a/"; Js.Str ""; Js.Undefined; Js.Str "/b//c"] = "/a/b/c".
Proof. repeat split; vm_compute; reflexivity. Qed.

Lemma lastIndexOf_bound (c : ascii) (s : string) :
  -1 ≤ Path.lastIndexOf c s < Js.length s.
Proof.
  unfold Js.length. induction s as [|d rest IH]; simpl; [lia|].
  destruct (Z.leb_spec 0 (Path.lastIndexOf c rest)); [lia|].
  destruct (Ascii.eqb d c); lia.
Qed.

Lemma includes_drop_after (c : ascii) (s : string) (k : nat) :
  Path.lastIndexOf c s < Z.of_nat k → Path.includes c (Js.drop k s) = false.
Proof.
  revert k. induction s as [|d rest IH]; intros k Hk; [by destruct k|].
  simpl in Hk. destruct k as [|k].
  - simpl. destruct (Z.leb_spec 0 (Path.lastIndexOf c rest)) as [?|Hneg]; [lia|].
    destruct (Ascii.eqb d c); [lia|]. simpl. apply (IH 0%nat). lia.
  - simpl. apply IH. destruct (Z.leb_spec 0 (Path.lastIndexOf c rest)); [lia|].
    pose proof (lastIndexOf_bound c rest). lia.
Qed.

Lemma includes_lastIndexOf (c : ascii) (s : string) :
  Path.includes c s = true → 0 ≤ Path.lastIndexOf c s.
Proof.
  induction s as [|d rest IH]; simpl; [done|].
  destruct (Z.leb_spec 0 (Path.lastIndexOf c rest)) as [Hpos|Hneg]; [lia|].
  destruct (Ascii.eqb d c); simpl; [lia|]. intros Hin. apply IH in Hin. lia.
Qed.

Lemma split_at_last (c : ascii) (s : string) :
  0 ≤ Path.lastIndexOf c s →
  Js.take (Z.to_nat (Path.lastIndexOf c s)) s
  +:+ String c (Js.drop (S (Z.to_nat (Path.lastIndexOf c s))) s) = s.
Proof.
  induction s as [|d rest IH]; simpl; [lia|].
  destruct (Z.leb_spec 0 (Path.lastIndexOf c rest)) as [Hpos|Hneg].
  - intros _. replace (Z.to_nat (Path.lastIndexOf c rest + 1))
      with (S (Z.to_nat (Path.lastIndexOf c rest))) by lia.
    simpl. rewrite str_app_cons. f_equal. by apply IH.
  - destruct (Ascii.eqb_spec d c) as [->|_]; [|lia]. done.
Qed.

Lemma take_nonempty (n : nat) (s : string) :
  (0 < n)%nat → s ≠ "" → Js.take n s ≠ "".
Proof. destruct n; [lia|]. by destruct s. Qed.

Lemma length_nonempty (s : string) : 0 < Js.length s → s ≠ "".
Proof. destruct s; [unfold Js.length; simpl; lia|done]. Qed.

(** [basename] never returns a separator: what it returns is a single
    path segment (possibly empty), for every argument. *)
Theorem basename_has_no_separator (path : Js.value) :
  Path.hasSeparator (Path.basename path) = false.
Proof.
  unfold Path.basename, Path.hasSeparator.
  destruct path as [| | | |s|]; try done.
  destruct (Js.isNonEmptyString (Js.Str s)); [|done].
  set (cleaned := Path.stripTrailing s). unfold Path.lastSeparator.
  pose proof (lastIndexOf_bound Path.slash cleaned) as Hs.
  pose proof (lastIndexOf_bound Path.backslash cleaned) as Hb.
  destruct (Z.leb_spec 0 (Path.lastIndexOf Path.slash cleaned
                          `max` Path.lastIndexOf Path.backslash cleaned)) as [Hidx|Hidx].
  - unfold Js.slice.
    destruct (Z.ltb_spec (Path.lastIndexOf Path.slash cleaned
                          `max` Path.lastIndexOf Path.backslash cleaned + 1) 0); [lia|].
    rewrite !includes_drop_after; [done|lia|lia].
  - pose proof (includes_drop_after Path.slash cleaned 0) as H1.
    pose proof (includes_drop_after Path.backslash cleaned 0) as H2.
    simpl in H1, H2. rewrite H1, H2; [done|lia|lia].
Qed.

Lemma slice2_prefix (s : string) (n : Z) :
  0 ≤ n → Path.slice2 s 0 n = Js.take (Z.to_nat (n `min` Js.length s)) s.
Proof.
  intros Hn. unfold Path.slice2. simpl.
  destruct (Z.ltb_spec n 0); [lia|].
  replace (Z.to_nat (0 `min` Js.length s)) with 0%nat by (unfold Js.length; lia).
  simpl. f_equal. unfold Js.length. lia.
Qed.

Lemma slice_suffix (s : string) (n : Z) :
  0 ≤ n → Js.slice s n = Js.drop (Z.to_nat n) s.
Proof.
  intros Hn. unfold Js.slice. destruct (Z.ltb_spec n 0); [lia|].
  destruct (Z.le_gt_cases n (Js.length s)).
  - f_equal. lia.
  - unfold Js.length in *. rewrite !str_drop_all; [done|lia|lia].
Qed.

(** [dirname] of a non-empty string is never empty: a path without a
    directory part gets the root ["/"] (or its first three characters when
    it holds a backslash). *)
Theorem dirname_is_not_empty (path : Js.value) :
  Js.isNonEmptyString path = true → Path.dirname path ≠ "".
Proof.
  intros Hpath. unfold Path.dirname. destruct path as [| | | |s|]; try done.
  rewrite Hpath. set (cleaned := Path.stripTrailing s).
  pose proof (lastIndexOf_bound Path.slash cleaned) as Hs.
  pose proof (lastIndexOf_bound Path.backslash cleaned) as Hb.
  unfold Path.lastSeparator.
  destruct (Z.leb_spec (Path.lastIndexOf Path.slash cleaned
                        `max` Path.lastIndexOf Path.backslash cleaned) 0) as [Hidx|Hidx].
  - destruct (Path.includes Path.backslash cleaned) eqn:Hinc; [|done].
    apply includes_lastIndexOf in Hinc. rewrite slice2_prefix by lia.
    apply take_nonempty; [lia|]. apply length_nonempty. lia.
  - rewrite slice2_prefix by lia.
    apply take_nonempty; [lia|]. apply length_nonempty. lia.
Qed.

Lemma dirname_is_not_empty_witness : Path.dirname (Js.Str "notes.md") ≠ "".
Proof. apply (dirname_is_not_empty (Js.Str "notes.md")). reflexivity. Defined.

(** When the path, its trailing separators removed, has a separator
    after its first character, [dirname] and [basename] are the two sides
    of the last separator: joined by it they give the path back. *)
Theorem dirname_basename_recompose (s : string) :
  0 < Path.lastSeparator (Path.stripTrailing s) →
  ∃ sep, Path.is_separator sep = true
    ∧ Path.dirname (Js.Str s) +:+ String sep (Path.basename (Js.Str s))
      = Path.stripTrailing s.
Proof.
  intros Hidx. set (cleaned := Path.stripTrailing s) in *.
  pose proof (lastIndexOf_bound Path.slash cleaned) as Hs.
  pose proof (lastIndexOf_bound Path.backslash cleaned) as Hb.
  assert (Hne : Js.isNonEmptyString (Js.Str s) = true).
  { simpl. apply Z.ltb_lt. destruct s; [|unfold Js.length; simpl; lia].
    unfold cleaned, Path.lastSeparator in Hidx. simpl in Hidx. lia. }
  unfold Path.dirname, Path.basename. rewrite Hne. fold cleaned.
  destruct (Z.leb_spec (Path.lastSeparator cleaned) 0); [lia|].
  destruct (Z.leb_spec 0 (Path.lastSeparator cleaned)); [|lia].
  unfold Path.lastSeparator in *.
  rewrite slice2_prefix, slice_suffix by lia.
  destruct (Z.max_spec (Path.lastIndexOf Path.slash cleaned)
              (Path.lastIndexOf Path.backslash cleaned)) as [[Hlt Hmax]|[Hle Hmax]];
    rewrite Hmax in *.
  - exists Path.backslash. split; [done|].
    etrans; [|apply (split_at_last Path.backslash cleaned); lia].
    do 3 f_equal; lia.
  - exists Path.slash. split; [done|].
    etrans; [|apply (split_at_last Path.slash cleaned); lia].
    do 3 f_equal; lia.
Qed.

Lemma dirname_basename_recompose_witness :
  ∃ sep, Path.is_separator sep = true
    ∧ Path.dirname (Js.Str "/home/user/file.txt/")
      +:+ String sep (Path.basename (Js.Str "/home/user/file.txt/"))
      = Path.stripTrailing "/home/user/file.txt/".
Proof. apply (dirname_basename_recompose "/home/user/file.txt/"). reflexivity. Defined.

Lemma collapseSlashes_head (c : ascii) (rest : string) :
  Ascii.eqb c Path.slash = false →
  Path.collapseSlashes (String c rest) = String c (Path.collapseSlashes rest).
Proof. intros H. simpl. by rewrite H. Qed.

Lemma collapseSlashes_cons_cons (c d : ascii) (r : string) :
  Path.collapseSlashes (String c (String d r))
  = if Ascii.eqb c Path.slash then
      if Ascii.eqb d Path.slash then Path.collapseSlashes (String d r)
      else String c (Path.collapseSlashes (String d r))
    else String c (Path.collapseSlashes (String d r)).
Proof. reflexivity. Qed.

Lemma doubleSlash_cons_cons (c d : ascii) (r : string) :
  Path.doubleSlash (String c (String d r))
  = (Ascii.eqb c Path.slash && Ascii.eqb d Path.slash) || Path.doubleSlash (String d r).
Proof. reflexivity. Qed.

Lemma collapseSlashes_no_double (s : string) :
  Path.doubleSlash (Path.collapseSlashes s) = false.
Proof.
  induction s as [|c rest IH]; [done|].
  destruct rest as [|d r].
  - simpl. by destruct (Ascii.eqb c Path.slash).
  - rewrite collapseSlashes_cons_cons.
    destruct (Ascii.eqb c Path.slash) eqn:Hc, (Ascii.eqb d Path.slash) eqn:Hd; try done.
    + rewrite collapseSlashes_head in * by done.
      by rewrite doubleSlash_cons_cons, Hd, andb_false_r.
    + destruct (Path.collapseSlashes (String d r)) as [|e r'] eqn:Hrest; [done|].
      by rewrite doubleSlash_cons_cons, Hc.
    + rewrite collapseSlashes_head in * by done.
      by rewrite doubleSlash_cons_cons, Hc.
Qed.

(** [joinPath] never returns a path with two slashes in a row, whatever
    the parts hold (empty strings, values that are not strings, parts
    that begin or end with slashes). *)
Theorem joinPath_has_no_double_slash (parts : list Js.value) :
  Path.doubleSlash (Path.joinPath parts) = false.
Proof.
  unfold Path.joinPath. destruct parts as [|p parts]; [done|].
  destruct (Path.nonEmptyStrings (p :: parts)); [done|].
  apply collapseSlashes_no_double.
Qed.

(** ** Listener registries of [tauriAPI] *)

Lemma set_add_kept {A} `{EqDecision A} (x : A) (set : list A) :
  NoDup set → Js.set_add x set ≠ [] ∧ NoDup (Js.set_add x set).
Proof.
  intros Hnd. unfold Js.set_add. destruct (decide (x ∈ set)) as [Hin|Hout].
  - split; [|done]. intros ->. by apply elem_of_nil in Hin.
  - split; [by destruct set|]. apply NoDup_app. split; [done|]. split.
    + intros y Hy Hx. apply list_elem_of_singleton in Hx. by subst.
    + apply NoDup_singleton.
Qed.

Lemma addPerSessionListener_kept (s : string) (fn : Tauri.listener)
    (store : gmap string (list Tauri.listener)) :
  well_kept store → well_kept (Tauri.addPerSessionListener s fn store).
Proof.
  intros Hkept s' set. unfold Tauri.addPerSessionListener.
  destruct (store !! s) as [old|] eqn:Hold; rewrite lookup_insert;
    case_decide; try (by apply Hkept); intros [= <-].
  - apply set_add_kept. by apply (Hkept s old).
  - apply set_add_kept. apply NoDup_nil_2.
Qed.

Lemma removePerSessionListener_kept (s : string) (fn : Tauri.listener)
    (store : gmap string (list Tauri.listener)) :
  well_kept store → well_kept (Tauri.removePerSessionListener s fn store).
Proof.
  intros Hkept s' set. unfold Tauri.removePerSessionListener.
  destruct (store !! s) as [old|] eqn:Hold; [|by apply Hkept].
  destruct (Z.eqb_spec (Js.size (Js.set_delete fn old)) 0) as [Hzero|Hsome].
  - rewrite lookup_delete. case_decide; [done|by apply Hkept].
  - rewrite lookup_insert. case_decide; [|by apply Hkept]. intros [= <-]. split.
    + intros Hnil. rewrite Hnil in Hsome. by apply Hsome.
    + apply NoDup_filter. by apply (Hkept s old).
Qed.

Lemma delete_kept (s : string) (store : gmap string (list Tauri.listener)) :
  well_kept store → well_kept (delete s store).
Proof.
  intros Hkept s' set Hs'. rewrite lookup_delete in Hs'. case_decide; [done|by apply (Hkept s')].
Qed.

Ltac split_tidy := unfold tidy; simpl; split; [|split; [|split]].

Lemma step_tidy (e : Tauri.event) (st : Tauri.state) : tidy st → tidy (Tauri.step st e).
Proof.
  intros Htidy. pose proof Htidy as (Hd & He & Hgd & Hge).
  destruct e as [s' d|s' c|ms|id d|id c r|id|fn|fn|s' fn|s' fn|s' fn|s' fn|cwd id]; simpl.
  - unfold Tauri.emitTerminalData. simpl. by destruct (Tauri.has_listeners _).
  - unfold Tauri.emitTerminalExit. simpl.
    destruct (Tauri.has_listeners _); split_tidy; try done; by apply delete_kept.
  - unfold Tauri.advance. set (st' := Tauri.with_clock _ _).
    assert (Hst' : tidy st') by done. revert Hst'. generalize st'.
    induction (filter _ (Tauri.timers st)) as [|t due IH]; intros st0 Hst0; [done|].
    simpl. by apply IH.
  - unfold Tauri.write. destruct id; try done. by destruct (Js.isNonEmptyString _).
  - unfold Tauri.resize. destruct id; try done. by destruct (Js.isNonEmptyString _).
  - unfold Tauri.destroy. destruct id; try done. by destruct (Js.isNonEmptyString _).
  - split_tidy; try done. by apply set_add_kept.
  - split_tidy; try done. by apply set_add_kept.
  - unfold Tauri.onDataForSession. simpl.
    assert (Hd' := addPerSessionListener_kept s' fn _ Hd).
    destruct (Tauri.terminalDataBySession st !! s'); [|done].
    by destruct (0 <? Js.length _).
  - unfold Tauri.onExitForSession. simpl.
    assert (He' := addPerSessionListener_kept s' fn _ He).
    by destruct (Tauri.terminalExitBySession st !! s').
  - split_tidy; try done. by apply removePerSessionListener_kept.
  - split_tidy; try done. by apply removePerSessionListener_kept.
  - unfold Tauri.created. destruct id; try done. by destruct (Js.isNonEmptyString _).
Qed.

Lemma run_tidy (events : list Tauri.event) (st : Tauri.state) :
  tidy st → tidy (Tauri.run events st).
Proof.
  revert st. induction events as [|e events IH]; intros st Hst; [done|].
  apply IH. by apply step_tidy.
Qed.

Lemma init_tidy : tidy Tauri.init.
Proof. split_tidy; try apply NoDup_nil_2; by intros s set Hs. Qed.

(** In every state the module reaches, each per-session listener store
    holds no empty set: unsubscribing the last listener of a session, like
    the session's exit, removes the entry. *)
Theorem per_session_sets_are_never_empty
    (events : list Tauri.event) (s : string) (set : list Tauri.listener) :
  (Tauri.terminalSessionDataListeners (Tauri.run events Tauri.init) !! s = Some set
   ∨ Tauri.terminalSessionExitListeners (Tauri.run events Tauri.init) !! s = Some set) →
  set ≠ [].
Proof.
  destruct (run_tidy events Tauri.init init_tidy) as (Hd & He & _).
  intros [Hs|Hs]; [by apply (Hd s set)|by apply (He s set)].
Qed.

Lemma per_session_sets_are_never_empty_witness : [5%nat] ≠ [].
Proof.
  apply (per_session_sets_are_never_empty
           [Tauri.OnDataForSession "s1" 5%nat; Tauri.OnDataForSession "s1" 6%nat;
            Tauri.UnsubDataForSession "s1" 6%nat] "s1" [5%nat]).
  left. vm_compute. reflexivity.
Defined.

(** No listener is ever registered twice, in the global sets or in a
    per-session set, so an event calls each registered listener once:
    subscribing a listener that is already there changes nothing. *)
Theorem listeners_are_registered_once (events : list Tauri.event) (fn : Tauri.listener) :
  let st := Tauri.run events Tauri.init in
  NoDup (Tauri.terminalDataListeners st)
  ∧ NoDup (Tauri.terminalExitListeners st)
  ∧ (∀ s set, Tauri.terminalSessionDataListeners st !! s = Some set → NoDup set)
  ∧ (∀ s set, Tauri.terminalSessionExitListeners st !! s = Some set → NoDup set)
  ∧ Tauri.onData fn (Tauri.onData fn st) = Tauri.onData fn st
  ∧ (∀ s, Tauri.terminalSessionDataListeners
            (Tauri.onDataForSession s fn (Tauri.onDataForSession s fn st))
          = Tauri.terminalSessionDataListeners (Tauri.onDataForSession s fn st)).
Proof.
  intros st. destruct (run_tidy events Tauri.init init_tidy) as (Hd & He & Hgd & Hge).
  fold st in Hd, He, Hgd, Hge.
  assert (Hadd : ∀ l : list Tauri.listener, Js.set_add fn (Js.set_add fn l) = Js.set_add fn l).
  { intros l. unfold Js.set_add. destruct (decide (fn ∈ l)) as [Hin|Hout].
    - by rewrite decide_True.
    - rewrite decide_True; [done|]. apply elem_of_app. right. left. }
  split; [done|]. split; [done|].
  split; [intros s set Hs; by apply (Hd s set)|].
  split; [intros s set Hs; by apply (He s set)|]. split.
  - unfold Tauri.onData, Tauri.with_dataListeners. simpl. by rewrite Hadd.
  - intros s.
    assert (Hstore : ∀ st0, Tauri.terminalSessionDataListeners (Tauri.onDataForSession s fn st0)
                            = Tauri.addPerSessionListener s fn
                                (Tauri.terminalSessionDataListeners st0)).
    { intros st0. unfold Tauri.onDataForSession. simpl.
      destruct (Tauri.terminalDataBySession st0 !! s); [|done].
      by destruct (0 <? Js.length _). }
    rewrite !Hstore. unfold Tauri.addPerSessionListener.
    destruct (Tauri.terminalSessionDataListeners st !! s) as [set|];
      rewrite lookup_insert_eq, insert_insert_eq; by rewrite Hadd.
Qed.






(** ** Delivery of output *)

Lemma chunks_for_events (fn : Tauri.listener) (s d : string) (globals : list Tauri.listener) :
  chunks_for fn (map (λ g, Tauri.DataEvent g s d) globals) = [].
Proof. induction globals as [|g globals IH]; [done|]. simpl. apply IH. Qed.

Lemma events_for_chunks (fn : Tauri.listener) (d : string) (set : list Tauri.listener) :
  events_for fn (map (λ g, Tauri.DataChunk g d) set) = [].
Proof. induction set as [|g set IH]; [done|]. simpl. apply IH. Qed.

Lemma events_for_globals (fn : Tauri.listener) (s d : string) (globals : list Tauri.listener) :
  NoDup globals → fn ∈ globals →
  events_for fn (map (λ g, Tauri.DataEvent g s d) globals) = [(s, d)].
Proof.
  intros Hnd Hin. induction globals as [|g globals IH]; [by apply elem_of_nil in Hin|].
  apply NoDup_cons in Hnd as [Hg Hnd]. simpl.
  destruct (decide (g = fn)) as [->|Hne].
  - f_equal. clear IH Hin Hnd. induction globals as [|h globals IH]; [done|].
    apply not_elem_of_cons in Hg as [Hne Hg]. simpl.
    rewrite decide_False by done. by apply IH.
  - apply elem_of_cons in Hin as [->|Hin]; [done|]. by apply IH.
Qed.

(** A global output listener is called for every output event, once and
    in the order of the events, whether the event's data is handed to
    per-session listeners or buffered. *)
Theorem global_listener_sees_every_output
    (fn : Tauri.listener) (events : list (string * string)) (st : Tauri.state) :
  NoDup (Tauri.terminalDataListeners st) →
  fn ∈ Tauri.terminalDataListeners st →
  events_for fn (Tauri.delivered (Tauri.emitAll events st))
  = events_for fn (Tauri.delivered st) ++ events.
Proof.
  revert st. induction events as [|[s d] events IH]; intros st Hnd Hin.
  - simpl. by rewrite app_nil_r.
  - change (Tauri.emitAll ((s, d) :: events) st)
      with (Tauri.emitAll events (Tauri.emitTerminalData s d st)).
    assert (Hg : Tauri.terminalDataListeners (Tauri.emitTerminalData s d st)
                 = Tauri.terminalDataListeners st).
    { unfold Tauri.emitTerminalData. simpl. by destruct (Tauri.has_listeners _). }
    rewrite IH by (by rewrite Hg).
    assert (Hlog : events_for fn (Tauri.delivered (Tauri.emitTerminalData s d st))
                   = events_for fn (Tauri.delivered st) ++ [(s, d)]).
    { unfold Tauri.emitTerminalData. simpl. unfold events_for.
      destruct (Tauri.has_listeners _); simpl; rewrite ?omap_app;
        fold (events_for fn (Tauri.delivered st));
        fold (events_for fn (map (λ g, Tauri.DataEvent g s d) (Tauri.terminalDataListeners st)));
        rewrite events_for_globals by done.
      - fold (events_for fn (map (λ g, Tauri.DataChunk g d)
                               (default [] (Tauri.terminalSessionDataListeners st !! s)))).
        by rewrite events_for_chunks, app_nil_r.
      - done. }
    by rewrite Hlog, <- app_assoc.
Qed.

Lemma global_listener_sees_every_output_witness :
  events_for 1%nat
    (Tauri.delivered
       (Tauri.emitAll [("s1", "a"); ("s2", "b"); ("s1", "c")]
          (Tauri.onDataForSession "s1" 2%nat (Tauri.onData 1%nat Tauri.init))))
  = events_for 1%nat
      (Tauri.delivered (Tauri.onDataForSession "s1" 2%nat (Tauri.onData 1%nat Tauri.init)))
    ++ [("s1", "a"); ("s2", "b"); ("s1", "c")].
Proof.
  apply (global_listener_sees_every_output 1%nat [("s1", "a"); ("s2", "b"); ("s1", "c")]
           (Tauri.onDataForSession "s1" 2%nat (Tauri.onData 1%nat Tauri.init))).
  - apply NoDup_singleton.
  - left.
Defined.

Lemma chunks_for_app (fn : Tauri.listener) (l k : list Tauri.delivery) :
  chunks_for fn (l ++ k) = chunks_for fn l ++ chunks_for fn k.
Proof. apply omap_app. Qed.

Lemma chunks_for_absent (fn : Tauri.listener) (d : string) (set : list Tauri.listener) :
  fn ∉ set → chunks_for fn (map (λ g, Tauri.DataChunk g d) set) = [].
Proof.
  induction set as [|g set IH]; [done|]. intros Hout.
  apply not_elem_of_cons in Hout as [Hne Hout]. simpl.
  rewrite decide_False by done. by apply IH.
Qed.

Lemma emitTerminalData_chunks (fn : Tauri.listener) (s d : string) (st : Tauri.state) :
  chunks_for fn (Tauri.delivered (Tauri.emitTerminalData s d st))
  = chunks_for fn (Tauri.delivered st)
    ++ chunks_for fn (map (λ g, Tauri.DataChunk g d)
                        (default [] (Tauri.terminalSessionDataListeners st !! s))).
Proof.
  unfold Tauri.emitTerminalData. simpl.
  destruct (Tauri.terminalSessionDataListeners st !! s) as [[|g set]|] eqn:Hset; simpl;
    rewrite ?chunks_for_app, ?chunks_for_events, ?app_nil_r; done.
Qed.

Lemma emitAll_listeners (events : list (string * string)) (st : Tauri.state) :
  Tauri.terminalSessionDataListeners (Tauri.emitAll events st)
  = Tauri.terminalSessionDataListeners st.
Proof.
  revert st. induction events as [|[s d] events IH]; intros st; [done|].
  change (Tauri.emitAll ((s, d) :: events) st)
    with (Tauri.emitAll events (Tauri.emitTerminalData s d st)).
  by rewrite IH, emitTerminalData_listeners.
Qed.

Lemma emitAll_silent (fn : Tauri.listener) (events : list (string * string))
    (st : Tauri.state) :
  (∀ s set, Tauri.terminalSessionDataListeners st !! s = Some set → fn ∉ set) →
  chunks_for fn (Tauri.delivered (Tauri.emitAll events st))
  = chunks_for fn (Tauri.delivered st).
Proof.
  revert st. induction events as [|[s d] events IH]; intros st Hout; [done|].
  change (Tauri.emitAll ((s, d) :: events) st)
    with (Tauri.emitAll events (Tauri.emitTerminalData s d st)).
  rewrite IH by (by rewrite emitTerminalData_listeners).
  rewrite emitTerminalData_chunks, chunks_for_absent; [by rewrite app_nil_r|].
  destruct (Tauri.terminalSessionDataListeners st !! s) as [set|] eqn:Hset; simpl.
  - by apply (Hout s).
  - apply not_elem_of_nil.
Qed.

Lemma emitAll_attached (fn : Tauri.listener) (s : string)
    (events : list (string * string)) (st : Tauri.state) :
  Tauri.terminalSessionDataListeners st !! s = Some [fn] →
  (∀ s' set, s' ≠ s → Tauri.terminalSessionDataListeners st !! s' = Some set → fn ∉ set) →
  chunks_for fn (Tauri.delivered (Tauri.emitAll events st))
  = chunks_for fn (Tauri.delivered st) ++ data_for s events.
Proof.
  revert st. induction events as [|[s' d] events IH]; intros st Hset Hout.
  - simpl. by rewrite app_nil_r.
  - change (Tauri.emitAll ((s', d) :: events) st)
      with (Tauri.emitAll events (Tauri.emitTerminalData s' d st)).
    rewrite IH by (by rewrite emitTerminalData_listeners).
    rewrite emitTerminalData_chunks, <- app_assoc. f_equal.
    unfold data_for. simpl. destruct (decide (s' = s)) as [->|Hne].
    + rewrite Hset. simpl. by rewrite decide_True.
    + rewrite chunks_for_absent; [done|].
      destruct (Tauri.terminalSessionDataListeners st !! s') as [set|] eqn:Hset'; simpl.
      * by apply (Hout s').
      * apply not_elem_of_nil.
Qed.

(** A listener that attaches to a session late misses nothing but what
    the backlog limit cut off. While the session has no per-session output
    listener its output is buffered; [onDataForSession] hands the listener
    the backlog in one call (none when the backlog is empty), and from
    then on the listener is called once for every output event of the
    session, in order, and for no event of another session. *)
Theorem late_listener_misses_nothing_recent
    (fn : Tauri.listener) (s : string) (before after : list (string * string))
    (st : Tauri.state) :
  Tauri.has_listeners (Tauri.terminalSessionDataListeners st !! s) = false →
  (∀ s' set, Tauri.terminalSessionDataListeners st !! s' = Some set → fn ∉ set) →
  (String.length (default "" (Tauri.terminalDataBySession st !! s))
   ≤ Z.to_nat Tauri.TERMINAL_BUFFER_LIMIT)%nat →
  chunks_for fn
    (Tauri.delivered
       (Tauri.emitAll after (Tauri.onDataForSession s fn (Tauri.emitAll before st))))
  = chunks_for fn (Tauri.delivered st)
    ++ flushed (Js.lastChars (Z.to_nat Tauri.TERMINAL_BUFFER_LIMIT)
                  (default "" (Tauri.terminalDataBySession st !! s)
                   +:+ Tauri.received s before))
    ++ data_for s after.
Proof.
  intros Hno Hout Hlen.
  pose proof (emitAll_backlog s before st Hno Hlen) as Hbacklog.
  pose proof (emitAll_listeners before st) as Hstore.
  pose proof (emitAll_silent fn before st Hout) as Hquiet.
  set (st1 := Tauri.emitAll before st) in *.
  set (backlog := Js.lastChars _ _) in *.
  assert (Hadd : Tauri.addPerSessionListener s fn (Tauri.terminalSessionDataListeners st1)
                 = <[s := [fn]]> (Tauri.terminalSessionDataListeners st)).
  { rewrite Hstore. by apply addPerSessionListener_first. }
  assert (Hat : Tauri.terminalSessionDataListeners (Tauri.onDataForSession s fn st1)
                = <[s := [fn]]> (Tauri.terminalSessionDataListeners st)).
  { rewrite <- Hadd. unfold Tauri.onDataForSession.
    change (Tauri.terminalDataBySession (Tauri.with_sessionDataListeners _ st1))
      with (Tauri.terminalDataBySession st1).
    destruct (Tauri.terminalDataBySession st1 !! s) as [b|]; [|done].
    by destruct (0 <? Js.length b). }
  assert (Hlog : chunks_for fn (Tauri.delivered (Tauri.onDataForSession s fn st1))
                 = chunks_for fn (Tauri.delivered st) ++ flushed backlog).
  { unfold Tauri.onDataForSession. simpl. rewrite <- Hquiet. unfold flushed.
    destruct (Tauri.terminalDataBySession st1 !! s) as [b|]; simpl in Hbacklog.
    - rewrite <- Hbacklog. destruct b as [|c b]; simpl.
      + by rewrite app_nil_r.
      + replace (0 <? Js.length (String c b)) with true
          by (symmetry; apply Z.ltb_lt; unfold Js.length; simpl; lia).
        simpl. rewrite chunks_for_app. simpl. by rewrite decide_True.
    - rewrite <- Hbacklog. simpl. by rewrite app_nil_r. }
  rewrite (emitAll_attached fn s).
  - by rewrite Hlog, <- app_assoc.
  - rewrite Hat. apply lookup_insert_eq.
  - intros s' set Hne. rewrite Hat, lookup_insert_ne by done. apply Hout.
Qed.

Lemma late_listener_misses_nothing_recent_witness :
  chunks_for 7%nat
    (Tauri.delivered
       (Tauri.emitAll [("s1", "c"); ("s2", "y"); ("s1", "d")]
          (Tauri.onDataForSession "s1" 7%nat
             (Tauri.emitAll [("s1", "a"); ("s2", "x"); ("s1", "b")] Tauri.init))))
  = chunks_for 7%nat (Tauri.delivered Tauri.init)
    ++ flushed (Js.lastChars (Z.to_nat Tauri.TERMINAL_BUFFER_LIMIT)
                  (default "" (Tauri.terminalDataBySession Tauri.init !! "s1")
                   +:+ Tauri.received "s1" [("s1", "a"); ("s2", "x"); ("s1", "b")]))
    ++ data_for "s1" [("s1", "c"); ("s2", "y"); ("s1", "d")].
Proof.
  refine (late_listener_misses_nothing_recent 7%nat "s1"
            [("s1", "a"); ("s2", "x"); ("s1", "b")]
            [("s1", "c"); ("s2", "y"); ("s1", "d")] Tauri.init eq_refl _ (Nat.le_0_l _)).
  intros s' set Hset. simpl in Hset. by rewrite lookup_empty in Hset.
Defined.

(** ** The remembered working directory *)

Lemma normalizePath_nonempty (cwd : Js.value) : (0 <? Js.length (Tauri.normalizePath cwd)) = true.
Proof.
  unfold Tauri.normalizePath. destruct cwd as [| | | |s|]; try done.
  destruct (Js.isNonEmptyString (Js.Str s)) eqn:Hs; [exact Hs|done].
Qed.

Lemma step_cwd (s : string) (e : Tauri.event) (st : Tauri.state) :
  touches_cwd s e = false →
  Tauri.terminalSessionCwd (Tauri.step st e) !! s = Tauri.terminalSessionCwd st !! s.
Proof.
  intros He. destruct e as [s' d|s' code|ms|id d|id c r|id|fn|fn|s' fn|s' fn|s' fn|s' fn|cwd id];
    simpl in *.
  - unfold Tauri.emitTerminalData. simpl. by destruct (Tauri.has_listeners _).
  - apply bool_decide_eq_false in He. unfold Tauri.emitTerminalExit. simpl.
    destruct (Tauri.has_listeners _); simpl; by rewrite lookup_delete_ne.
  - unfold Tauri.advance. simpl.
    generalize (filter (λ t : Z * string, t.1 ≤ Tauri.clock st + Z.of_N ms) (Tauri.timers st)).
    set (st0 := Tauri.with_clock _ _).
    change (Tauri.terminalSessionCwd st) with (Tauri.terminalSessionCwd st0).
    generalize st0. intros st1 due. revert st1.
    induction due as [|t due IH]; intros st1; [done|]. simpl. by rewrite IH.
  - unfold Tauri.write. destruct id; try done. by destruct (Js.isNonEmptyString _).
  - unfold Tauri.resize. destruct id; try done. by destruct (Js.isNonEmptyString _).
  - unfold Tauri.destroy. destruct id as [| | | |s'|]; try done.
    apply bool_decide_eq_false in He.
    destruct (Js.isNonEmptyString _); [|done]. simpl. by rewrite lookup_delete_ne.
  - done.
  - done.
  - unfold Tauri.onDataForSession. simpl.
    destruct (Tauri.terminalDataBySession st !! s'); [|done]. by destruct (0 <? _).
  - unfold Tauri.onExitForSession. simpl.
    by destruct (Tauri.terminalExitBySession st !! s').
  - done.
  - done.
  - unfold Tauri.created. destruct id as [| | | |s'|]; try done.
    apply bool_decide_eq_false in He.
    destruct (Js.isNonEmptyString _); [|done]. simpl. by rewrite lookup_insert_ne.
Qed.

Lemma run_cwd (s : string) (events : list Tauri.event) (st : Tauri.state) :
  forallb (λ e, negb (touches_cwd s e)) events = true →
  Tauri.terminalSessionCwd (Tauri.run events st) !! s = Tauri.terminalSessionCwd st !! s.
Proof.
  revert st. induction events as [|e events IH]; intros st Hev; [done|].
  simpl in Hev. apply andb_true_iff in Hev as [He Hev].
  apply negb_true_iff in He.
  change (Tauri.run (e :: events) st) with (Tauri.run events (Tauri.step st e)).
  by rewrite IH, step_cwd.
Qed.

(** The working directory that [create] normalised and remembered for
    the session it obtained is what [getCwd] answers, through whatever
    the module does for other sessions and through output, writes,
    resizes and subscriptions of that session; once the session has
    exited or was destroyed, [getCwd] answers [null]. *)
Theorem cwd_is_remembered_until_exit_or_destroy
    (cwd : Js.value) (s : string) (events : list Tauri.event) (st : Tauri.state) :
  Js.isNonEmptyString (Js.Str s) = true →
  forallb (λ e, negb (touches_cwd s e)) events = true →
  let st' := Tauri.run events (Tauri.created cwd (Js.Str s) st) in
  Tauri.getCwd (Js.Str s) st' = Some (Tauri.normalizePath cwd)
  ∧ (∀ code, Tauri.getCwd (Js.Str s) (Tauri.emitTerminalExit s code st') = None)
  ∧ Tauri.getCwd (Js.Str s) (Tauri.destroy (Js.Str s) st') = None.
Proof.
  intros Hs Hev st'.
  assert (Hcwd : Tauri.terminalSessionCwd st' !! s = Some (Tauri.normalizePath cwd)).
  { unfold st'. rewrite run_cwd by done. unfold Tauri.created. rewrite Hs. simpl.
    apply lookup_insert_eq. }
  split; [|split].
  - unfold Tauri.getCwd. by rewrite Hs, Hcwd, normalizePath_nonempty.
  - intros code. unfold Tauri.getCwd. rewrite Hs.
    unfold Tauri.emitTerminalExit. simpl.
    destruct (Tauri.has_listeners _); simpl; by rewrite lookup_delete_eq.
  - unfold Tauri.getCwd, Tauri.destroy. rewrite Hs. simpl. by rewrite lookup_delete_eq.
Qed.

Lemma cwd_is_remembered_until_exit_or_destroy_witness :
  Tauri.getCwd (Js.Str "s1")
    (Tauri.run [Tauri.Output "s1" "ls"; Tauri.Exit "s2" 0; Tauri.Destroy (Js.Str "s2");
                Tauri.Created (Js.Str "/tmp") (Js.Str "s2"); Tauri.Advance 40000]
       (Tauri.created Js.Undefined (Js.Str "s1") Tauri.init))
  = Some "~".
Proof.
  exact (proj1 (cwd_is_remembered_until_exit_or_destroy Js.Undefined "s1"
                  [Tauri.Output "s1" "ls"; Tauri.Exit "s2" 0; Tauri.Destroy (Js.Str "s2");
                   Tauri.Created (Js.Str "/tmp") (Js.Str "s2"); Tauri.Advance 40000]
                  Tauri.init eq_refl eq_refl)).
Defined.

(** ** The pane controller: disposal, the wait loop and settled creations *)

Lemma updatePane_twice (p : string) (f : App.TerminalPane → App.TerminalPane)
    (panes : list App.TerminalPane) :
  (∀ pane, App.id (f pane) = App.id pane) →
  (∀ pane, f (f pane) = f pane) →
  map (λ pane, if decide (App.id pane = p) then f pane else pane)
    (map (λ pane, if decide (App.id pane = p) then f pane else pane) panes)
  = map (λ pane, if decide (App.id pane = p) then f pane else pane) panes.
Proof.
  intros Hid Hf. rewrite map_map. apply map_ext. intros pane.
  destruct (decide (App.id pane = p)) as [Hp|Hp].
  - by rewrite Hid, decide_True, Hf.
  - by rewrite decide_False.
Qed.

(** Disposing of a pane twice is disposing of it once: the second call
    finds no runtime, no session and no marker, so it kills nothing,
    whatever its [killSession] flag says, and leaves every ref and the
    pane list as the first call left them. *)
Theorem dispose_twice_is_dispose_once
    (p : string) (killSession killAgain resetPaneState : bool) (st : App.state) :
  App.disposePaneRuntime p killAgain resetPaneState
    (App.disposePaneRuntime p killSession resetPaneState st)
  = App.disposePaneRuntime p killSession resetPaneState st.
Proof.
  set (reset := λ pane, App.Pane (App.id pane) None App.idle App.WaitingForSession).
  assert (Hreset : ∀ panes,
             map (λ pane, if decide (App.id pane = p) then reset pane else pane)
               (map (λ pane, if decide (App.id pane = p) then reset pane else pane) panes)
             = map (λ pane, if decide (App.id pane = p) then reset pane else pane) panes).
  { intros panes. by apply updatePane_twice. }
  assert (Hgone : ∀ m : gmap string string, App.get (delete p m) p = None).
  { intros m. unfold App.get. by rewrite lookup_delete_eq. }
  destruct st as [panes cwd rts ps sp cr pe wa fr se re ret ca].
  unfold App.disposePaneRuntime. simpl.
  destruct (App.get ps p) as [s|]; destruct killSession, resetPaneState; simpl.
  all: rewrite Hgone.
  all: cbv [App.updatePane App.with_panes App.with_creating App.with_paneSession
            App.with_runtimes App.with_sessionPane App.issue
            App.terminalPanes App.terminalCwd App.terminalRuntimes App.paneSessionMap
            App.sessionPaneMap App.creatingSession App.pending App.waiting App.fresh
            App.settledCreations App.resumed App.returned App.calls].
  all: rewrite ?Hreset.
  all: rewrite (delete_delete_eq rts), (delete_delete_eq ps), (delete_delete_eq cr).
  all: reflexivity.
Qed.

Lemma run_app (l1 l2 : list App.event) (st : App.state) :
  App.run (l1 ++ l2) st = App.run l2 (App.run l1 st).
Proof. apply foldl_app. Qed.

Lemma waitElapsed_absent (caller : nat) (st : App.state) :
  App.waiting st !! caller = None → App.waitElapsed caller st = st.
Proof. intros H. unfold App.waitElapsed. by rewrite H. Qed.

Lemma wait_loop_parked (p : string) (caller : nat) (n : nat) (a : Z) (st : App.state) :
  App.waiting st !! caller = Some (p, a) →
  App.terminalRuntimes st !! p = None →
  a + Z.of_nat n < App.MAX_ATTEMPTS →
  let st' := App.run (replicate n (App.WaitElapsed caller)) st in
  App.waiting st' !! caller = Some (p, a + Z.of_nat n)
  ∧ App.terminalRuntimes st' = App.terminalRuntimes st
  ∧ App.resumed st' = App.resumed st
  ∧ App.calls st' = App.calls st.
Proof.
  revert a st. induction n as [|n IH]; intros a st Hwait Hrt Hbound.
  - simpl. by rewrite Z.add_0_r.
  - change (App.run (replicate (S n) (App.WaitElapsed caller)) st)
      with (App.run (replicate n (App.WaitElapsed caller)) (App.waitElapsed caller st)).
    assert (Hstep : App.waitElapsed caller st
                    = App.with_waiting (insert caller (p, a + 1))
                        (App.with_waiting (delete caller) st)).
    { unfold App.waitElapsed. rewrite Hwait. simpl. rewrite Hrt.
      destruct (Z.ltb_spec (a + 1) App.MAX_ATTEMPTS); [done|lia]. }
    rewrite Hstep. intros st'.
    destruct (IH (a + 1) (App.with_waiting (insert caller (p, a + 1))
                            (App.with_waiting (delete caller) st)))
      as (Hw & Hr & Hres & Hcalls); [apply lookup_insert_eq|done|lia|].
    unfold st'. rewrite Hw, Hr, Hres, Hcalls. simpl.
    repeat split. do 2 f_equal. lia.
Qed.

Lemma wait_loop_idle (caller : nat) (n : nat) (st : App.state) :
  App.waiting st !! caller = None →
  App.run (replicate n (App.WaitElapsed caller)) st = st.
Proof.
  intros Hnone. induction n as [|n IH]; [done|].
  change (App.run (replicate (S n) (App.WaitElapsed caller)) st)
    with (App.run (replicate n (App.WaitElapsed caller)) (App.waitElapsed caller st)).
  by rewrite waitElapsed_absent.
Qed.

(** A call of [ensurePaneSession] for a pane that has no session, no
    creation in flight and no mounted terminal parks itself; while no
    terminal is mounted for the pane it looks again after every wait, 24
    times at most: after fewer waits it is still parked and has created
    nothing, with the 24th it gives up, rejecting with the
    runtime-missing error, and it never calls the bridge. *)
Theorem parked_call_gives_up_after_24_waits (p : string) (n : nat) (st : App.state) :
  App.get (App.paneSessionMap st) p = None →
  App.creatingSession st !! p = None →
  App.terminalRuntimes st !! p = None →
  App.resumed st !! App.fresh st = None →
  let caller := App.fresh st in
  let st' := App.run (App.EnsurePaneSession p :: replicate n (App.WaitElapsed caller)) st in
  App.calls st' = App.calls st
  ∧ ((n < 24)%nat →
     App.waiting st' !! caller = Some (p, Z.of_nat n)
     ∧ App.outcome_of st' (App.Suspended caller) = None)
  ∧ ((24 ≤ n)%nat →
     App.waiting st' !! caller = None
     ∧ App.outcome_of st' (App.Suspended caller)
       = Some (inl (Bridge.Error ("terminal runtime missing for " +:+ p)))).
Proof.
  intros Hget Hmark Hrt Hres caller st'.
  set (st0 := (App.ensurePaneSession p st).2).
  assert (Hst0 : st0 = App.returns p (App.Suspended caller)
                         (App.with_waiting (insert caller (p, 0)) (App.tick st))).
  { unfold st0, App.ensurePaneSession. by rewrite Hget, Hmark, Hrt. }
  assert (Hrun : st' = App.run (replicate n (App.WaitElapsed caller)) st0) by done.
  assert (Hw0 : App.waiting st0 !! caller = Some (p, 0))
    by (rewrite Hst0; apply lookup_insert_eq).
  assert (Hrt0 : App.terminalRuntimes st0 !! p = None) by (by rewrite Hst0).
  destruct (Nat.lt_ge_cases n 24) as [Hlt|Hge].
  - destruct (wait_loop_parked p caller n 0 st0 Hw0 Hrt0) as (Hw & _ & Hr & Hc).
    { unfold App.MAX_ATTEMPTS. lia. }
    rewrite <- Hrun in Hw, Hr, Hc. split; [by rewrite Hc, Hst0|]. split; [|lia].
    intros _. split; [done|]. unfold App.outcome_of. rewrite Hr, Hst0. simpl.
    fold caller in Hres. by rewrite Hres.
  - replace n with (23 + 1 + (n - 24))%nat in Hrun by lia.
    rewrite !replicate_add, !run_app in Hrun.
    destruct (wait_loop_parked p caller 23 0 st0 Hw0 Hrt0) as (Hw & Hr & Hresumed & Hc).
    { unfold App.MAX_ATTEMPTS. lia. }
    remember (App.run (replicate 23 (App.WaitElapsed caller)) st0) as st1 eqn:Hst1.
    clear Hst1.
    assert (Hlast : App.run (replicate 1 (App.WaitElapsed caller)) st1
                    = App.with_resumed (insert caller (App.RuntimeMissing p))
                        (App.with_waiting (delete caller) st1)).
    { change (App.run (replicate 1 (App.WaitElapsed caller)) st1)
        with (App.waitElapsed caller st1).
      unfold App.waitElapsed. rewrite Hw. simpl. by rewrite Hr, Hrt0. }
    rewrite Hlast in Hrun.
    rewrite wait_loop_idle in Hrun by apply lookup_delete_eq.
    rewrite Hrun. simpl. split; [by rewrite Hc, Hst0|]. split; [lia|].
    intros _. split; [apply lookup_delete_eq|]. by rewrite lookup_insert_eq.
Qed.

Lemma parked_call_gives_up_after_24_waits_witness :
  App.outcome_of
    (App.run (App.EnsurePaneSession "terminal-1"
                :: replicate 24 (App.WaitElapsed (App.fresh unmounted))) unmounted)
    (App.Suspended (App.fresh unmounted))
  = Some (inl (Bridge.Error ("terminal runtime missing for " +:+ "terminal-1"))).
Proof.
  refine (proj2 (proj2 (proj2 (parked_call_gives_up_after_24_waits "terminal-1" 24 unmounted
                                 eq_refl eq_refl eq_refl eq_refl)) _)).
  apply Nat.le_refl.
Defined.

Lemma resizePaneTerminal_panes (p : string) (st : App.state) :
  App.terminalPanes (App.resizePaneTerminal p st) = App.terminalPanes st.
Proof.
  unfold App.resizePaneTerminal. destruct (App.terminalRuntimes st !! p); [|done].
  simpl. by destruct (App.get _ p).
Qed.

(** When the creation of a pane's session succeeds with a session id,
    the pane and the session are bound to each other, the pane is shown
    idle with that session, the pane's creation marker is cleared, and
    the session is sent the size of the pane's terminal if one is
    mounted; a call of [ensurePaneSession] made from then on answers with
    that session and creates nothing. *)
Theorem settled_creation_binds_the_pane
    (p s : string) (n : nat) (st : App.state) :
  App.pending st !! n = Some p →
  s ≠ "" →
  let st' := App.createSettled n (inr s) st in
  App.paneSessionMap st' !! p = Some s
  ∧ App.sessionPaneMap st' !! s = Some p
  ∧ App.creatingSession st' !! p = None
  ∧ App.outcome_of st' (App.InFlight n) = Some (inr s)
  ∧ App.terminalPanes st'
    = map (λ pane, if decide (App.id pane = p)
                   then App.Pane (App.id pane) (Some s) App.idle (App.SessionReady s)
                   else pane) (App.terminalPanes st)
  ∧ App.calls st'
    = App.calls st
      ++ match App.terminalRuntimes st !! p with
         | Some rt => [App.ResizeTerminal s (Z.max 2 (App.cols (App.fit rt)))
                         (Z.max 2 (App.rows (App.fit rt)))]
         | None => []
         end
  ∧ App.ensurePaneSession p st' = (App.Existing s, App.returns p (App.Existing s) st').
Proof.
  intros Hpend Hs st'.
  set (st1 := App.updatePane p
                (λ pane, App.Pane (App.id pane) (Some s) App.idle (App.SessionReady s))
                (App.with_sessionPane (insert s p)
                   (App.with_paneSession (insert p s)
                      (App.with_settled (insert n (inr s))
                         (App.with_pending (delete n) st))))).
  assert (Hst' : st' = App.with_creating (delete p) (App.resizePaneTerminal p st1)).
  { unfold st', App.createSettled. by rewrite Hpend. }
  destruct (resizePaneTerminal_frame p st1) as (Hps & Hsp & Hcr & _ & _ & _ & _ & Hset).
  assert (Hbound : App.paneSessionMap st' !! p = Some s).
  { rewrite Hst'. simpl. rewrite Hps. apply lookup_insert_eq. }
  split; [done|]. split; [|split; [|split; [|split; [|split]]]].
  - rewrite Hst'. simpl. rewrite Hsp. apply lookup_insert_eq.
  - rewrite Hst'. apply lookup_delete_eq.
  - rewrite Hst'. simpl. rewrite Hset. apply lookup_insert_eq.
  - rewrite Hst'. simpl. by rewrite resizePaneTerminal_panes.
  - rewrite Hst'. simpl. rewrite resizePaneTerminal_calls. simpl.
    destruct (App.terminalRuntimes st !! p) as [rt|]; [|by rewrite app_nil_r].
    by rewrite (get_nonempty _ p s) by (by rewrite ?lookup_insert_eq).
  - unfold App.ensurePaneSession. by rewrite (get_nonempty _ p s).
Qed.

Lemma settled_creation_binds_the_pane_witness :
  App.paneSessionMap
    (App.createSettled 0 (inr "s1")
       (App.createPaneRuntime "terminal-1" (App.Runtime 0 80 24 None) unmounted))
  !! "terminal-1" = Some "s1".
Proof.
  refine (proj1 (settled_creation_binds_the_pane "terminal-1" "s1" 0
                   (App.createPaneRuntime "terminal-1" (App.Runtime 0 80 24 None) unmounted)
                   eq_refl _)).
  discriminate.
Defined.

(** When the creation of a pane's session fails, the pane is shown in
    error without a session, it stays unbound, no call is made, and the
    creation marker is cleared: a later call of [ensurePaneSession], the
    pane's terminal being mounted, asks the bridge for a session again. *)
Theorem failed_creation_can_be_retried
    (p : string) (n : nat) (e : Bridge.error) (rt : App.TerminalRuntime) (st : App.state) :
  App.pending st !! n = Some p →
  App.get (App.paneSessionMap st) p = None →
  App.terminalRuntimes st !! p = Some rt →
  let st' := App.createSettled n (inl e) st in
  App.paneSessionMap st' = App.paneSessionMap st
  ∧ App.sessionPaneMap st' = App.sessionPaneMap st
  ∧ App.outcome_of st' (App.InFlight n) = Some (inl e)
  ∧ App.terminalPanes st'
    = map (λ pane, if decide (App.id pane = p)
                   then App.Pane (App.id pane) None App.error App.CreateFailed
                   else pane) (App.terminalPanes st)
  ∧ App.calls st' = App.calls st
  ∧ (App.ensurePaneSession p st').1 = App.InFlight (App.fresh st)
  ∧ App.calls (App.ensurePaneSession p st').2
    = App.calls st ++ [App.CreateTerminal p (App.fresh st) (App.terminalCwd st)
                         (Z.max 2 (App.cols rt)) (Z.max 2 (App.rows rt))].
Proof.
  intros Hpend Hget Hrt st'.
  assert (Hst' : st' = App.with_creating (delete p)
                         (App.updatePane p
                            (λ pane, App.Pane (App.id pane) None App.error App.CreateFailed)
                            (App.with_settled (insert n (inl e))
                               (App.with_pending (delete n) st)))).
  { unfold st', App.createSettled. by rewrite Hpend. }
  rewrite Hst'. simpl. repeat split.
  - apply lookup_insert_eq.
  - unfold App.ensurePaneSession. simpl. by rewrite Hget, lookup_delete_eq, Hrt.
  - unfold App.ensurePaneSession. simpl. by rewrite Hget, lookup_delete_eq, Hrt.
Qed.

Lemma failed_creation_can_be_retried_witness :
  (App.ensurePaneSession "terminal-1"
     (App.createSettled 0 (inl (Bridge.Error "spawn failed"))
        (App.createPaneRuntime "terminal-1" (App.Runtime 0 80 24 None) unmounted))).1
  = App.InFlight
      (App.fresh (App.createPaneRuntime "terminal-1" (App.Runtime 0 80 24 None) unmounted)).
Proof.
  exact (proj1 (proj2 (proj2 (proj2 (proj2 (proj2
           (failed_creation_can_be_retried "terminal-1" 0 (Bridge.Error "spawn failed")
              (App.Runtime 0 80 24 None)
              (App.createPaneRuntime "terminal-1" (App.Runtime 0 80 24 None) unmounted)
              eq_refl eq_refl eq_refl))))))).
Defined.

(** When a session bound to a pane exits, the pane is shown without a
    session, as a success when the exit code is 0 and in error
    otherwise; if the pane's terminal is still mounted and no creation is
    in flight for the pane, one new session is asked for at once, and if
    the terminal is gone none is and no call waits for one. *)
Theorem exit_marks_the_pane_and_respawns
    (s p : string) (code : Z) (st : App.state) :
  App.get (App.sessionPaneMap st) s = Some p →
  App.creatingSession st !! p = None →
  let st' := App.onTerminalExit s code st in
  App.terminalPanes st'
  = map (λ pane, if decide (App.id pane = p) then exited code pane else pane)
      (App.terminalPanes st)
  ∧ App.waiting st' = App.waiting st
  ∧ match App.terminalRuntimes st !! p with
    | Some rt =>
        App.calls st'
        = App.calls st ++ [App.CreateTerminal p (App.fresh st) (App.terminalCwd st)
                             (Z.max 2 (App.cols rt)) (Z.max 2 (App.rows rt))]
        ∧ App.creatingSession st' !! p = Some (App.fresh st)
    | None => App.calls st' = App.calls st ∧ App.creatingSession st' !! p = None
    end.
Proof.
  intros Hget Hmark st'. unfold st', App.onTerminalExit. rewrite Hget. simpl.
  destruct (App.terminalRuntimes st !! p) as [rt|] eqn:Hrt; [|done].
  unfold App.ensurePaneSession. simpl.
  assert (Hgone : App.get (delete p (App.paneSessionMap st)) p = None).
  { unfold App.get. by rewrite lookup_delete_eq. }
  rewrite Hgone, Hmark, Hrt. simpl. repeat split. apply lookup_insert_eq.
Qed.

Lemma exit_marks_the_pane_and_respawns_witness :
  App.terminalPanes (App.onTerminalExit "s1" 3 boundPane)
  = map (λ pane, if decide (App.id pane = "terminal-1") then exited 3 pane else pane)
      (App.terminalPanes boundPane).
Proof.
  exact (proj1 (exit_marks_the_pane_and_respawns "s1" "terminal-1" 3 boundPane
                  eq_refl eq_refl)).
Defined.


(** ** The sessions the controller talks to *)

Lemma knows_only_weaken (ids ids' : list string) (st : App.state) :
  ids ⊆ ids' → knows_only ids st → knows_only ids' st.
Proof.
  intros Hsub [Hmap Hcalls]. split.
  - intros p s Hp. by apply Hsub, (Hmap p).
  - intros s Hs. by apply Hsub, Hcalls.
Qed.

Lemma knows_only_frame (ids : list string) (st st' : App.state) :
  App.paneSessionMap st' = App.paneSessionMap st →
  omap session_of (App.calls st') = omap session_of (App.calls st) →
  knows_only ids st → knows_only ids st'.
Proof. unfold knows_only. by intros -> ->. Qed.

Lemma knows_only_call (ids : list string) (c : App.call) (st : App.state) :
  match session_of c with Some s => s ∈ ids | None => True end →
  knows_only ids st → knows_only ids (App.issue c st).
Proof.
  intros Hc [Hmap Hcalls]. split; [done|]. intros s. simpl. rewrite omap_app.
  intros Hs. apply elem_of_app in Hs as [Hs|Hs]; [by apply Hcalls|].
  simpl in Hs. destruct (session_of c) as [s'|]; [|by apply elem_of_nil in Hs].
  by apply list_elem_of_singleton in Hs as ->.
Qed.

Lemma knows_only_resize (ids : list string) (p : string) (st : App.state) :
  knows_only ids st → knows_only ids (App.resizePaneTerminal p st).
Proof.
  intros Hk. unfold App.resizePaneTerminal.
  destruct (App.terminalRuntimes st !! p) as [rt|]; [|done]. simpl.
  destruct (App.get (App.paneSessionMap st) p) as [s|] eqn:Hget.
  - apply knows_only_call; [|done]. simpl. apply get_Some in Hget. by apply (proj1 Hk p).
  - done.
Qed.

Lemma knows_only_ensure (ids : list string) (p : string) (st : App.state) :
  knows_only ids st → knows_only ids (App.ensurePaneSession p st).2.
Proof.
  intros Hk. unfold App.ensurePaneSession, App.createSession.
  destruct (App.get _ p); simpl; [done|].
  destruct (App.creatingSession st !! p); simpl; [done|].
  destruct (App.terminalRuntimes st !! p); simpl; [|done].
  destruct Hk as [Hmap Hcalls]. split; [done|]. intros s. simpl.
  rewrite omap_app. simpl. rewrite app_nil_r. apply Hcalls.
Qed.

Lemma step_knows_only (ids : list string) (e : App.event) (st : App.state) :
  knows_only ids st → knows_only (ids ++ handed_out [e]) (App.step st e).
Proof.
  intros Hk.
  assert (Hweak : ∀ st', knows_only ids st' → knows_only (ids ++ handed_out [e]) st').
  { intros st'. apply knows_only_weaken. intros s Hs. apply elem_of_app. by left. }
  destruct e as [p|c|n out|p|p d|p|p rt|p k r|s code]; simpl.
  - by apply Hweak, knows_only_ensure.
  - apply Hweak. unfold App.waitElapsed, App.createSession.
    destruct (App.waiting st !! c) as [[p a]|]; [|done]. simpl.
    destruct (App.terminalRuntimes st !! p); simpl.
    + destruct Hk as [Hmap Hcalls]. split; [done|]. intros s. simpl.
      rewrite omap_app. simpl. rewrite app_nil_r. apply Hcalls.
    + by destruct (a + 1 <? App.MAX_ATTEMPTS).
  - unfold App.createSettled. destruct (App.pending st !! n) as [p|]; [|by apply Hweak].
    destruct out as [err|s].
    + by apply Hweak.
    + apply (knows_only_frame _ (App.resizePaneTerminal p
               (App.updatePane p
                  (λ pane, App.Pane (App.id pane) (Some s) App.idle (App.SessionReady s))
                  (App.with_sessionPane (insert s p)
                     (App.with_paneSession (insert p s)
                        (App.with_settled (insert n (inr s))
                           (App.with_pending (delete n) st))))))); [done|done|].
      apply knows_only_resize. destruct Hk as [Hmap Hcalls]. split.
      * intros q s'. simpl. rewrite lookup_insert. case_decide.
        -- intros [= <-]. apply elem_of_app. right. simpl. left.
        -- intros Hq. apply elem_of_app. left. by apply (Hmap q).
      * intros s' Hs'. apply elem_of_app. left. by apply Hcalls.
  - by apply Hweak, knows_only_resize.
  - apply Hweak. unfold App.terminalInput.
    destruct (App.get _ p) as [s|] eqn:Hget; [|done].
    apply knows_only_call; [|done]. simpl. apply get_Some in Hget. by apply (proj1 Hk p).
  - by apply Hweak.
  - apply Hweak. unfold App.createPaneRuntime.
    apply knows_only_ensure, knows_only_resize. done.
  - apply Hweak. unfold App.disposePaneRuntime. simpl.
    assert (Hdel : knows_only ids
                     (App.with_creating (delete p)
                        (App.with_paneSession (delete p)
                           (App.with_runtimes (delete p) st)))).
    { destruct Hk as [Hmap Hcalls]. split; [|done]. intros q s. simpl.
      rewrite lookup_delete. case_decide; [done|]. apply Hmap. }
    destruct (App.get _ p) as [s|] eqn:Hget.
    + apply get_Some in Hget.
      assert (Hkill : knows_only ids
                (App.issue (App.KillTerminal s)
                   (App.with_sessionPane (delete s)
                      (App.with_creating (delete p)
                         (App.with_paneSession (delete p)
                            (App.with_runtimes (delete p) st)))))).
      { apply knows_only_call; [|done]. simpl. by apply (proj1 Hk p). }
      destruct k, r; done.
    + by destruct r.
  - apply Hweak. unfold App.onTerminalExit.
    destruct (App.get _ s) as [p|]; [|done]. simpl.
    set (st1 := App.updatePane p _ _).
    assert (Hst1 : knows_only ids st1).
    { destruct Hk as [Hmap Hcalls]. split; [|done]. intros q s'. simpl.
      rewrite lookup_delete. case_decide; [done|]. apply Hmap. }
    change (App.terminalRuntimes st !! p) with (App.terminalRuntimes st1 !! p).
    destruct (App.terminalRuntimes st1 !! p); [|done]. by apply knows_only_ensure.
Qed.

Lemma run_knows_only (ids : list string) (events : list App.event) (st : App.state) :
  knows_only ids st → knows_only (ids ++ handed_out events) (App.run events st).
Proof.
  revert ids st. induction events as [|e events IH]; intros ids st Hk.
  - simpl. by rewrite app_nil_r.
  - change (App.run (e :: events) st) with (App.run events (App.step st e)).
    replace (ids ++ handed_out (e :: events))
      with ((ids ++ handed_out [e]) ++ handed_out events).
    + by apply IH, step_knows_only.
    + rewrite <- app_assoc. f_equal. unfold handed_out.
      change (e :: events) with ([e] ++ events). by rewrite omap_app.
Qed.

(** The controller invents no session: whatever happens from the start
    of the component, every session it writes to, resizes or kills, and
    every session it has bound to a pane, is one that a [createTerminal]
    promise was fulfilled with earlier in the run. *)
Theorem controller_addresses_handed_out_sessions_only
    (events : list App.event) (panes : list App.TerminalPane) (cwd : option string) :
  let st := App.run events (App.init panes cwd) in
  (∀ s, s ∈ omap session_of (App.calls st) → s ∈ handed_out events)
  ∧ (∀ p s, App.paneSessionMap st !! p = Some s → s ∈ handed_out events).
Proof.
  intros st.
  destruct (run_knows_only [] events (App.init panes cwd)) as [Hmap Hcalls].
  { split; [intros p s Hp|intros s Hs]; [done|by apply elem_of_nil in Hs]. }
  by split.
Qed.

(** ** Runs on which the earlier lemmas apply *)

Lemma first_call_registers_witness :
  (App.ensurePaneSession "terminal-1"
     (App.with_runtimes (insert "terminal-1" (App.Runtime 0 80 24 None)) unmounted)).1
  = App.InFlight
      (App.fresh (App.with_runtimes (insert "terminal-1" (App.Runtime 0 80 24 None)) unmounted)).
Proof.
  refine (proj1 (first_call_registers "terminal-1" (App.Runtime 0 80 24 None)
                   (App.with_runtimes (insert "terminal-1" (App.Runtime 0 80 24 None)) unmounted)
                   eq_refl eq_refl eq_refl _ _)).
  - intros m Hm. simpl in Hm. by rewrite lookup_empty in Hm.
  - intros c a Hc. simpl in Hc. by rewrite lookup_empty in Hc.
Defined.

Lemma registered_creation_is_shared_witness :
  deduplicated "terminal-1" 0
    (App.createPaneRuntime "terminal-1" (App.Runtime 0 80 24 None) unmounted)
    (App.run [App.EnsurePaneSession "terminal-1"; App.ResizePane "terminal-1";
              App.TerminalInput "terminal-1" "ls"; App.EnsurePaneSession "terminal-1"]
       (App.createPaneRuntime "terminal-1" (App.Runtime 0 80 24 None) unmounted)).
Proof.
  refine (proj1 (registered_creation_is_shared "terminal-1" 0
                   [App.EnsurePaneSession "terminal-1"; App.ResizePane "terminal-1";
                    App.TerminalInput "terminal-1" "ls"; App.EnsurePaneSession "terminal-1"]
                   (App.createPaneRuntime "terminal-1" (App.Runtime 0 80 24 None) unmounted)
                   (inr "s1") _ _)).
  - split; [reflexivity|]. split; [reflexivity|]. split; [reflexivity|].
    split; [change (0 < 1)%nat; lia|]. split.
    + intros m Hm.
      change (({[0%nat := "terminal-1"]} : gmap nat string) !! m = Some "terminal-1") in Hm.
      by apply lookup_singleton_Some in Hm as [<- _].
    + intros c a Hc. change ((∅ : gmap nat (string * Z)) !! c = Some ("terminal-1", a)) in Hc.
      by rewrite lookup_empty in Hc.
  - repeat constructor.
Defined.

Lemma run_inverse_maps_witness :
  inverse_maps
    (App.run [App.CreatePaneRuntime "terminal-1" (App.Runtime 0 80 24 None);
              App.CreateSettled 0 (inr "s1")]
       (App.init [App.Pane "terminal-1" None App.idle App.WaitingForSession] None)).
Proof.
  apply (run_inverse_maps
           [App.CreatePaneRuntime "terminal-1" (App.Runtime 0 80 24 None);
            App.CreateSettled 0 (inr "s1")]
           [App.Pane "terminal-1" None App.idle App.WaitingForSession] None).
  split; [exact I|]. split; [|exact I].
  intros q Hq. change ((∅ : gmap string string) !! q = Some "s1") in Hq.
  by rewrite lookup_empty in Hq.
Defined.

(** ** [rendererBridge] over a run *)

Section BridgeRuns.

Context {W : Type}.
Variable tauriInvoke : string → Bridge.args → W → (Bridge.error + Bridge.response) * W.

Lemma logs_bounded_append (s d : string) (log : gmap string string) :
  logs_bounded log → logs_bounded (OpenspaceBridge.appendTerminalOutput s d log).
Proof.
  intros Hb s' text. destruct (decide (s' = s)) as [->|Hne].
  - rewrite appendTerminalOutput_same. intros [= <-].
    unfold Js.length. rewrite length_lastChars.
    assert (0 < OpenspaceBridge.OUTPUT_LIMIT) by reflexivity. lia.
  - rewrite appendTerminalOutput_other by done. apply Hb.
Qed.

Lemma logs_bounded_delete (s : string) (log : gmap string string) :
  logs_bounded log → logs_bounded (delete s log).
Proof.
  intros Hb s' text. rewrite lookup_delete. case_decide; [done|]. apply Hb.
Qed.

Lemma bridge_step_bounded (e : bridge_event) (st : Bridge.state W) :
  logs_bounded (Bridge.terminalOutputBySession st) →
  logs_bounded (Bridge.terminalOutputBySession (bridge_step tauriInvoke st e)).
Proof.
  intros Hb. destruct e as [s d|s code|s d|s cols rows|s signal]; simpl.
  - by apply logs_bounded_append.
  - by apply logs_bounded_delete.
  - unfold Bridge.writeTerminal. destruct (Bridge.falsy s); [done|].
    destruct (Bridge.hasTauriRuntime st); simpl.
    + destruct (invokeWithFallbacks_registries tauriInvoke "terminal.write"
                  Bridge.TAURI_COMMANDS_terminalWrite
                  [Bridge.Wrapped (Bridge.WriteRequest s d);
                   Bridge.Flat (Bridge.WriteRequest s d)] st) as (_ & Hout & _).
      destruct (Bridge.invokeWithFallbacks _ _ _ _ _) as [[err|v] st1]; simpl in *;
        by rewrite Hout.
    + by apply logs_bounded_append.
  - unfold Bridge.resizeTerminal. destruct (Bridge.falsy s); [done|].
    destruct (Bridge.hasTauriRuntime st); simpl; [|done].
    destruct (invokeWithFallbacks_registries tauriInvoke "terminal.resize"
                Bridge.TAURI_COMMANDS_terminalResize
                [Bridge.Wrapped (Bridge.ResizeRequest s cols rows);
                 Bridge.Flat (Bridge.ResizeRequest s cols rows)] st) as (_ & Hout & _).
    destruct (Bridge.invokeWithFallbacks _ _ _ _ _) as [[err|v] st1]; simpl in *;
      by rewrite Hout.
  - unfold Bridge.killTerminal. destruct (Bridge.falsy s); [done|].
    destruct (Bridge.hasTauriRuntime st); simpl; [|by apply logs_bounded_delete].
    destruct (invokeWithFallbacks_registries tauriInvoke "terminal.kill"
                Bridge.TAURI_COMMANDS_terminalKill
                [Bridge.Wrapped (Bridge.KillRequest s signal);
                 Bridge.Flat (Bridge.KillRequest s signal)] st) as (_ & Hout & _).
    destruct (Bridge.invokeWithFallbacks _ _ _ _ _) as [[err|v] st1]; simpl in *;
      rewrite Hout; [done|by apply logs_bounded_delete].
Qed.

(** Whatever terminal events arrive and whatever session calls are made,
    with or without a backend and whatever the backend answers, no
    session's output log in [rendererBridge] grows beyond 8000
    characters once all logs are within that limit. *)
Theorem output_logs_stay_bounded (events : list bridge_event) (st : Bridge.state W) :
  logs_bounded (Bridge.terminalOutputBySession st) →
  logs_bounded (Bridge.terminalOutputBySession (bridge_run tauriInvoke events st)).
Proof.
  revert st. induction events as [|e events IH]; intros st Hb; [done|].
  change (bridge_run tauriInvoke (e :: events) st)
    with (bridge_run tauriInvoke events (bridge_step tauriInvoke st e)).
  by apply IH, bridge_step_bounded.
Qed.



End BridgeRuns.

Lemma output_logs_stay_bounded_witness :
  logs_bounded
    (Bridge.terminalOutputBySession
       (bridge_run Bridge.aliasOnly
          [OutputArrives "s1" "abc"; WriteCalled "s1" "ls"; KillCalled "s2" None;
           ExitArrives "s1" 0]
          (Bridge.State true tt ∅ [] [] [] []))).
Proof.
  apply (output_logs_stay_bounded Bridge.aliasOnly
           [OutputArrives "s1" "abc"; WriteCalled "s1" "ls"; KillCalled "s2" None;
            ExitArrives "s1" 0]
           (Bridge.State true tt ∅ [] [] [] [])).
  intros s text Hs. simpl in Hs. by rewrite lookup_empty in Hs.
Defined.


(** ** The mount and unmount effects *)

Lemma resizePaneTerminal_runtimes (p q : string) (st : App.state) :
  App.terminalRuntimes (App.resizePaneTerminal p st) !! q
  = if decide (q = p) then App.fit <$> App.terminalRuntimes st !! p
    else App.terminalRuntimes st !! q.
Proof.
  unfold App.resizePaneTerminal.
  destruct (App.terminalRuntimes st !! p) as [rt|] eqn:Hrt.
  - assert (Hins : App.terminalRuntimes
                     (App.with_runtimes (insert p (App.fit rt)) st) !! q
                   = if decide (q = p) then Some (App.fit rt)
                     else App.terminalRuntimes st !! q).
    { simpl. rewrite lookup_insert. destruct (decide (q = p)) as [->|Hne].
      - by rewrite decide_True.
      - by rewrite decide_False by (intros Heq; by apply Hne). }
    simpl. destruct (App.get _ p); simpl in *; by rewrite Hins.
  - destruct (decide (q = p)) as [->|Hne]; [by rewrite Hrt|done].
Qed.

Lemma hostElement_fit (rt : App.TerminalRuntime) :
  App.hostElement (App.fit rt) = App.hostElement rt.
Proof. unfold App.fit. by destruct (App.proposed rt) as [[c r]|]. Qed.

Lemma ensurePaneSession_runtimes (p : string) (st : App.state) :
  App.terminalRuntimes (App.ensurePaneSession p st).2 = App.terminalRuntimes st.
Proof. by destruct (ensurePaneSession_frame p st) as (_ & _ & -> & _). Qed.

Lemma mountPane_other (hosts : gmap string nat) (opened : nat → Z * Z * option (Z * Z))
    (p q : string) (st : App.state) :
  q ≠ p →
  App.terminalRuntimes (Effects.mountPane hosts opened st p) !! q
  = App.terminalRuntimes st !! q.
Proof.
  intros Hne. unfold Effects.mountPane. destruct (hosts !! p) as [h|]; [|done].
  set (st1 := match App.terminalRuntimes st !! p with
              | Some existing =>
                  if decide (App.hostElement existing = h) then st
                  else App.disposePaneRuntime p true true st
              | None => st
              end).
  assert (Hst1 : App.terminalRuntimes st1 !! q = App.terminalRuntimes st !! q).
  { unfold st1. destruct (App.terminalRuntimes st !! p) as [rt|]; [|done].
    destruct (decide (App.hostElement rt = h)); [done|].
    destruct (disposePaneRuntime_fields p true true st) as (-> & _).
    by rewrite lookup_delete_ne. }
  destruct (App.terminalRuntimes st1 !! p).
  - rewrite ensurePaneSession_runtimes, resizePaneTerminal_runtimes.
    by rewrite decide_False.
  - destruct (opened h) as [[c r] pr]. unfold App.createPaneRuntime.
    rewrite ensurePaneSession_runtimes, resizePaneTerminal_runtimes.
    rewrite decide_False by done. simpl. by rewrite lookup_insert_ne.
Qed.

Lemma mountPane_hosted (hosts : gmap string nat) (opened : nat → Z * Z * option (Z * Z))
    (p : string) (h : nat) (st : App.state) :
  hosts !! p = Some h →
  ∃ rt, App.terminalRuntimes (Effects.mountPane hosts opened st p) !! p = Some rt
        ∧ App.hostElement rt = h.
Proof.
  intros Hh. unfold Effects.mountPane. rewrite Hh.
  set (st1 := match App.terminalRuntimes st !! p with
              | Some existing =>
                  if decide (App.hostElement existing = h) then st
                  else App.disposePaneRuntime p true true st
              | None => st
              end).
  assert (Hst1 : ∀ rt, App.terminalRuntimes st1 !! p = Some rt → App.hostElement rt = h).
  { unfold st1. destruct (App.terminalRuntimes st !! p) as [rt0|] eqn:Hrt0.
    - destruct (decide (App.hostElement rt0 = h)) as [Hsame|Hdiff].
      + intros rt. rewrite Hrt0. by intros [= <-].
      + destruct (disposePaneRuntime_fields p true true st) as (-> & _).
        intros rt. by rewrite lookup_delete_eq.
    - intros rt. by rewrite Hrt0. }
  destruct (App.terminalRuntimes st1 !! p) as [rt|] eqn:Hrt.
  - exists (App.fit rt). rewrite ensurePaneSession_runtimes, resizePaneTerminal_runtimes.
    rewrite decide_True, Hrt by done. split; [done|]. rewrite hostElement_fit. by apply Hst1.
  - destruct (opened h) as [[c r] pr]. unfold App.createPaneRuntime.
    exists (App.fit (App.Runtime h c r pr)).
    rewrite ensurePaneSession_runtimes, resizePaneTerminal_runtimes.
    rewrite decide_True by done. simpl. rewrite lookup_insert_eq. split; [done|].
    by rewrite hostElement_fit.
Qed.

Lemma mountPane_keeps (hosts : gmap string nat) (opened : nat → Z * Z * option (Z * Z))
    (p q : string) (h : nat) (st : App.state) :
  hosts !! q = Some h →
  (∃ rt, App.terminalRuntimes st !! q = Some rt ∧ App.hostElement rt = h) →
  ∃ rt, App.terminalRuntimes (Effects.mountPane hosts opened st p) !! q = Some rt
        ∧ App.hostElement rt = h.
Proof.
  intros Hh Hrt. destruct (decide (q = p)) as [->|Hne].
  - by apply mountPane_hosted.
  - by rewrite mountPane_other.
Qed.

(** After the first loop of the mount effect every visible pane that
    has a host element has a terminal mounted in that very element,
    whatever was mounted before, and the runtimes of the panes that are
    not visible are as they were. *)
Theorem mount_effect_mounts_every_hosted_pane
    (hosts : gmap string nat) (opened : nat → Z * Z * option (Z * Z))
    (visible : list string) (st : App.state) :
  let st' := Effects.mountVisible hosts opened visible st in
  (∀ p h, p ∈ visible → hosts !! p = Some h →
     ∃ rt, App.terminalRuntimes st' !! p = Some rt ∧ App.hostElement rt = h)
  ∧ (∀ p, p ∉ visible → App.terminalRuntimes st' !! p = App.terminalRuntimes st !! p).
Proof.
  revert st. induction visible as [|q visible IH]; intros st st'.
  - split; [intros p h Hp; by apply elem_of_nil in Hp|done].
  - assert (Hkeep : ∀ l st0 p h, hosts !! p = Some h →
               (∃ rt, App.terminalRuntimes st0 !! p = Some rt ∧ App.hostElement rt = h) →
               ∃ rt, App.terminalRuntimes (Effects.mountVisible hosts opened l st0) !! p
                     = Some rt ∧ App.hostElement rt = h).
    { clear. intros l. induction l as [|q l IHl]; intros st0 p h Hh Hrt; [done|].
      apply (IHl (Effects.mountPane hosts opened st0 q)); [done|].
      by apply mountPane_keeps. }
    destruct (IH (Effects.mountPane hosts opened st q)) as [Hin Hout].
    unfold st'. split.
    + intros p h Hp Hh. destruct (decide (p = q)) as [->|Hne].
      * apply (Hkeep visible (Effects.mountPane hosts opened st q)); [done|].
        by apply mountPane_hosted.
      * apply elem_of_cons in Hp as [Hp|Hp]; [done|]. by apply Hin.
    + intros p Hp. apply not_elem_of_cons in Hp as [Hne Hp].
      etrans; [by apply Hout|]. by apply mountPane_other.
Qed.

Lemma disposed_cons (keep : string → bool) (q p : string) (keys : list string) :
  disposed keep (q :: keys) p
  = (bool_decide (p = q) && negb (keep q)) || disposed keep keys p.
Proof.
  unfold disposed. destruct (decide (p = q)) as [->|Hne].
  - rewrite (bool_decide_eq_true_2 (q ∈ q :: keys)) by left.
    rewrite (bool_decide_eq_true_2 (q = q)) by done.
    simpl. by destruct (keep q), (bool_decide (q ∈ keys)).
  - rewrite (bool_decide_eq_false_2 (p = q)) by done. simpl.
    destruct (decide (p ∈ keys)) as [Hin|Hout].
    + rewrite !bool_decide_eq_true_2; [done|done|by right].
    + rewrite !bool_decide_eq_false_2; [done|done|]. by apply not_elem_of_cons.
Qed.

Lemma lookup_after_dispose {A} (keep : string → bool) (m : gmap string A)
    (q p : string) (keys : list string) :
  keep q = false →
  (if disposed keep keys p then None else delete q m !! p)
  = if disposed keep (q :: keys) p then None else m !! p.
Proof.
  intros Hq. rewrite disposed_cons, Hq. destruct (decide (p = q)) as [->|Hne].
  - rewrite (bool_decide_eq_true_2 (q = q)) by done. simpl.
    rewrite lookup_delete_eq. by destruct (disposed keep keys q).
  - rewrite (bool_decide_eq_false_2 (p = q)) by done. simpl.
    by rewrite lookup_delete_ne.
Qed.

Lemma lookup_after_keep {A} (keep : string → bool) (m : gmap string A)
    (q p : string) (keys : list string) :
  keep q = true →
  (if disposed keep keys p then None else m !! p)
  = if disposed keep (q :: keys) p then None else m !! p.
Proof. intros Hq. by rewrite disposed_cons, Hq, andb_false_r. Qed.

Lemma disposeWhere_fields (keep : string → bool) (r : bool) (keys : list string)
    (st : App.state) :
  let st' := disposeWhere keep r keys st in
  (∀ p, App.terminalRuntimes st' !! p
        = if disposed keep keys p then None else App.terminalRuntimes st !! p)
  ∧ (∀ p, App.paneSessionMap st' !! p
          = if disposed keep keys p then None else App.paneSessionMap st !! p)
  ∧ (∀ p, App.creatingSession st' !! p
          = if disposed keep keys p then None else App.creatingSession st !! p)
  ∧ (r = false → App.terminalPanes st' = App.terminalPanes st)
  ∧ (∀ p s, disposed keep keys p = true → App.get (App.paneSessionMap st) p = Some s →
       App.KillTerminal s ∈ App.calls st')
  ∧ ∃ new, App.calls st' = App.calls st ++ new.
Proof.
  revert st. induction keys as [|q keys IH]; intros st st'.
  - repeat split; try done. exists []. by rewrite app_nil_r.
  - unfold st'.
    change (disposeWhere keep r (q :: keys) st)
      with (disposeWhere keep r keys
              (if keep q then st else App.disposePaneRuntime q true r st)).
    destruct (keep q) eqn:Hq.
    + destruct (IH st) as (Hrt' & Hps' & Hcr' & Hpanes' & Hkill' & new & Hnew).
      split; [|split; [|split; [|split; [|split]]]].
      * intros p. rewrite Hrt'. by apply lookup_after_keep.
      * intros p. rewrite Hps'. by apply lookup_after_keep.
      * intros p. rewrite Hcr'. by apply lookup_after_keep.
      * done.
      * intros p s Hp. apply Hkill'. by rewrite disposed_cons, Hq, andb_false_r in Hp.
      * by exists new.
    + destruct (disposePaneRuntime_fields q true r st)
        as (Hrt & Hps & Hcr & Hcalls & Hpanes).
      destruct (IH (App.disposePaneRuntime q true r st))
        as (Hrt' & Hps' & Hcr' & Hpanes' & Hkill' & new & Hnew).
      split; [|split; [|split; [|split; [|split]]]].
      * intros p. rewrite Hrt', Hrt. by apply lookup_after_dispose.
      * intros p. rewrite Hps', Hps. by apply lookup_after_dispose.
      * intros p. rewrite Hcr', Hcr. by apply lookup_after_dispose.
      * intros Hr. rewrite Hpanes' by done. by apply Hpanes.
      * intros p s Hp Hget. destruct (decide (p = q)) as [->|Hne].
        -- rewrite Hnew, Hcalls, Hget. apply elem_of_app. left.
           apply elem_of_app. right. left.
        -- apply (Hkill' p s).
           ++ rewrite disposed_cons in Hp.
              by rewrite (bool_decide_eq_false_2 (p = q)) in Hp by done.
           ++ rewrite Hps. unfold App.get. rewrite lookup_delete_ne by done. exact Hget.
      * exists ((match App.get (App.paneSessionMap st) q with
                 | Some s => [App.KillTerminal s]
                 | None => []
                 end) ++ new).
        by rewrite Hnew, Hcalls, app_assoc.
Qed.

Lemma disposeAll_disposeWhere (keys : list string) (st : App.state) :
  Effects.disposeAll keys st = disposeWhere (λ _, false) false keys st.
Proof. reflexivity. Qed.

Lemma disposeHidden_disposeWhere (visible keys : list string) (st : App.state) :
  Effects.disposeHidden visible keys st
  = disposeWhere (λ p, bool_decide (p ∈ visible)) true keys st.
Proof.
  revert st. induction keys as [|q keys IH]; intros st; [done|].
  change (Effects.disposeHidden visible (q :: keys) st)
    with (Effects.disposeHidden visible keys
            (if decide (q ∈ visible) then st else App.disposePaneRuntime q true true st)).
  change (disposeWhere (λ p, bool_decide (p ∈ visible)) true (q :: keys) st)
    with (disposeWhere (λ p, bool_decide (p ∈ visible)) true keys
            (if bool_decide (q ∈ visible) then st
             else App.disposePaneRuntime q true true st)).
  rewrite IH. by destruct (decide (q ∈ visible)) as [Hin|Hout];
    [rewrite bool_decide_eq_true_2|rewrite bool_decide_eq_false_2].
Qed.

(** The cleanup of the unmount effect leaves no terminal runtime behind;
    every pane that had one is left without session and without creation
    marker, the backend is asked to kill every session that was bound to
    such a pane, and the pane list is not touched. *)
Theorem unmount_disposes_every_runtime (keys : list string) (st : App.state) :
  lists_runtimes keys st →
  let st' := Effects.disposeAll keys st in
  App.terminalRuntimes st' = ∅
  ∧ (∀ p, p ∈ keys →
       App.paneSessionMap st' !! p = None ∧ App.creatingSession st' !! p = None)
  ∧ (∀ p s, p ∈ keys → App.get (App.paneSessionMap st) p = Some s →
       App.KillTerminal s ∈ App.calls st')
  ∧ App.terminalPanes st' = App.terminalPanes st.
Proof.
  intros Hkeys st'. unfold st'. rewrite disposeAll_disposeWhere.
  destruct (disposeWhere_fields (λ _, false) false keys st)
    as (Hrt & Hps & Hcr & Hpanes & Hkill & _).
  assert (Hd : ∀ p, p ∈ keys → disposed (λ _, false) keys p = true).
  { intros p Hp. unfold disposed. by rewrite bool_decide_eq_true_2. }
  split; [|split; [|split]].
  - apply map_eq. intros p. rewrite lookup_empty, Hrt.
    destruct (disposed _ keys p) eqn:Hp; [done|].
    destruct (App.terminalRuntimes st !! p) eqn:Hrtp; [|done].
    exfalso. rewrite Hd in Hp; [done|]. apply Hkeys. by rewrite Hrtp.
  - intros p Hp. by rewrite Hps, Hcr, Hd.
  - intros p s Hp. apply Hkill. by apply Hd.
  - by apply Hpanes.
Qed.

Lemma unmount_disposes_every_runtime_witness :
  App.terminalRuntimes (Effects.disposeAll ["terminal-1"; "terminal-2"] twoPanes) = ∅.
Proof.
  refine (proj1 (unmount_disposes_every_runtime ["terminal-1"; "terminal-2"] twoPanes _)).
  intros p [rt Hp].
  change (({["terminal-1" := App.Runtime 1 80 24 None;
             "terminal-2" := App.Runtime 2 80 24 None]}
           : gmap string App.TerminalRuntime) !! p = Some rt) in Hp.
  apply lookup_insert_Some in Hp as [[<- _]|[_ Hp]]; [left|].
  apply lookup_singleton_Some in Hp as [<- _]. right. left.
Defined.

Example unmount_kills_both_sessions :
  App.calls (Effects.disposeAll ["terminal-1"; "terminal-2"] twoPanes)
  = App.calls twoPanes ++ [App.KillTerminal "s1"; App.KillTerminal "s2"].
Proof. vm_compute. reflexivity. Qed.

(** The second loop of the mount effect disposes of the terminals of the
    panes that are no longer visible and of no other: afterwards every
    runtime belongs to a visible pane, the runtime, session and creation
    marker of a visible pane are as they were, and the backend is asked to
    kill every session that was bound to a hidden pane with a runtime. *)
Theorem mount_effect_disposes_hidden_panes
    (visible keys : list string) (st : App.state) :
  lists_runtimes keys st →
  let st' := Effects.disposeHidden visible keys st in
  (∀ p, is_Some (App.terminalRuntimes st' !! p) → p ∈ visible)
  ∧ (∀ p, p ∈ visible →
       App.terminalRuntimes st' !! p = App.terminalRuntimes st !! p
       ∧ App.paneSessionMap st' !! p = App.paneSessionMap st !! p
       ∧ App.creatingSession st' !! p = App.creatingSession st !! p)
  ∧ (∀ p s, p ∈ keys → p ∉ visible → App.get (App.paneSessionMap st) p = Some s →
       App.paneSessionMap st' !! p = None ∧ App.KillTerminal s ∈ App.calls st').
Proof.
  intros Hkeys st'. unfold st'. rewrite disposeHidden_disposeWhere.
  destruct (disposeWhere_fields (λ p, bool_decide (p ∈ visible)) true keys st)
    as (Hrt & Hps & Hcr & _ & Hkill & _).
  split; [|split].
  - intros p. rewrite Hrt.
    destruct (disposed _ keys p) eqn:Hp; [by intros [? ?]|]. intros Hsome.
    apply Hkeys in Hsome. unfold disposed in Hp.
    rewrite bool_decide_eq_true_2 in Hp by done. simpl in Hp.
    apply negb_false_iff in Hp. by apply bool_decide_eq_true in Hp.
  - intros p Hp.
    assert (Hkept : disposed (λ p, bool_decide (p ∈ visible)) keys p = false).
    { unfold disposed. rewrite (bool_decide_eq_true_2 (p ∈ visible)) by done.
      apply andb_false_r. }
    by rewrite Hrt, Hps, Hcr, Hkept.
  - intros p s Hp Hout Hget.
    assert (Hgone : disposed (λ p, bool_decide (p ∈ visible)) keys p = true).
    { unfold disposed. by rewrite bool_decide_eq_true_2, bool_decide_eq_false_2. }
    split; [by rewrite Hps, Hgone|]. by apply (Hkill p s).
Qed.

Lemma mount_effect_disposes_hidden_panes_witness :
  App.paneSessionMap
    (Effects.disposeHidden ["terminal-1"] ["terminal-1"; "terminal-2"] twoPanes)
  !! "terminal-2" = None
  ∧ App.KillTerminal "s2"
    ∈ App.calls (Effects.disposeHidden ["terminal-1"] ["terminal-1"; "terminal-2"] twoPanes).
Proof.
  refine (proj2 (proj2 (mount_effect_disposes_hidden_panes ["terminal-1"]
                          ["terminal-1"; "terminal-2"] twoPanes _))
            "terminal-2" "s2" _ _ eq_refl).
  - intros p [rt Hp].
    change (({["terminal-1" := App.Runtime 1 80 24 None;
               "terminal-2" := App.Runtime 2 80 24 None]}
             : gmap string App.TerminalRuntime) !! p = Some rt) in Hp.
    apply lookup_insert_Some in Hp as [[<- _]|[_ Hp]]; [left|].
    apply lookup_singleton_Some in Hp as [<- _]. right. left.
  - right. left.
  - intros Hin. apply list_elem_of_singleton in Hin. discriminate.
Defined.

Lemma mount_effect_mounts_every_hosted_pane_witness :
  ∃ rt, App.terminalRuntimes
          (Effects.mountVisible {["terminal-1" := 5%nat]} (λ _, (80, 24, None))
             ["terminal-1"; "terminal-2"] unmounted) !! "terminal-1" = Some rt
        ∧ App.hostElement rt = 5%nat.
Proof.
  apply (proj1 (mount_effect_mounts_every_hosted_pane {["terminal-1" := 5%nat]}
                  (λ _, (80, 24, None)) ["terminal-1"; "terminal-2"] unmounted)
           "terminal-1" 5%nat).
  - left.
  - reflexivity.
Defined.

(** ** Task records *)

Lemma forallb_isString (tags : list string) :
  forallb Tasks.isString (map Js.Str tags) = true.
Proof. induction tags as [|t tags IH]; [done|]. by simpl. Qed.

Lemma map_text (tags : list string) : map Tasks.text (map Js.Str tags) = tags.
Proof. induction tags as [|t tags IH]; [done|]. simpl. by rewrite IH. Qed.

Lemma isCardShape_toTaskRecord (card : Tasks.KanbanCard) :
  Tasks.isCardShape (Tasks.toTaskRecord card) = Tasks.readable card.
Proof.
  unfold Tasks.isCardShape, Tasks.toTaskRecord, Tasks.readable.
  rewrite forallb_isString. simpl. by rewrite andb_true_r.
Qed.

Lemma readTasksFromState_cons (task : Tasks.TaskRecord) (tasks : list Tasks.TaskRecord) :
  Tasks.readTasksFromState (task :: tasks)
  = match Tasks.readTask task with
    | Some card => card :: Tasks.readTasksFromState tasks
    | None => Tasks.readTasksFromState tasks
    end.
Proof. reflexivity. Qed.

Lemma readTasksFromState_toTaskRecord (cards : list Tasks.KanbanCard) :
  Tasks.readTasksFromState (map Tasks.toTaskRecord cards) = List.filter Tasks.readable cards.
Proof.
  induction cards as [|card cards IH]; [done|].
  rewrite map_cons, readTasksFromState_cons, IH. simpl.
  unfold Tasks.readTask. rewrite isCardShape_toTaskRecord.
  destruct (Tasks.readable card); [|done].
  destruct card as [i t o l tg pr]. simpl. by rewrite map_text.
Qed.

(** The task records that [persistKanbanCards] makes of a list of cards
    ([toTaskRecord]) are read back by [readTasksFromState] card for card
    and in the same order, except the cards whose lane is not one of
    [todo], [in-progress], [in-review], [complete] or whose priority is
    not one of [p1], [p2], [p3]: those are dropped; so the cards that
    have such a lane and priority all come back. *)
Theorem saved_cards_read_back (cards : list Tasks.KanbanCard) :
  Tasks.readTasksFromState (map Tasks.toTaskRecord cards) = List.filter Tasks.readable cards
  ∧ (Forall (λ card, Tasks.readable card = true) cards →
     Tasks.readTasksFromState (map Tasks.toTaskRecord cards) = cards).
Proof.
  split; [apply readTasksFromState_toTaskRecord|].
  intros Hall. rewrite readTasksFromState_toTaskRecord.
  induction Hall as [|card cards Hcard _ IH]; [done|]. simpl. by rewrite Hcard, IH.
Qed.

Example cancelled_card_is_dropped :
  Tasks.readTasksFromState
    (map Tasks.toTaskRecord
       [Tasks.Card "c1" "Fix" "ana" "todo" ["ui"] "p1";
        Tasks.Card "c2" "Old" "ben" "cancelled" [] "p2"])
  = [Tasks.Card "c1" "Fix" "ana" "todo" ["ui"] "p1"].
Proof. reflexivity. Qed.

(** Every card that [readTasksFromState] returns, whatever the backend
    sent, has one of the four lanes and one of the three priorities, and
    no more cards are returned than tasks were sent; writing the cards
    read and reading them again gives the same cards. *)
Theorem read_cards_are_well_formed (tasks : list Tasks.TaskRecord) :
  Forall (λ card, Tasks.readable card = true) (Tasks.readTasksFromState tasks)
  ∧ (List.length (Tasks.readTasksFromState tasks) ≤ List.length tasks)%nat
  ∧ Tasks.readTasksFromState (map Tasks.toTaskRecord (Tasks.readTasksFromState tasks))
    = Tasks.readTasksFromState tasks.
Proof.
  assert (Hwf : Forall (λ card, Tasks.readable card = true) (Tasks.readTasksFromState tasks)).
  { induction tasks as [|task tasks IH]; [constructor|].
    rewrite readTasksFromState_cons. unfold Tasks.readTask.
    destruct (Tasks.isCardShape task) eqn:Hshape; [|done].
    destruct task as [|i t o l pr [tg|]]; try done. constructor; [|done].
    unfold Tasks.readable. simpl in *.
    apply andb_true_iff in Hshape as [Hshape _].
    apply andb_true_iff in Hshape as [Hshape Hpr].
    apply andb_true_iff in Hshape as [_ Hl].
    destruct l as [| | | |l|]; try done. destruct pr as [| | | |pr|]; try done.
    simpl in *. by rewrite Hl, Hpr. }
  split; [done|]. split.
  - clear Hwf. induction tasks as [|task tasks IH]; [done|].
    rewrite readTasksFromState_cons.
    destruct (Tasks.readTask task); cbn [List.length]; lia.
  - rewrite readTasksFromState_toTaskRecord.
    induction Hwf as [|card cards Hcard _ IH]; [done|].
    simpl. by rewrite Hcard, IH.
Qed.

(** ** The pane grid *)

(** The pane count set by [handleTerminalCountChange] lies between 1
    and 16 whatever value is asked for, and the number of columns
    [terminalColumnsFor] gives for it is the side of the smallest square
    grid that holds that many panes. *)
Theorem pane_grid_holds_every_pane (value : Z) :
  let count := Workbench.handleTerminalCountChange value in
  let columns := Workbench.terminalColumnsFor count in
  1 ≤ count ≤ 16
  ∧ (1 ≤ value ≤ 16 → count = value)
  ∧ 1 ≤ columns ≤ 4
  ∧ count ≤ columns * columns
  ∧ (columns - 1) * (columns - 1) < count.
Proof.
  intros count columns.
  assert (Hcount : 1 ≤ count ≤ 16)
    by (unfold count, Workbench.handleTerminalCountChange, Workbench.MAX_TERMINAL_PANES; lia).
  split; [done|]. split.
  { unfold count, Workbench.handleTerminalCountChange, Workbench.MAX_TERMINAL_PANES. lia. }
  unfold columns, Workbench.terminalColumnsFor.
  destruct (Z.leb_spec count 1); [lia|].
  destruct (Z.leb_spec count 4); [lia|].
  destruct (Z.leb_spec count 9); lia.
Qed.

(** ** Recent workspace paths *)

Lemma filter_other_id (root : string) (paths : list string) :
  root ∉ paths → filter (λ item, item ≠ root) paths = paths.
Proof.
  induction paths as [|x paths IH]; [done|]. intros Hout.
  apply not_elem_of_cons in Hout as [Hne Hout].
  rewrite filter_cons, decide_True by done. by rewrite IH.
Qed.

(** Saving a workspace root puts it first among the recent paths,
    followed by the paths that were there before in their order, without
    the root itself and cut to six paths in all; a list without repeats
    stays without repeats, and saving the same root again changes
    nothing. *)
Theorem saved_root_leads_recent_paths (root : string) (recentPaths : list string) :
  root ≠ "" →
  let next := Workbench.nextRecent (Some root) recentPaths in
  next = root :: take 5 (filter (λ item, item ≠ root) recentPaths)
  ∧ (List.length next ≤ 6)%nat
  ∧ (root ∉ tail next)
  ∧ (tail next `sublist_of` recentPaths)
  ∧ (NoDup recentPaths → NoDup next)
  ∧ Workbench.nextRecent (Some root) next = next.
Proof.
  intros Hroot next.
  assert (Hnext : next = root :: take 5 (filter (λ item, item ≠ root) recentPaths)).
  { unfold next, Workbench.nextRecent, App.truthy. by rewrite nonempty_length. }
  assert (Hout : root ∉ take 5 (filter (λ item, item ≠ root) recentPaths)).
  { intros Hin. apply elem_of_take in Hin as (i & Hi & _).
    apply list_elem_of_lookup_2, list_elem_of_filter in Hi as [Hne _]. by apply Hne. }
  assert (Hsub : take 5 (filter (λ item, item ≠ root) recentPaths) `sublist_of` recentPaths).
  { etrans; [apply sublist_take|apply sublist_filter]. }
  split; [done|]. rewrite Hnext. simpl. split; [|split; [done|split; [done|split]]].
  - rewrite length_take. lia.
  - intros Hnd. apply NoDup_cons. split; [done|]. by eapply sublist_NoDup.
  - unfold Workbench.nextRecent, App.truthy. rewrite nonempty_length by done.
    rewrite filter_cons, decide_False by (intros H; by apply H).
    rewrite filter_other_id by done. simpl. by rewrite take_take.
Qed.

Lemma saved_root_leads_recent_paths_witness :
  Workbench.nextRecent (Some "/b") ["/a"; "/b"; "/c"]
  = "/b" :: take 5 (filter (λ item, item ≠ "/b") ["/a"; "/b"; "/c"]).
Proof.
  refine (proj1 (saved_root_leads_recent_paths "/b" ["/a"; "/b"; "/c"] _)).
  discriminate.
Defined.


(** ** The file tree *)

Lemma FileNode_forall_ind (P : Workbench.FileNode → Prop) :
  (∀ id name children, Forall P children → P (Workbench.Node id name children)) →
  ∀ node, P node.
Proof.
  intros Hnode. fix IH 1. intros [i n ch]. apply Hnode.
  induction ch as [|c ch IHch]; constructor; [apply IH|apply IHch].
Qed.

Lemma head_filter_app {A} (P : A → Prop) `{∀ x, Decision (P x)} (l k : list A) :
  head (filter P (l ++ k))
  = match head (filter P l) with
    | Some x => Some x
    | None => head (filter P k)
    end.
Proof.
  rewrite filter_app. by destruct (filter P l).
Qed.

Lemma firstFound_preorder (targetId : string) (nodes : list Workbench.FileNode) :
  Forall (λ node, Workbench.visitNode targetId node
                  = head (filter (λ n, Workbench.id n = targetId) (Workbench.preorder node)))
    nodes →
  Workbench.firstFound (Workbench.visitNode targetId) nodes
  = head (filter (λ n, Workbench.id n = targetId) (flat_map Workbench.preorder nodes)).
Proof.
  induction 1 as [|node nodes Hnode _ IH]; [done|].
  cbn [Workbench.firstFound flat_map]. rewrite head_filter_app, <- Hnode, IH.
  by destruct (Workbench.visitNode targetId node).
Qed.

Lemma visitNode_preorder (targetId : string) (node : Workbench.FileNode) :
  Workbench.visitNode targetId node
  = head (filter (λ n, Workbench.id n = targetId) (Workbench.preorder node)).
Proof.
  induction node as [i n ch IH] using FileNode_forall_ind.
  cbn [Workbench.visitNode Workbench.preorder Workbench.id Workbench.children].
  rewrite filter_cons. cbn [Workbench.id].
  destruct (decide (i = targetId)); [done|].
  by apply firstFound_preorder.
Qed.

(** [findNodeById] answers with the first node, in document order (a
    node before its children, siblings from first to last), whose id is
    the one looked for, and with [undefined] exactly when no node of the
    forest has that id. *)
Theorem findNodeById_finds_first_in_document_order
    (nodes : list Workbench.FileNode) (targetId : string) :
  Workbench.findNodeById nodes targetId
  = head (filter (λ n, Workbench.id n = targetId) (flat_map Workbench.preorder nodes))
  ∧ (Workbench.findNodeById nodes targetId = None
     ↔ ∀ n, n ∈ flat_map Workbench.preorder nodes → Workbench.id n ≠ targetId).
Proof.
  assert (Hfirst : Workbench.findNodeById nodes targetId
                   = head (filter (λ n, Workbench.id n = targetId)
                             (flat_map Workbench.preorder nodes))).
  { apply firstFound_preorder, Forall_forall. intros node _. apply visitNode_preorder. }
  split; [done|]. rewrite Hfirst. split.
  - intros Hnone n Hn Hid.
    assert (Hin : n ∈ filter (λ n, Workbench.id n = targetId)
                        (flat_map Workbench.preorder nodes))
      by (by apply list_elem_of_filter).
    destruct (filter _ _); [by apply elem_of_nil in Hin|done].
  - intros Hall.
    destruct (filter _ _) as [|n rest] eqn:Hfilter; [done|]. exfalso.
    assert (Hin : n ∈ filter (λ n, Workbench.id n = targetId)
                        (flat_map Workbench.preorder nodes))
      by (rewrite Hfilter; left).
    apply list_elem_of_filter in Hin as [Hid Hin]. by apply (Hall n).
Qed.

Example findNodeById_nested :
  Workbench.findNodeById
    [Workbench.Node "folder-src" "src"
       [Workbench.Node "file-a" "a.ts" []; Workbench.Node "file-b" "b.ts" []];
     Workbench.Node "file-b" "other" []] "file-b"
  = Some (Workbench.Node "file-b" "b.ts" []).
Proof. reflexivity. Qed.
